(** * PPTist import hook ([src/hooks/useImport.ts]): a shallow embedding

    The modules follow the parts of the hook: the translation of lines,
    of tables and of the parsed element objects, the classification and
    tagging of the converted slides with the assembly of the template
    deck, and the entry points.  Their properties come after them.

    JavaScript numbers are idealised: the geometry of lines, tables and
    parsed elements is carried out over the reals (the rotations need
    [cos], [sin] and [PI]), the slide classifier over the rationals, where
    every comparison computes.  Floating-point rounding, [NaN] and the
    infinities are not modelled.  JavaScript strings are sequences of
    UTF-16 code units; identifiers from [nanoid] are drawn from a counter,
    so that a new identifier differs from all earlier ones. *)

From Stdlib Require Import ZArith QArith Qround Reals Lra Lia.
From Stdlib Require Import List Bool Ascii String DecimalString.
From stdpp Require Import base option list gmap.

Import ListNotations.

(* ================================================================== *)
(** * JavaScript strings and the regular expressions of the hook *)
(* ================================================================== *)

Module Js.

(** A string is its sequence of UTF-16 code units. *)
Definition jsstring : Type := list N.

(** Code units of an ASCII literal. *)
Fixpoint js (s : string) : jsstring :=
  match s with
  | EmptyString => []
  | String c r => N_of_ascii c :: js r
  end.

Definition eqb (a b : jsstring) : bool := bool_decide (a = b).

(** [p] is a prefix of [s]. *)
Fixpoint startsWith (p s : jsstring) : bool :=
  match p, s with
  | [], _ => true
  | _ :: _, [] => false
  | a :: p', b :: s' => N.eqb a b && startsWith p' s'
  end.

(** [s.includes(k)]. *)
Fixpoint includes (s k : jsstring) : bool :=
  startsWith k s ||
  match s with
  | [] => false
  | _ :: s' => includes s' k
  end.

(** [a.join(sep)]. *)
Fixpoint join (sep : jsstring) (l : list jsstring) : jsstring :=
  match l with
  | [] => []
  | [a] => a
  | a :: r => a ++ sep ++ join sep r
  end.

(** The class [\s] of a regular expression, which is also what
    [trim] removes: white space and line terminators. *)
Definition isSpace (c : N) : bool :=
  ((9 <=? c) && (c <=? 13) || (c =? 32) || (c =? 160) || (c =? 0x1680)
   || (0x2000 <=? c) && (c <=? 0x200a) || (c =? 0x2028) || (c =? 0x2029)
   || (c =? 0x202f) || (c =? 0x205f) || (c =? 0x3000) || (c =? 0xfeff))%N.

(** The class [\d]. *)
Definition isDigit (c : N) : bool := ((48 <=? c) && (c <=? 57))%N.

(** The class [\w], whose complement makes a word boundary [\b]. *)
Definition isWord (c : N) : bool :=
  (isDigit c || (65 <=? c) && (c <=? 90) || (97 <=? c) && (c <=? 122)
   || (c =? 95))%N.

(** [toLowerCase] on one code unit.  Only the letters A to Z are
    folded; the other cased letters of Unicode are left as they are. *)
Definition lowerUnit (c : N) : N :=
  if ((65 <=? c) && (c <=? 90))%N then (c + 32)%N else c.

Definition toLowerCase (s : jsstring) : jsstring := map lowerUnit s.

(** A literal under the [i] flag: [p] is given in lower case. *)
Fixpoint startsWithCI (p s : jsstring) : bool :=
  match p, s with
  | [], _ => true
  | _ :: _, [] => false
  | a :: p', b :: s' => N.eqb a (lowerUnit b) && startsWithCI p' s'
  end.

(** The longest prefix in a class, for a greedy [c*]. *)
Fixpoint span (f : N -> bool) (s : jsstring) : jsstring * jsstring :=
  match s with
  | [] => ([], [])
  | c :: r =>
      if f c then let '(a, b) := span f r in (c :: a, b) else ([], s)
  end.

(** A matcher tells, for the text at the current position, the length of
    the match that starts there and what the match stands for. *)
Definition Matcher (A : Type) : Type := jsstring -> option (nat * A).

(** The matches of a [g] regular expression from left to right; after a
    match the scan resumes behind it ([skip] counts the units left of the
    match in progress).  No expression of the hook matches the empty
    string. *)
Fixpoint matchAll {A} (m : Matcher A) (skip : nat) (s : jsstring) : list A :=
  match s with
  | [] => []
  | _ :: r =>
      match skip with
      | S k => matchAll m k r
      | O =>
          match m s with
          | Some (S k, a) => a :: matchAll m k r
          | _ => matchAll m 0 r
          end
      end
  end.

(** [s.replace(re, rep)] for a [g] regular expression. *)
Fixpoint replaceAll (m : Matcher unit) (rep : jsstring) (skip : nat)
    (s : jsstring) : jsstring :=
  match s with
  | [] => []
  | c :: r =>
      match skip with
      | S k => replaceAll m rep k r
      | O =>
          match m s with
          | Some (S k, _) => rep ++ replaceAll m rep k r
          | _ => c :: replaceAll m rep 0 r
          end
      end
  end.

(** [re.test(s)] for an expression without anchors. *)
Fixpoint test (m : Matcher unit) (s : jsstring) : bool :=
  match m s with
  | Some _ => true
  | None => match s with [] => false | _ :: r => test m r end
  end.

(** [/<br\s*\/?\s*>/gi] *)
Definition reBr : Matcher unit := fun s =>
  if startsWithCI (js "<br") s then
    let r0 := drop 3 s in
    let '(w1, r1) := span isSpace r0 in
    let '(sl, r2) :=
      match r1 with
      | 47%N :: r => (1%nat, r)
      | _ => (0%nat, r1)
      end in
    let '(w2, r3) := span isSpace r2 in
    match r3 with
    | 62%N :: _ => Some ((3 + length w1 + sl + length w2 + 1)%nat, tt)
    | _ => None
    end
  else None.

(** [/<[^>]*>/g] *)
Definition reTag : Matcher unit := fun s =>
  match s with
  | 60%N :: r =>
      let '(inner, r1) := span (fun c => negb (c =? 62)%N) r in
      match r1 with
      | 62%N :: _ => Some ((length inner + 2)%nat, tt)
      | _ => None
      end
  | _ => None
  end.

(** [/\s+/g] *)
Definition reSpaces : Matcher unit := fun s =>
  match fst (span isSpace s) with
  | [] => None
  | w => Some (length w, tt)
  end.

(** [s.trim()] *)
Definition trimStart (s : jsstring) : jsstring := snd (span isSpace s).

Definition trim (s : jsstring) : jsstring :=
  rev (trimStart (rev (trimStart s))).

(** The value of a run of decimal digits. *)
Definition digitsValue (ds : jsstring) : Z :=
  fold_left (fun acc c => (acc * 10 + (Z.of_N c - 48))%Z) ds 0%Z.

(** [parseFloat] of a numeral [\d+(\.\d+)?], as a rational. *)
Definition parseDecimal (ip fp : jsstring) : Q :=
  (inject_Z (digitsValue ip)
   + inject_Z (digitsValue fp) / inject_Z (10 ^ Z.of_nat (length fp)))%Q.

(** [/font-size:\s*(\d+(?:\.\d+)?)\s*px/gi]; the match stands for the
    number captured by its group. *)
Definition reFontSizePx : Matcher Q := fun s =>
  if startsWithCI (js "font-size:") s then
    let r0 := drop 10 s in
    let '(w1, r1) := span isSpace r0 in
    let '(ip, r2) := span isDigit r1 in
    match ip with
    | [] => None
    | _ =>
        let '(fp, r3) :=
          match r2 with
          | 46%N :: r =>
              let '(ds, r') := span isDigit r in
              match ds with
              | [] => ([], r2)
              | _ => (46%N :: ds, r')
              end
          | _ => ([], r2)
          end in
        let '(w2, r4) := span isSpace r3 in
        if startsWithCI (js "px") r4 then
          Some ((10 + length w1 + length ip + length fp + length w2 + 2)%nat,
                parseDecimal ip (drop 1 fp))
        else None
    end
  else None.

(** The end of a word: [\b] behind a letter. *)
Definition wordEnds (r : jsstring) : bool :=
  match r with
  | [] => true
  | c :: _ => negb (isWord c)
  end.

(** [/(https?:\/\/|www\.|\.(com|cn|net|org)\b)/i] *)
Definition reLink : Matcher unit := fun s =>
  if startsWithCI (js "http://") s || startsWithCI (js "https://") s
     || startsWithCI (js "www.") s
     || startsWithCI (js ".com") s && wordEnds (drop 4 s)
     || startsWithCI (js ".cn") s && wordEnds (drop 3 s)
     || startsWithCI (js ".net") s && wordEnds (drop 4 s)
     || startsWithCI (js ".org") s && wordEnds (drop 4 s)
  then Some (1%nat, tt) else None.

(** [/officeplus/i] *)
Definition reOfficeplus : Matcher unit := fun s =>
  if startsWithCI (js "officeplus") s then Some (10%nat, tt) else None.

(** [/^\d+\.?$/.test(s)] *)
Definition isNumeral (s : jsstring) : bool :=
  let '(ds, r) := span isDigit s in
  match ds with
  | [] => false
  | _ => match r with
         | [] => true
         | [46%N] => true
         | _ => false
         end
  end.

End Js.

(* ================================================================== *)
(** * Line and connector translation (lines 1385-1490) *)
(* ================================================================== *)

Module Line.

Local Open Scope R_scope.

Definition Point : Type := R * R.

(** The fields of a parsed [Shape] that [parseLineElement] reads; the
    width, height, left and top have been scaled by the caller. *)
Record Shape := {
  width : R;
  height : R;
  left : R;
  top : R;
  rotate : R;
  isFlipH : bool;
  isFlipV : bool;
  borderWidth : R;
  borderType : Js.jsstring;
  borderColor : Js.jsstring;
  shapType : Js.jsstring;
}.

Record PPTLineElement := {
  l_id : nat;
  l_width : R;
  l_left : R;
  l_top : R;
  l_start : Point;
  l_end : Point;
  l_style : Js.jsstring;
  l_color : Js.jsstring;
  l_points : Js.jsstring * Js.jsstring;
  l_broken2 : option Point;
  l_cubic : option (Point * Point);
}.

Record Rotated := {
  r_start : Point;
  r_end : Point;
  r_offset : Point;
}.

(** [x || d] on numbers: zero is falsy. *)
Definition orElse (x d : R) : R := if Req_dec_T x 0 then d else x.

(** [+(x).toFixed(2)]: the nearest multiple of 1/100; a tie goes away
    from zero, and the sign is put back on the rounded magnitude. *)
Definition roundUp2 (x : R) : R := IZR (up (x * 100 + / 2) - 1) / 100.

Definition toFixed2 (x : R) : R :=
  if Rlt_dec x 0 then - roundUp2 (- x) else roundUp2 x.

Definition rotateLine (line : PPTLineElement) (angleDeg : R) : Rotated :=
  let '(start0, start1) := l_start line in
  let '(end0, end1) := l_end line in
  let angleRad := angleDeg * PI / 180 in
  let midX := (start0 + end0) / 2 in
  let midY := (start1 + end1) / 2 in
  let startTransX := start0 - midX in
  let startTransY := start1 - midY in
  let endTransX := end0 - midX in
  let endTransY := end1 - midY in
  let cosA := cos angleRad in
  let sinA := sin angleRad in
  let startRotX := startTransX * cosA - startTransY * sinA in
  let startRotY := startTransX * sinA + startTransY * cosA in
  let endRotX := endTransX * cosA - endTransY * sinA in
  let endRotY := endTransX * sinA + endTransY * cosA in
  let startNewX := startRotX + midX in
  let startNewY := startRotY + midY in
  let endNewX := endRotX + midX in
  let endNewY := endRotY + midY in
  let beforeMinX := Rmin start0 end0 in
  let beforeMinY := Rmin start1 end1 in
  let afterMinX := Rmin startNewX endNewX in
  let afterMinY := Rmin startNewY endNewY in
  let startAdjustedX := startNewX - afterMinX in
  let startAdjustedY := startNewY - afterMinY in
  let endAdjustedX := endNewX - afterMinX in
  let endAdjustedY := endNewY - afterMinY in
  {| r_start := (startAdjustedX, startAdjustedY);
     r_end := (endAdjustedX, endAdjustedY);
     r_offset := (afterMinX - beforeMinX, afterMinY - beforeMinY) |}.

(** The two endpoints chosen from the flip flags (lines 1438-1453). *)
Definition flipEndpoints (el : Shape) : Point * Point :=
  if negb (isFlipV el) && negb (isFlipH el) then
    ((0, 0), (width el, height el))
  else if isFlipV el && isFlipH el then
    ((width el, height el), (0, 0))
  else if isFlipV el && negb (isFlipH el) then
    ((0, height el), (width el, 0))
  else
    ((width el, 0), (0, height el)).

Definition withRotation (data : PPTLineElement) (r : Rotated) : PPTLineElement :=
  {| l_id := l_id data;
     l_width := l_width data;
     l_left := l_left data + fst (r_offset r);
     l_top := l_top data + snd (r_offset r);
     l_start := r_start r;
     l_end := r_end r;
     l_style := l_style data;
     l_color := l_color data;
     l_points := l_points data;
     l_broken2 := l_broken2 data;
     l_cubic := l_cubic data |}.

Definition halfSpan (data : PPTLineElement) : Point :=
  (Rabs (fst (l_start data) - fst (l_end data)) / 2,
   Rabs (snd (l_start data) - snd (l_end data)) / 2).

Definition withBroken2 (data : PPTLineElement) : PPTLineElement :=
  {| l_id := l_id data;
     l_width := l_width data;
     l_left := l_left data;
     l_top := l_top data;
     l_start := l_start data;
     l_end := l_end data;
     l_style := l_style data;
     l_color := l_color data;
     l_points := l_points data;
     l_broken2 := Some (halfSpan data);
     l_cubic := l_cubic data |}.

Definition withCubic (data : PPTLineElement) : PPTLineElement :=
  {| l_id := l_id data;
     l_width := l_width data;
     l_left := l_left data;
     l_top := l_top data;
     l_start := l_start data;
     l_end := l_end data;
     l_style := l_style data;
     l_color := l_color data;
     l_points := l_points data;
     l_broken2 := l_broken2 data;
     l_cubic := Some (halfSpan data, halfSpan data) |}.

(** [parseLineElement]; [id] is the identifier drawn from [nanoid]. *)
Definition parseLineElement (id : nat) (el : Shape) (ratio : R) : PPTLineElement :=
  let '(start, end_) := flipEndpoints el in
  let data :=
    {| l_id := id;
       l_width := toFixed2 (orElse (borderWidth el) 1 * ratio);
       l_left := left el;
       l_top := top el;
       l_start := start;
       l_end := end_;
       l_style := borderType el;
       l_color := borderColor el;
       l_points :=
         ([],
          if Js.includes (shapType el) (Js.js "straightConnector")
          then Js.js "arrow" else []);
       l_broken2 := None;
       l_cubic := None |} in
  let data :=
    if Req_dec_T (rotate el) 0 then data
    else withRotation data (rotateLine data (rotate el)) in
  let data :=
    if Js.includes (shapType el) (Js.js "bentConnector")
    then withBroken2 data else data in
  let data :=
    if Js.includes (shapType el) (Js.js "curvedConnector")
    then withCubic data else data in
  data.

End Line.

(* ================================================================== *)
(** * Table translation (lines 407-484) *)
(* ================================================================== *)

Module Table.

Local Open Scope R_scope.

Record Border := {
  b_borderWidth : R;
  b_borderType : Js.jsstring;
  b_borderColor : Js.jsstring;
}.

Record Borders := {
  b_top : option Border;
  b_bottom : option Border;
  b_left : option Border;
  b_right : option Border;
}.

(** A cell of the parsed table; [colSpan] and [rowSpan] are present only
    on merged cells. *)
Record SourceCell := {
  c_text : Js.jsstring;
  c_colSpan : option R;
  c_rowSpan : option R;
  c_fontColor : Js.jsstring;
  c_fontBold : bool;
  c_fillColor : Js.jsstring;
  c_borders : Borders;
}.

Record SourceTable := {
  t_width : R;
  t_height : R;
  t_left : R;
  t_top : R;
  t_data : list (list SourceCell);
  t_colWidths : list R;
  t_rowHeights : list R;
  t_borders : Borders;
}.

Record TableCellStyle := {
  s_align : Js.jsstring;
  s_fontsize : Js.jsstring;
  s_fontname : Js.jsstring;
  s_color : Js.jsstring;
  s_bold : bool;
  s_backcolor : Js.jsstring;
}.

Record TableCell := {
  tc_id : nat;
  tc_colspan : R;
  tc_rowspan : R;
  tc_text : Js.jsstring;
  tc_style : TableCellStyle;
}.

Record Outline := {
  o_width : R;
  o_style : Js.jsstring;
  o_color : Js.jsstring;
}.

Record PPTTableElement := {
  e_id : nat;
  e_width : R;
  e_height : R;
  e_left : R;
  e_top : R;
  e_colWidths : list R;
  e_rotate : R;
  e_data : list (list TableCell);
  e_outline : Outline;
  e_cellMinHeight : R;
}.

(** What the browser reports for the markup of one cell: the alignment
    of its first paragraph, the font size, family and colour of its first
    span (empty when there is none), and its inner text. *)
Record CellDom := {
  d_textAlign : Js.jsstring;
  d_fontSize : Js.jsstring;
  d_fontFamily : Js.jsstring;
  d_color : Js.jsstring;
  d_innerText : Js.jsstring;
}.

(** [a || b] on strings and on optional numbers. *)
Definition strOr (a b : Js.jsstring) : Js.jsstring :=
  match a with [] => b | _ => a end.

Definition numOr (a : option R) (d : R) : R :=
  match a with
  | Some x => Line.orElse x d
  | None => d
  end.

Definition firstSome {A} (l : list (option A)) : option A :=
  foldr (fun a r => match a with Some _ => a | None => r end) None l.

(** Identifiers come from [nanoid], one after the other; a translation
    that reads past the end of an array throws. *)
Definition Step (A : Type) : Type := nat -> option (A * nat).

Definition unit_ {A} (a : A) : Step A := fun n => Some (a, n).

Definition andThen {A B} (m : Step A) (k : A -> Step B) : Step B :=
  fun n => match m n with
           | Some (a, n') => k a n'
           | None => None
           end.

(** [nanoid(10)] *)
Definition newId : Step nat := fun n => Some (n, S n).

Definition throw {A} : Step A := fun _ => None.

Definition get {A} (o : option A) : Step A :=
  match o with Some a => unit_ a | None => throw end.

Fixpoint eachM {A B} (f : A -> Step B) (l : list A) : Step (list B) :=
  match l with
  | [] => unit_ []
  | a :: r => andThen (f a) (fun b => andThen (eachM f r) (fun bs => unit_ (b :: bs)))
  end.

Section Translate.

(** The browser: the DOM of a cell text, [parseInt] of a CSS length and
    the printing of a number with one decimal. *)
Variable dom : Js.jsstring -> CellDom.
Variable parseInt : Js.jsstring -> R.
Variable toFixed1 : R -> Js.jsstring.

Variable defaultFontName : Js.jsstring.
Variable defaultFontColor : Js.jsstring.

Definition alignOf (a : Js.jsstring) : Js.jsstring :=
  if Js.eqb a (Js.js "left") || Js.eqb a (Js.js "right")
     || Js.eqb a (Js.js "center")
  then a else Js.js "left".

(** The body of the inner loop (lines 419-446). *)
Definition parseCell (ratio : R) (cellData : SourceCell) : Step TableCell :=
  let d := dom (c_text cellData) in
  let align := strOr (d_textAlign d) (Js.js "left") in
  let fontsize :=
    match d_fontSize d with
    | [] => []
    | fs => toFixed1 (parseInt fs * ratio) ++ Js.js "px"
    end in
  let fontname := d_fontFamily d in
  let color := strOr (d_color d) (c_fontColor cellData) in
  andThen newId (fun id =>
  unit_ {| tc_id := id;
         tc_colspan := numOr (c_colSpan cellData) 1;
         tc_rowspan := numOr (c_rowSpan cellData) 1;
         tc_text := d_innerText d;
         tc_style :=
           {| s_align := alignOf align;
              s_fontsize := fontsize;
              s_fontname := fontname;
              s_color := color;
              s_bold := c_fontBold cellData;
              s_backcolor := c_fillColor cellData |} |}).

(** One row: the cells [el.data[i][j]] for [j] below the length of the
    first row. *)
Definition parseRow (ratio : R) (col : nat) (rowData : list SourceCell)
    : Step (list TableCell) :=
  eachM (fun j => andThen (get (rowData !! j)) (parseCell ratio)) (seq 0 col).

Definition sumWidths (l : list R) : R := fold_left Rplus l 0.

Definition parseTable (ratio : R) (el : SourceTable) : Step PPTTableElement :=
  andThen (get (t_data el !! 0%nat)) (fun row0 =>
  let col := length row0 in
  andThen (eachM (parseRow ratio col) (t_data el)) (fun data =>
  let allWidth := sumWidths (t_colWidths el) in
  let colWidths := map (fun item => item / allWidth) (t_colWidths el) in
  andThen (get (row0 !! 0%nat)) (fun firstCell =>
  let border :=
    firstSome
      [ b_top (c_borders firstCell); b_bottom (c_borders firstCell);
        b_top (t_borders el); b_bottom (t_borders el);
        b_left (c_borders firstCell); b_right (c_borders firstCell);
        b_left (t_borders el); b_right (t_borders el) ] in
  let borderWidth := numOr (b_borderWidth <$> border) 0 in
  let borderStyle :=
    strOr (default [] (b_borderType <$> border)) (Js.js "solid") in
  let borderColor :=
    strOr (default [] (b_borderColor <$> border)) (Js.js "#eeece1") in
  andThen newId (fun id =>
  unit_ {| e_id := id;
         e_width := t_width el;
         e_height := t_height el;
         e_left := t_left el;
         e_top := t_top el;
         e_colWidths := colWidths;
         e_rotate := 0;
         e_data := data;
         e_outline :=
           {| o_width := Line.toFixed2 (Line.orElse (borderWidth * ratio) 2);
              o_style := borderStyle;
              o_color := borderColor |};
         e_cellMinHeight :=
           match t_rowHeights el !! 0%nat with
           | Some h => if Req_dec_T h 0 then 36 else h * ratio
           | None => 36
           end |})))).

End Translate.

End Table.

(* ================================================================== *)
(** * The parsed element objects under [parseElements] (lines 138-150,
      559-595) *)
(* ================================================================== *)

(** The parser hands over a tree of mutable objects.  This module keeps
    them in a store and follows every write that [parseElements] makes to
    them; the converted elements go to the new slide, which is a separate
    object, and are followed for lines and tables in the modules above. *)
Module Source.

Local Open Scope R_scope.

Inductive Kind :=
  | text | image | math | audio | video | shape | table | chart
  | group | diagram.

(** An object of the parsed tree.  [payload] stands for the fields of its
    kind (markup, picture, path, cells, series); the children of a group
    or diagram are references. *)
Record Element := {
  type : Kind;
  order : R;
  width : R;
  height : R;
  left : R;
  top : R;
  rotate : R;
  isFlipH : option bool;
  isFlipV : option bool;
  payload : Js.jsstring;
  elements : list nat;
}.

Abbreviation Store := (list Element).

Definition setGeometry (el : Element) (w h l t : R) : Element :=
  {| type := type el; order := order el;
     width := w; height := h; left := l; top := t;
     rotate := rotate el; isFlipH := isFlipH el; isFlipV := isFlipV el;
     payload := payload el; elements := elements el |}.

(** Lines 147-150: the four assignments to the element itself. *)
Definition scale (ratio : R) (el : Element) : Element :=
  setGeometry el (width el * ratio) (height el * ratio)
    (left el * ratio) (top el * ratio).

Definition truthy (b : option bool) : bool := default false b.

(** [if (el.isFlipH && 'isFlipH' in element) element.isFlipH = true] *)
Definition inheritFlip (parent own : option bool) : option bool :=
  if truthy parent then
    match own with Some _ => Some true | None => None end
  else own.

Definition calculateRotatedPosition (x y w h ox oy k : R) : R * R :=
  let radians := k * (PI / 180) in
  let containerCenterX := x + w / 2 in
  let containerCenterY := y + h / 2 in
  let relativeX := ox - w / 2 in
  let relativeY := oy - h / 2 in
  let rotatedX := relativeX * cos radians + relativeY * sin radians in
  let rotatedY := - relativeX * sin radians + relativeY * cos radians in
  (containerCenterX + rotatedX, containerCenterY + rotatedY).

(** [Math.min(...l)] and [Math.max(...l)]; of an empty list they are the
    infinities, which are then never used. *)
Definition minOf (l : list R) : R :=
  match l with [] => 0 | x :: r => fold_left Rmin r x end.

Definition maxOf (l : list R) : R :=
  match l with [] => 0 | x :: r => fold_left Rmax r x end.

Inductive Axis := axisX | axisY.

(** [flipGroupElements] returns fresh objects. *)
Definition flipGroupElements (els : list Element) (axis : Axis) : list Element :=
  let minX := minOf (map left els) in
  let maxX := maxOf (map (fun el => left el + width el) els) in
  let minY := minOf (map top els) in
  let maxY := maxOf (map (fun el => top el + height el) els) in
  let centerX := (minX + maxX) / 2 in
  let centerY := (minY + maxY) / 2 in
  map (fun element =>
         match axis with
         | axisY =>
             setGeometry element (width element) (height element)
               (2 * centerX - left element - width element) (top element)
         | axisX =>
             setGeometry element (width element) (height element)
               (left element) (2 * centerY - top element - height element)
         end) els.

(** The copy [{ ..._el, left, top }] of a group child (lines 560-579). *)
Definition groupChild (el : Element) (originLeft originTop originWidth originHeight : R)
    (_el : Element) : Element :=
  let '(l, t) :=
    if Req_dec_T (rotate el) 0 then (left _el + originLeft, top _el + originTop)
    else calculateRotatedPosition originLeft originTop originWidth originHeight
           (left _el) (top _el) (rotate el) in
  {| type := type _el; order := order _el;
     width := width _el; height := height _el; left := l; top := t;
     rotate := rotate _el;
     isFlipH := inheritFlip (isFlipH el) (isFlipH _el);
     isFlipV := inheritFlip (isFlipV el) (isFlipV _el);
     payload := payload _el; elements := elements _el |}.

(** The copy of a diagram child (lines 585-589). *)
Definition diagramChild (originLeft originTop : R) (_el : Element) : Element :=
  setGeometry _el (width _el) (height _el)
    (left _el + originLeft) (top _el + originTop).

(** The objects behind a list of references. *)
Definition deref (st : Store) (refs : list nat) : list Element :=
  omap (fun r => st !! r) refs.

(** New objects go behind the ones that exist. *)
Definition allocAll (st : Store) (els : list Element) : list nat * Store :=
  (seq (length st) (length els), st ++ els).

(** [elements.sort((a, b) => a.order - b.order)]: a stable sort of the
    array of references. *)
Fixpoint insertByOrder (st : Store) (r : nat) (l : list nat) : list nat :=
  match l with
  | [] => [r]
  | r' :: l' =>
      match st !! r, st !! r' with
      | Some a, Some b =>
          if Rle_dec (order a - order b) 0 then r :: l
          else r' :: insertByOrder st r l'
      | _, _ => r :: l
      end
  end.

Definition sortByOrder (st : Store) (refs : list nat) : list nat :=
  foldr (insertByOrder st) [] refs.

Definition orOne (x : R) : R := if Req_dec_T x 0 then 1 else x.

(** The body of the loop of [parseElements] for the element behind [r];
    [nested] is the call of [parseElements] on the copies of the children
    of a group or diagram. *)
Definition visit (nested : list nat -> Store -> Store) (ratio : R)
    (st : Store) (r : nat) : Store :=
  match st !! r with
  | None => st
  | Some el =>
      let originWidth := orOne (width el) in
      let originHeight := orOne (height el) in
      let originLeft := left el in
      let originTop := top el in
      let st := <[r := scale ratio el]> st in
      match type el with
      | group =>
          let children :=
            map (groupChild el originLeft originTop originWidth originHeight)
              (deref st (elements el)) in
          let children :=
            if truthy (isFlipH el)
            then flipGroupElements children axisY else children in
          let children :=
            if truthy (isFlipV el)
            then flipGroupElements children axisX else children in
          let '(refs', st) := allocAll st children in
          nested refs' st
      | diagram =>
          let children :=
            map (diagramChild originLeft originTop) (deref st (elements el)) in
          let '(refs', st) := allocAll st children in
          nested refs' st
      | _ => st
      end
  end.

(** [parseElements], as far as the parsed objects are concerned.  [fuel]
    bounds the nesting of groups and diagrams. *)
Fixpoint parseElements (fuel : nat) (ratio : R) (refs : list nat) (st : Store)
    : Store :=
  match fuel with
  | O => st
  | S fuel' =>
      fold_left (visit (parseElements fuel' ratio) ratio)
        (sortByOrder st refs) st
  end.

(** A parsed slide: the references to its own and to its layout's
    elements. *)
Record SourceSlide := {
  s_elements : list nat;
  s_layoutElements : list nat;
}.

(** Line 595: [parseElements([...item.elements, ...item.layoutElements])]. *)
Definition parseSlide (fuel : nat) (ratio : R) (item : SourceSlide) (st : Store)
    : Store :=
  parseElements fuel ratio (s_elements item ++ s_layoutElements item) st.

End Source.

(* ================================================================== *)
(** * Slide roles, text tags and placeholders (lines 599-1331) *)
(* ================================================================== *)

Module Template.

Local Open Scope Q_scope.

(** ** Numbers *)

Definition leb (x y : Q) : bool := Qle_bool x y.
Definition ltb (x y : Q) : bool := negb (Qle_bool y x).
Definition geb (x y : Q) : bool := Qle_bool y x.
Definition gtb (x y : Q) : bool := negb (Qle_bool x y).
Definition isZero (x : Q) : bool := Qeq_bool x 0.

(** [Math.max], [Math.min], [Math.abs]. *)
Definition max (x y : Q) : Q := if leb x y then y else x.
Definition min (x y : Q) : Q := if leb x y then x else y.
Definition abs (x : Q) : Q := if leb 0 x then x else - x.

(** [a.sort(cmp)]: the sort is stable, and an element moves in front of
    another one only when the comparator is positive for the pair. *)
Fixpoint insertBy {A} (cmp : A -> A -> Q) (x : A) (l : list A) : list A :=
  match l with
  | [] => [x]
  | y :: r => if gtb (cmp x y) 0 then y :: insertBy cmp x r else x :: l
  end.

Definition sortBy {A} (cmp : A -> A -> Q) (l : list A) : list A :=
  foldr (insertBy cmp) [] l.

(** [d1 || d2] between two differences of a comparator. *)
Definition orDiff (d1 d2 : Q) : Q := if isZero d1 then d2 else d1.

(** ** Slides and their elements *)

Inductive SlideType := cover | contents | transition | content | end_.

Inductive ElementType :=
  | text | image | shape | line | chart | table | latex | video | audio.

#[global] Instance SlideType_eq_dec : EqDecision SlideType.
Proof. solve_decision. Defined.

#[global] Instance ElementType_eq_dec : EqDecision ElementType.
Proof. solve_decision. Defined.

(** The text carried by a shape; [st_type] is its tag. *)
Record ShapeText := {
  st_content : Js.jsstring;
  st_type : option string;
}.

(** An element of a converted slide.  The fields are those that the
    classifier reads or that [addTextBox] writes; a missing number reads
    as 0 under [x || 0], so the numbers are total here. *)
Record PPTElement := {
  e_type : ElementType;
  e_id : nat;
  e_left : Q;
  e_top : Q;
  e_width : Q;
  e_height : Q;
  e_rotate : Q;
  e_defaultFontName : Js.jsstring;
  e_defaultColor : Js.jsstring;
  e_content : Js.jsstring;
  e_lineHeight : Q;
  e_textType : option string;
  e_groupId : option nat;
  e_text : option ShapeText;
}.

Record Slide := {
  s_id : nat;
  s_elements : list PPTElement;
  s_background : option Js.jsstring;
  s_remark : option Js.jsstring;
  s_type : option SlideType;
}.

Definition withElements (slide : Slide) (els : list PPTElement) : Slide :=
  {| s_id := s_id slide; s_elements := els;
     s_background := s_background slide; s_remark := s_remark slide;
     s_type := s_type slide |}.

Definition withType (slide : Slide) (ty : SlideType) : Slide :=
  {| s_id := s_id slide; s_elements := s_elements slide;
     s_background := s_background slide; s_remark := s_remark slide;
     s_type := Some ty |}.

Definition withTextType (el : PPTElement) (t : option string) : PPTElement :=
  {| e_type := e_type el; e_id := e_id el; e_left := e_left el;
     e_top := e_top el; e_width := e_width el; e_height := e_height el;
     e_rotate := e_rotate el; e_defaultFontName := e_defaultFontName el;
     e_defaultColor := e_defaultColor el; e_content := e_content el;
     e_lineHeight := e_lineHeight el; e_textType := t;
     e_groupId := e_groupId el; e_text := e_text el |}.

Definition withShapeText (el : PPTElement) (st : ShapeText) : PPTElement :=
  {| e_type := e_type el; e_id := e_id el; e_left := e_left el;
     e_top := e_top el; e_width := e_width el; e_height := e_height el;
     e_rotate := e_rotate el; e_defaultFontName := e_defaultFontName el;
     e_defaultColor := e_defaultColor el; e_content := e_content el;
     e_lineHeight := e_lineHeight el; e_textType := e_textType el;
     e_groupId := e_groupId el; e_text := Some st |}.

Definition isType (el : PPTElement) (t : ElementType) : bool :=
  bool_decide (e_type el = t).

Definition getHtmlText (el : PPTElement) : Js.jsstring :=
  if isType el text then e_content el
  else if isType el shape then
    match e_text el with
    | Some st => st_content st
    | None => []
    end
  else [].

Definition htmlToPlainText (html : Js.jsstring) : Js.jsstring :=
  Js.trim
    (Js.replaceAll Js.reSpaces (Js.js " ") 0
       (Js.replaceAll Js.reTag [] 0
          (Js.replaceAll Js.reBr [10%N] 0 html))).

Definition getMaxFontSizePx (html : Js.jsstring) : Q :=
  let m := fold_left max (Js.matchAll Js.reFontSizePx 0 html) 0 in
  if isZero m then 16 else m.

Definition setTextType (textType : string) (el : PPTElement) : PPTElement :=
  if isType el text then withTextType el (Some textType)
  else if isType el shape then
    match e_text el with
    | Some st =>
        withShapeText el
          {| st_content := st_content st; st_type := Some textType |}
    | None => el
    end
  else el.

Definition clearTextType (el : PPTElement) : PPTElement :=
  if isType el text then withTextType el None
  else if isType el shape then
    match e_text el with
    | Some st =>
        withShapeText el {| st_content := st_content st; st_type := None |}
    | None => el
    end
  else el.

(** The filter of [getTextCandidates]. *)
Definition isTextCandidate (el : PPTElement) : bool :=
  isType el text || (isType el shape && bool_decide (is_Some (e_text el))).

(** The tag that [hasTextType] looks at. *)
Definition textTypeOf (el : PPTElement) : option string :=
  if isType el text then e_textType el
  else if isType el shape then e_text el ≫= st_type
  else None.

Definition hasTextType (slide : Slide) (textType : string) : bool :=
  existsb (fun el => bool_decide (textTypeOf el = Some textType))
    (s_elements slide).

(** An element object is known by its place in [slide.elements]; [obj]
    is what the object holds apart from its tag, which is the only thing
    the tagger writes. *)
Record Ref := {
  r_at : nat;
  r_obj : PPTElement;
}.

Definition getTextCandidates (slide : Slide) : list Ref :=
  List.filter (fun r => isTextCandidate (r_obj r))
    (imap (fun i el => {| r_at := i; r_obj := el |}) (s_elements slide)).

Definition sameRef (a b : Ref) : bool := Nat.eqb (r_at a) (r_at b).

Section Editor.

(** The editor state that the hook reads: the viewport and the theme. *)
Variable viewportSize : Q.
Variable viewportRatio : Q.
Variable fontName : Js.jsstring.
Variable fontColor : Js.jsstring.

Definition slideHeight : Q := viewportSize * viewportRatio.

Definition isFooterLikeEl (el : PPTElement) : bool :=
  let top := e_top el in
  let h := e_height el in
  geb top (slideHeight * 0.9) && leb h (max 18 (slideHeight * 0.04)).

Definition isBrandLikeEl (plain : Js.jsstring) (el : PPTElement) : bool :=
  let t := Js.toLowerCase plain in
  match t with
  | [] => false
  | _ =>
      if Js.test Js.reLink t then true
      else if Js.test Js.reOfficeplus t then true
      else
        let left := e_left el in
        let top := e_top el in
        let w := e_width el in
        let h := e_height el in
        let font := getMaxFontSizePx (getHtmlText el) in
        let inTopRight :=
          geb left (viewportSize * 0.65) && leb top (slideHeight * 0.18) in
        inTopRight && leb font 22 && leb h (slideHeight * 0.08)
        && leb w (viewportSize * 0.35)
  end.

Definition isTooTinyEl (el : PPTElement) (font : Q) : bool :=
  let w := e_width el in
  let h := e_height el in
  let area := w * h in
  let slideArea := viewportSize * slideHeight in
  if leb area (slideArea * 0.004) && leb font 12 then true
  else if leb w (viewportSize * 0.12) && leb font 12 then true
  else if leb h 10 then true
  else false.

(** ** Statistics and scores of a slide (lines 1179-1258) *)

Record Candidate := {
  c_el : Ref;
  c_plain : Js.jsstring;
  c_font : Q;
  c_w : Q;
  c_h : Q;
  c_area : Q;
}.

Record Stats := {
  usable : list Candidate;
  lowerAll : Js.jsstring;
  maxFont : Q;
  maxFontTop : Q;
  listLikeCount : nat;
}.

Definition nonEmpty (s : Js.jsstring) : bool :=
  match s with [] => false | _ => true end.

Definition getSlideTextStats (slide : Slide) : Stats :=
  let candidates :=
    map (fun el =>
           let html := getHtmlText (r_obj el) in
           let plain := htmlToPlainText html in
           let font := getMaxFontSizePx html in
           let w := e_width (r_obj el) in
           let h := e_height (r_obj el) in
           {| c_el := el; c_plain := plain; c_font := font;
              c_w := w; c_h := h; c_area := w * h |})
        (getTextCandidates slide) in
  let usable :=
    List.filter (fun c => negb (isTooTinyEl (r_obj (c_el c)) (c_font c)))
      (List.filter (fun c => negb (isBrandLikeEl (c_plain c) (r_obj (c_el c))))
         (List.filter (fun c => negb (isFooterLikeEl (r_obj (c_el c))))
            (List.filter (fun c => nonEmpty (c_plain c)) candidates))) in
  let lowerAll :=
    Js.join (Js.js " | ") (map (fun c => Js.toLowerCase (c_plain c)) usable) in
  let maxFont := fold_left (fun m c => max m (c_font c)) usable 0 in
  let maxFontEl :=
    head (sortBy (fun a b => c_font b - c_font a) usable) in
  let maxFontTop :=
    match maxFontEl with
    | Some c => e_top (r_obj (c_el c))
    | None => 0
    end in
  let listLike :=
    List.filter
      (fun c =>
         if ltb (c_w c) (viewportSize * 0.28) then false
         else if gtb (c_h c) (slideHeight * 0.16) then false
         else if gtb (c_area c) (viewportSize * slideHeight * 0.25) then false
         else true)
      usable in
  {| usable := usable; lowerAll := lowerAll; maxFont := maxFont;
     maxFontTop := maxFontTop; listLikeCount := length listLike |}.

(** [score += n] under a condition. *)
Definition bonus (b : bool) (n : Z) : Z := if b then n else 0%Z.

(** The keyword lists of [scoreSlideAs]. *)
Definition endWords : list Js.jsstring :=
  [ [0x81f4; 0x8c22]%N; [0x8c22; 0x8c22]%N; Js.js "thanks"; Js.js "thank";
    Js.js "the end"; [0x7ed3; 0x675f]%N ].

Definition contentsWords : list Js.jsstring :=
  [ [0x76ee; 0x5f55]%N; Js.js "contents"; Js.js "outline"; Js.js "agenda" ].

Definition transitionWords : list Js.jsstring :=
  [ [0x7ae0; 0x8282]%N; [0x90e8; 0x5206]%N; Js.js "part"; Js.js "chapter";
    Js.js "section" ].

Definition coverWords : list Js.jsstring :=
  [ [0x5c01; 0x9762]%N; Js.js "title"; [0x4e3b; 0x9898]%N ].

Definition scoreSlideAs (slide : Slide) (type : SlideType) : Z :=
  let s := getSlideTextStats slide in
  let textCount := length (usable s) in
  let has (kw : list Js.jsstring) :=
    existsb (fun k => Js.includes (lowerAll s) (Js.toLowerCase k)) kw in
  match type with
  | end_ =>
      (bonus (has endWords) 120
       + bonus (textCount <=? 3)%nat 20
       + bonus (geb (maxFont s) 36) 10)%Z
  | contents =>
      (bonus (has contentsWords) 100
       + Z.min 60 (Z.of_nat (listLikeCount s) * 10)
       + bonus (5 <=? textCount)%nat 10
       + bonus (geb (maxFont s) 28 && ltb (maxFontTop s) (slideHeight * 0.35)) 10)%Z
  | transition =>
      (bonus (has transitionWords) 80
       + bonus (textCount <=? 3)%nat 30
       + bonus (geb (maxFont s) 40 && geb (maxFontTop s) (slideHeight * 0.2)
                && leb (maxFontTop s) (slideHeight * 0.7)) 40
       - bonus (4 <=? listLikeCount s)%nat 40)%Z
  | cover =>
      (bonus (has coverWords) 40
       + bonus (geb (maxFont s) 40 && ltb (maxFontTop s) (slideHeight * 0.35)) 60
       + bonus (textCount <=? 4)%nat 20
       - bonus (4 <=? listLikeCount s)%nat 60)%Z
  | content =>
      (bonus (4 <=? listLikeCount s)%nat 20
       + bonus (2 <=? textCount)%nat 10)%Z
  end.

(** ** Tagging the texts of a slide (lines 983-1177) *)

Record Scored := {
  el : Ref;
  font : Q;
  area : Q;
  score : Q;
  plain : Js.jsstring;
}.

Definition top_ (s : Scored) : Q := e_top (r_obj (el s)).
Definition left_ (s : Scored) : Q := e_left (r_obj (el s)).
Definition width_ (s : Scored) : Q := e_width (r_obj (el s)).
Definition height_ (s : Scored) : Q := e_height (r_obj (el s)).

(** Comparators of the sorts: by top, then by left. *)
Definition byTopLeft (a b : Scored) : Q :=
  orDiff (top_ a - top_ b) (left_ a - left_ b).

Definition keywordTitleMap (slideType : SlideType) : list Js.jsstring :=
  match slideType with
  | cover => [ [0x6807; 0x9898]%N; [0x4e3b; 0x9898]%N; Js.js "title" ]
  | transition =>
      [ [0x7ae0; 0x8282]%N; [0x90e8; 0x5206]%N; Js.js "part";
        Js.js "chapter"; Js.js "title" ]
  | contents =>
      [ [0x76ee; 0x5f55]%N; Js.js "contents"; Js.js "outline"; Js.js "agenda" ]
  | content => [ [0x6807; 0x9898]%N; Js.js "title" ]
  | end_ =>
      [ [0x81f4; 0x8c22]%N; Js.js "thanks"; Js.js "thank"; [0x7ed3; 0x675f]%N ]
  end.

Definition subtitleWords : list Js.jsstring :=
  [ [0x7b80; 0x4ecb]%N; [0x526f; 0x6807; 0x9898]%N; [0x8bf4; 0x660e]%N;
    Js.js "content"; Js.js "subtitle" ].

(** [findByKeywords]; the items are the [{ el, plain }] of scored
    candidates. *)
Definition findByKeywords (items : list Scored) (keywords : list Js.jsstring)
    : option Ref :=
  match keywords with
  | [] => None
  | _ =>
      let lowerKeywords := map Js.toLowerCase keywords in
      let matched :=
        List.filter
          (fun it =>
             let t := Js.toLowerCase (plain it) in
             existsb (fun k => nonEmpty k && Js.includes t k) lowerKeywords)
          items in
      match matched with
      | [] => None
      | _ =>
          el <$>
          head
            (sortBy
               (fun a b : Scored =>
                  let fa := getMaxFontSizePx (getHtmlText (r_obj (el a))) in
                  let fb := getMaxFontSizePx (getHtmlText (r_obj (el b))) in
                  orDiff (fb - fa) (top_ a - top_ b))
               matched)
      end
  end.

(** [setTextType(r, textType)] on the elements of the slide. *)
Definition tag (textType : string) (r : Ref) (els : list PPTElement)
    : list PPTElement :=
  alter (setTextType textType) (r_at r) els.

Definition tagOpt (textType : string) (r : option Ref) (els : list PPTElement)
    : list PPTElement :=
  match r with
  | Some r => tag textType r els
  | None => els
  end.

Definition scoredOf (slide : Slide) : list Scored :=
  sortBy (fun a b => score b - score a)
    (map (fun r =>
            let html := getHtmlText (r_obj r) in
            let font := getMaxFontSizePx html in
            let area := e_width (r_obj r) * e_height (r_obj r) in
            let score := font * 100000 - e_top (r_obj r) * 10 + area / 100 in
            {| el := r; font := font; area := area; score := score;
               plain := htmlToPlainText html |})
       (getTextCandidates slide)).

Definition notBrand (s : Scored) : bool :=
  negb (isBrandLikeEl (plain s) (r_obj (el s))).

Definition orIfEmpty {A} (l l' : list A) : list A :=
  match l with [] => l' | _ => l end.

(** [kwTitleEl || fallbackTitleEl] (lines 1007-1012). *)
Definition titleElOf (scored : list Scored) (slideType : SlideType) : option Ref :=
  let nonBrand := List.filter notBrand scored in
  let titlePool := orIfEmpty nonBrand scored in
  let topHalf :=
    List.filter (fun s => leb (top_ s) (slideHeight * 0.45)) titlePool in
  let fallbackTitleEl := el <$> head (orIfEmpty topHalf titlePool) in
  let kwTitleEl := findByKeywords titlePool (keywordTitleMap slideType) in
  match kwTitleEl with
  | Some r => Some r
  | None => fallbackTitleEl
  end.

Definition isNot (titleEl : option Ref) (s : Scored) : bool :=
  match titleEl with
  | Some r => negb (sameRef (el s) r)
  | None => true
  end.

Definition restOf (scored : list Scored) (titleEl : option Ref) : list Scored :=
  List.filter notBrand (List.filter (isNot titleEl) scored).

Definition slideArea : Q := viewportSize * slideHeight.

Definition isFooterLike (s : Scored) : bool := isFooterLikeEl (r_obj (el s)).

Definition isTooTiny (s : Scored) : bool := isTooTinyEl (r_obj (el s)) (font s).

Definition isNumberBox (s : Scored) : bool :=
  if Js.isNumeral (plain s) then true
  else if gtb (width_ s) 0 && ltb (width_ s) (viewportSize * 0.12) then true
  else false.

Definition solid (s : Scored) : bool := negb (isFooterLike s) && negb (isTooTiny s).

(** Cover and transition (lines 1035-1048). *)
Definition tagCoverOrTransition (slideType : SlideType) (rest : list Scored)
    (els : list PPTElement) : list PPTElement :=
  let kwContentEl := findByKeywords rest subtitleWords in
  let fallbackContentEl :=
    el <$>
    head (sortBy (fun a b => orDiff (area b - area a) (top_ a - top_ b)) rest) in
  let contentEl :=
    match kwContentEl with Some r => Some r | None => fallbackContentEl end in
  let els := tagOpt "content" contentEl els in
  if bool_decide (slideType = transition) then
    let numberEl :=
      el <$> head (sortBy byTopLeft (List.filter isNumberBox rest)) in
    tagOpt "partNumber" numberEl els
  else els.

(** Contents (lines 1050-1108). *)
Definition contentsRegion (rest : list Scored) : list Scored :=
  let listRegion :=
    List.filter solid
      (List.filter
         (fun s => geb (top_ s) (slideHeight * 0.18)
                   && leb (top_ s) (slideHeight * 0.92))
         rest) in
  orIfEmpty listRegion (List.filter solid rest).

Definition contentsOrdered (rest : list Scored) : list Scored :=
  sortBy byTopLeft (contentsRegion rest).

Definition isWideTextBox (s : Scored) : bool :=
  let w := width_ s in
  let h := height_ s in
  let area := w * h in
  if ltb w (viewportSize * 0.28) then false
  else if gtb h (slideHeight * 0.14) then false
  else if gtb area (slideArea * 0.25) then false
  else true.

Definition wideTextBoxes (rest : list Scored) : list Scored :=
  List.filter isWideTextBox (contentsOrdered rest).

Definition tagContents (rest : list Scored) (els : list PPTElement)
    : list PPTElement :=
  match contentsRegion rest with
  | [] => els
  | _ =>
      let ordered := contentsOrdered rest in
      let wide := wideTextBoxes rest in
      if (length wide <? 3)%nat then els
      else
        let lefts := sortBy (fun a b : Q => a - b) (map left_ wide) in
        let itemLeft := nth (length lefts / 2) lefts 0 in
        let leftTol := max 24 (viewportSize * 0.06) in
        let itemBoxes :=
          sortBy (fun a b => top_ a - top_ b)
            (List.filter (fun s => leb (abs (left_ s - itemLeft)) leftTol) wide) in
        if (length itemBoxes <? 3)%nat then els
        else
          let els := fold_left (fun els s => tag "item" (el s) els) itemBoxes els in
          let narrowCandidates :=
            List.filter
              (fun s =>
                 if gtb (width_ s) (viewportSize * 0.18) then false
                 else if geb (left_ s) itemLeft then false
                 else negb (isTooTiny s))
              ordered in
          fold_left
            (fun els it =>
               let itTop := top_ it in
               let itH := height_ it in
               let tolY := max 16 (min 36 (itH * 0.8)) in
               let matched :=
                 head
                   (sortBy (fun a b => left_ a - left_ b)
                      (List.filter
                         (fun n => leb (abs (top_ n - itTop)) tolY)
                         narrowCandidates)) in
               tagOpt "itemNumber" (el <$> matched) els)
            itemBoxes els
  end.

(** Content (lines 1110-1176). *)
Definition tagContent (rest : list Scored) (els : list PPTElement)
    : list PPTElement :=
  let bodyRegion :=
    List.filter solid
      (List.filter (fun s => geb (top_ s) (slideHeight * 0.16)) rest) in
  let region := orIfEmpty bodyRegion (List.filter solid rest) in
  match region with
  | [] => els
  | _ =>
      let ordered := sortBy byTopLeft region in
      let numberBoxes :=
        List.filter
          (fun s =>
             if gtb (width_ s) (viewportSize * 0.14) then false
             else if gtb (left_ s) (viewportSize * 0.5) then false
             else isNumberBox s)
          ordered in
      let els := fold_left (fun els s => tag "itemNumber" (el s) els) numberBoxes els in
      let textBoxes :=
        List.filter
          (fun s => negb (existsb (fun n => sameRef (el n) (el s)) numberBoxes))
          ordered in
      let contentCandidate :=
        head
          (sortBy (fun a b => orDiff (area b - area a) (font b - font a))
             (List.filter
                (fun s =>
                   if ltb (width_ s) (viewportSize * 0.35) then false
                   else if ltb (height_ s) (slideHeight * 0.12) then false
                   else if ltb (area s) (slideArea * 0.06) then false
                   else true)
                textBoxes)) in
      match contentCandidate with
      | None => els
      | Some cc =>
          let els := tag "content" (el cc) els in
          let remaining :=
            List.filter (fun s => negb (sameRef (el s) (el cc))) textBoxes in
          let pairCandidates :=
            sortBy byTopLeft
              (List.filter
                 (fun s =>
                    if ltb (width_ s) (viewportSize * 0.22) then false
                    else if ltb (height_ s) 14 || gtb (height_ s) (slideHeight * 0.18)
                    then false
                    else if ltb (area s) (slideArea * 0.01) then false
                    else true)
                 remaining) in
          let maxPairs := Nat.min 4 (length pairCandidates / 2) in
          fold_left
            (fun els i =>
               match pairCandidates !! (i * 2)%nat,
                     pairCandidates !! (i * 2 + 1)%nat with
               | Some a, Some b =>
                   let '(first, second) :=
                     if leb (height_ a) (height_ b) then (a, b) else (b, a) in
                   tag "item" (el second) (tag "itemTitle" (el first) els)
               | _, _ => els
               end)
            (seq 0 maxPairs) els
      end
  end.

Definition autoTagSlideTextTypes (slide : Slide) (slideType : SlideType) : Slide :=
  let candidates := getTextCandidates slide in
  match candidates with
  | [] => slide
  | _ =>
      let els :=
        fold_left (fun els r => alter clearTextType (r_at r) els)
          candidates (s_elements slide) in
      let scored := scoredOf slide in
      let titleEl := titleElOf scored slideType in
      let els := tagOpt "title" titleEl els in
      let rest := restOf scored titleEl in
      withElements slide
        match slideType with
        | cover | transition => tagCoverOrTransition slideType rest els
        | contents => tagContents rest els
        | content => tagContent rest els
        | end_ => els
        end
  end.

(** The boxes that [autoTagSlideTextTypes] counts before it tags the
    rows of a contents slide (line 1063). *)
Definition contentsWideTextBoxes (slide : Slide) : list Scored :=
  let scored := scoredOf slide in
  wideTextBoxes (restOf scored (titleElOf scored contents)).

(** ** Placeholders (lines 675-981) *)

(** Identifiers come from [nanoid]; the supply hands out a new one at
    each call. *)
Definition Gen (A : Type) : Type := nat -> A * nat.

Definition nanoid : Gen nat := fun n => (n, S n).

Definition gret {A} (a : A) : Gen A := fun n => (a, n).

Definition gbind {A B} (m : Gen A) (k : A -> Gen B) : Gen B :=
  fun n => let '(a, n') := m n in k a n'.

Notation "x <- m ;; k" := (gbind m (fun x => k))
  (at level 100, m at level 99, right associativity, only parsing).

(** A [for] loop over [l] that threads the slide. *)
Fixpoint forEach {A S} (l : list A) (body : A -> S -> Gen S) (s : S) : Gen S :=
  match l with
  | [] => gret s
  | a :: r => s' <- body a s ;; forEach r body s'
  end.

(** [/^rgb\(\s*(\d+)\s*,\s*(\d+)\s*,\s*(\d+)\s*\)$/] *)
Definition rgbNumber (s : Js.jsstring) : option (Z * Js.jsstring) :=
  let '(_, r1) := Js.span Js.isSpace s in
  let '(ds, r2) := Js.span Js.isDigit r1 in
  match ds with
  | [] => None
  | _ => Some (Js.digitsValue ds, snd (Js.span Js.isSpace r2))
  end.

Definition matchRgb (c : Js.jsstring) : option (Z * Z * Z) :=
  if Js.startsWith (Js.js "rgb(") c then
    '(r, s1) ← rgbNumber (drop 4 c);
    match s1 with
    | 44%N :: s1' =>
        '(g, s2) ← rgbNumber s1';
        match s2 with
        | 44%N :: s2' =>
            '(b, s3) ← rgbNumber s2';
            match s3 with
            | [41%N] => Some (r, g, b)
            | _ => None
            end
        | _ => None
        end
    | _ => None
    end
  else None.

Definition normalizePlaceholderFontColor (color : Js.jsstring) : Js.jsstring :=
  let c := Js.toLowerCase (Js.trim color) in
  match c with
  | [] => Js.js "#333333"
  | _ =>
      if Js.eqb c (Js.js "#fff") || Js.eqb c (Js.js "#ffffff")
         || Js.eqb c (Js.js "white")
      then Js.js "#333333"
      else
        match matchRgb c with
        | Some (r, g, b) =>
            if ((245 <=? r) && (245 <=? g) && (245 <=? b))%Z
            then Js.js "#333333" else color
        | None => color
        end
  end.

Inductive Align := alignLeft | alignCenter | alignRight.

Definition alignName (a : Align) : Js.jsstring :=
  match a with
  | alignLeft => Js.js "left"
  | alignCenter => Js.js "center"
  | alignRight => Js.js "right"
  end.

(** A whole number in a template literal. *)
Definition numeral (n : N) : Js.jsstring :=
  Js.js (NilEmpty.string_of_uint (N.to_uint n)).

Definition quote : Js.jsstring := [34%N].

Definition makeEmptyContentHtml (fontSize : N) (align : Align) : Js.jsstring :=
  let color := normalizePlaceholderFontColor fontColor in
  Js.js "<p style=" ++ quote ++ Js.js "font-size: " ++ numeral fontSize
  ++ Js.js "px; font-family: " ++ fontName ++ Js.js "; color: " ++ color
  ++ Js.js "; text-align: " ++ alignName align ++ Js.js ";" ++ quote
  ++ Js.js ">&nbsp;</p>".

Record TextBoxConfig := {
  cfg_left : Q;
  cfg_top : Q;
  cfg_width : Q;
  cfg_height : Q;
  cfg_fontSize : N;
  cfg_align : option Align;
  cfg_textType : string;
  cfg_groupId : option nat;
}.

(** The object literal of [addTextBox] (lines 738-752). *)
Definition boxOf (config : TextBoxConfig) (id : nat) : PPTElement :=
  {| e_type := text;
     e_id := id;
     e_left := cfg_left config;
     e_top := cfg_top config;
     e_width := cfg_width config;
     e_height := cfg_height config;
     e_rotate := 0;
     e_defaultFontName := fontName;
     e_defaultColor := fontColor;
     e_content :=
       makeEmptyContentHtml (cfg_fontSize config)
         (default alignLeft (cfg_align config));
     e_lineHeight := 1.2;
     e_textType := Some (cfg_textType config);
     e_groupId := cfg_groupId config;
     e_text := None |}.

Definition addTextBox (slide : Slide) (config : TextBoxConfig) : Gen Slide :=
  id <- nanoid ;;
  gret (withElements slide (s_elements slide ++ [boxOf config id])).

(** [if (!hasTextType(slide, t)) addTextBox(slide, config)] *)
Definition addUnlessTagged (slide : Slide) (config : TextBoxConfig) : Gen Slide :=
  if hasTextType slide (cfg_textType config) then gret slide
  else addTextBox slide config.

Definition addUnless (b : bool) (slide : Slide) (config : TextBoxConfig)
    : Gen Slide :=
  if b then gret slide else addTextBox slide config.

Definition ofNat (i : nat) : Q := inject_Z (Z.of_nat i).

Definition ensurePlaceholders (slide : Slide) (slideType : SlideType) : Gen Slide :=
  let marginX := max 40 (viewportSize * 0.06) in
  let marginTop := max 30 (slideHeight * 0.06) in
  let innerWidth := viewportSize - marginX * 2 in
  match slideType with
  | cover =>
      slide <- addUnlessTagged slide
        {| cfg_left := marginX; cfg_top := marginTop; cfg_width := innerWidth;
           cfg_height := slideHeight * 0.18; cfg_fontSize := 40;
           cfg_align := Some alignCenter; cfg_textType := "title";
           cfg_groupId := None |} ;;
      addUnlessTagged slide
        {| cfg_left := marginX; cfg_top := marginTop + slideHeight * 0.2;
           cfg_width := innerWidth; cfg_height := slideHeight * 0.22;
           cfg_fontSize := 20; cfg_align := Some alignCenter;
           cfg_textType := "content"; cfg_groupId := None |}
  | transition =>
      slide <- addUnlessTagged slide
        {| cfg_left := marginX; cfg_top := slideHeight * 0.28;
           cfg_width := innerWidth; cfg_height := slideHeight * 0.16;
           cfg_fontSize := 36; cfg_align := Some alignCenter;
           cfg_textType := "title"; cfg_groupId := None |} ;;
      slide <- addUnlessTagged slide
        {| cfg_left := marginX; cfg_top := slideHeight * 0.46;
           cfg_width := innerWidth; cfg_height := slideHeight * 0.18;
           cfg_fontSize := 18; cfg_align := Some alignCenter;
           cfg_textType := "content"; cfg_groupId := None |} ;;
      addUnlessTagged slide
        {| cfg_left := viewportSize - marginX - 120; cfg_top := marginTop;
           cfg_width := 120; cfg_height := 60; cfg_fontSize := 24;
           cfg_align := Some alignRight; cfg_textType := "partNumber";
           cfg_groupId := None |}
  | end_ =>
      addUnlessTagged slide
        {| cfg_left := marginX; cfg_top := slideHeight * 0.38;
           cfg_width := innerWidth; cfg_height := slideHeight * 0.18;
           cfg_fontSize := 40; cfg_align := Some alignCenter;
           cfg_textType := "title"; cfg_groupId := None |}
  | contents =>
      let need := 10%nat in
      let startY := slideHeight * 0.22 in
      let rowH := max 28 (slideHeight * 0.055) in
      let numberW := 60 in
      let textW := innerWidth - numberW in
      let hasAnyItem := hasTextType slide "item" in
      let hasAnyNumber := hasTextType slide "itemNumber" in
      slide <-
        (if negb hasAnyItem || negb hasAnyNumber then
           forEach (seq 0 need)
             (fun i slide =>
                gid <- nanoid ;;
                slide <- addUnless hasAnyNumber slide
                  {| cfg_left := marginX; cfg_top := startY + ofNat i * rowH;
                     cfg_width := numberW; cfg_height := rowH;
                     cfg_fontSize := 18; cfg_align := Some alignRight;
                     cfg_textType := "itemNumber"; cfg_groupId := Some gid |} ;;
                addUnless hasAnyItem slide
                  {| cfg_left := marginX + numberW;
                     cfg_top := startY + ofNat i * rowH;
                     cfg_width := textW; cfg_height := rowH;
                     cfg_fontSize := 18; cfg_align := Some alignLeft;
                     cfg_textType := "item"; cfg_groupId := Some gid |})
             slide
         else gret slide) ;;
      addUnlessTagged slide
        {| cfg_left := marginX; cfg_top := marginTop; cfg_width := innerWidth;
           cfg_height := slideHeight * 0.14; cfg_fontSize := 32;
           cfg_align := Some alignCenter; cfg_textType := "title";
           cfg_groupId := None |}
  | content =>
      slide <- addUnlessTagged slide
        {| cfg_left := marginX; cfg_top := marginTop; cfg_width := innerWidth;
           cfg_height := slideHeight * 0.12; cfg_fontSize := 28;
           cfg_align := Some alignLeft; cfg_textType := "title";
           cfg_groupId := None |} ;;
      slide <- addUnlessTagged slide
        {| cfg_left := marginX; cfg_top := slideHeight * 0.22;
           cfg_width := innerWidth; cfg_height := slideHeight * 0.60;
           cfg_fontSize := 18; cfg_align := Some alignLeft;
           cfg_textType := "content"; cfg_groupId := None |} ;;
      let need := 4%nat in
      let startY := slideHeight * 0.22 in
      let blockH := slideHeight * 0.15 in
      let numberW := 46 in
      let titleH := max 26 (blockH * 0.38) in
      let textH := max 34 (blockH * 0.62) in
      let hasAnyItem := hasTextType slide "item" in
      let hasAnyItemTitle := hasTextType slide "itemTitle" in
      let hasAnyNumber := hasTextType slide "itemNumber" in
      if negb hasAnyItem || negb hasAnyItemTitle || negb hasAnyNumber then
        forEach (seq 0 need)
          (fun i slide =>
             gid <- nanoid ;;
             let baseY := startY + ofNat i * blockH in
             slide <- addUnless hasAnyNumber slide
               {| cfg_left := marginX; cfg_top := baseY; cfg_width := numberW;
                  cfg_height := titleH; cfg_fontSize := 18;
                  cfg_align := Some alignRight; cfg_textType := "itemNumber";
                  cfg_groupId := Some gid |} ;;
             slide <- addUnless hasAnyItemTitle slide
               {| cfg_left := marginX + numberW + 10; cfg_top := baseY;
                  cfg_width := innerWidth - numberW - 10; cfg_height := titleH;
                  cfg_fontSize := 18; cfg_align := Some alignLeft;
                  cfg_textType := "itemTitle"; cfg_groupId := Some gid |} ;;
             addUnless hasAnyItem slide
               {| cfg_left := marginX + numberW + 10; cfg_top := baseY + titleH;
                  cfg_width := innerWidth - numberW - 10; cfg_height := textH;
                  cfg_fontSize := 16; cfg_align := Some alignLeft;
                  cfg_textType := "item"; cfg_groupId := Some gid |})
          slide
      else gret slide
  end.

(** ** Template slides (lines 1260-1271) *)

(** [JSON.parse(JSON.stringify(source))]: a new object with the same
    content. *)
Definition cloneSlide (source : Slide) : Slide := source.

(** What [toTemplateSlide] makes of the content of [source]. *)
Definition templateOf (source : Slide) (slideType : SlideType) : Gen Slide :=
  let s := cloneSlide source in
  let s := withType s slideType in
  let s := autoTagSlideTextTypes s slideType in
  ensurePlaceholders s slideType.

(** ** Role assignment (lines 1273-1310) *)

(** [slides.length ? slides : [{ id: nanoid(10), elements: [] }]] *)
Definition sourceSlidesOf (slides : list Slide) : Gen (list Slide) :=
  match slides with
  | [] =>
      id <- nanoid ;;
      gret [ {| s_id := id; s_elements := []; s_background := None;
                s_remark := None; s_type := None |} ]
  | _ => gret slides
  end.

(** [sc > bestScore], where [bestScore] starts as minus infinity. *)
Definition beats (sc : Z) (bestScore : option Z) : bool :=
  match bestScore with
  | None => true
  | Some b => (b <? sc)%Z
  end.

Definition reaches (bestScore : option Z) (threshold : Z) : bool :=
  match bestScore with
  | None => false
  | Some b => (threshold <=? b)%Z
  end.

Definition indexed (sourceSlides : list Slide) : list (Z * Slide) :=
  imap (fun i s => (Z.of_nat i, s)) sourceSlides.

(** The first loop of [pickBestIndex] (lines 1277-1286). *)
Definition bestOf (sourceSlides : list Slide) (type : SlideType) (used : gset Z)
    : Z * option Z :=
  fold_left
    (fun '(bestIdx, bestScore) '(i, slide) =>
       if bool_decide (i ∈ used) then (bestIdx, bestScore)
       else
         let sc := scoreSlideAs slide type in
         if beats sc bestScore then (i, Some sc) else (bestIdx, bestScore))
    (indexed sourceSlides) ((-1)%Z, None).

(** The second loop (lines 1297-1302): the first index not in [used]. *)
Definition firstUnused (sourceSlides : list Slide) (used : gset Z) : option Z :=
  head (List.filter (fun i => negb (bool_decide (i ∈ used)))
          (map fst (indexed sourceSlides))).

(** [pickBestIndex]; the set [used] of the closure is passed in and
    handed back. *)
Definition pickBestIndex (sourceSlides : list Slide) (type : SlideType)
    (fallbackIndex threshold : Z) (used : gset Z) : Z * gset Z :=
  let '(bestIdx, bestScore) := bestOf sourceSlides type used in
  if negb (bestIdx =? -1)%Z && reaches bestScore threshold then
    (bestIdx, {[ bestIdx ]} ∪ used)
  else
    let fb :=
      Z.min (Z.max 0 fallbackIndex) (Z.of_nat (length sourceSlides) - 1) in
    if negb (bool_decide (fb ∈ used)) then (fb, {[ fb ]} ∪ used)
    else
      match firstUnused sourceSlides used with
      | Some i => (i, {[ i ]} ∪ used)
      | None => (fb, used)
      end.

Record Assignment := {
  endIndex : Z;
  coverIndex : Z;
  contentsIndex : Z;
  transitionIndex : Z;
}.

(** Lines 1307-1310. *)
Definition assignRoles (sourceSlides : list Slide) : Assignment :=
  let n := Z.of_nat (length sourceSlides) in
  let used : gset Z := ∅ in
  let '(endIndex, used) := pickBestIndex sourceSlides end_ (n - 1) 80 used in
  let '(coverIndex, used) := pickBestIndex sourceSlides cover 0 60 used in
  let '(contentsIndex, used) := pickBestIndex sourceSlides contents 1 60 used in
  let '(transitionIndex, used) := pickBestIndex sourceSlides transition 2 50 used in
  {| endIndex := endIndex; coverIndex := coverIndex;
     contentsIndex := contentsIndex; transitionIndex := transitionIndex |}.

(** ** Assembly (lines 1312-1330) *)

(** The slide objects live in a store, the source slides first; a
    template slide is a new object behind them.  Reading an index that
    does not exist throws. *)
Record State := {
  heap : list Slide;
  supply : nat;
}.

Definition M (A : Type) : Type := State -> option (A * State).

Definition ret {A} (a : A) : M A := fun st => Some (a, st).

Definition bind {A B} (m : M A) (k : A -> M B) : M B :=
  fun st =>
    match m st with
    | Some (a, st') => k a st'
    | None => None
    end.

(** [sourceSlides[i]] *)
Definition read (i : Z) : M Slide :=
  fun st =>
    if (i <? 0)%Z then None
    else match heap st !! Z.to_nat i with
         | Some s => Some (s, st)
         | None => None
         end.

Definition alloc (s : Slide) : M nat :=
  fun st =>
    Some (length (heap st),
          {| heap := heap st ++ [s]; supply := supply st |}).

(** A procedure that writes to the object at [l]. *)
Definition update (l : nat) (f : Slide -> Gen Slide) : M unit :=
  fun st =>
    match heap st !! l with
    | Some s =>
        let '(s', n') := f s (supply st) in
        Some (tt, {| heap := <[l := s']> (heap st); supply := n' |})
    | None => None
    end.

Definition toTemplateSlide (source : Z) (slideType : SlideType) : M nat :=
  bind (read source) (fun src =>
  bind (alloc (cloneSlide src)) (fun s =>
  bind (update s (fun o => gret (withType o slideType))) (fun _ =>
  bind (update s (fun o => gret (autoTagSlideTextTypes o slideType))) (fun _ =>
  bind (update s (fun o => ensurePlaceholders o slideType)) (fun _ =>
  ret s))))).

Fixpoint mapM {A B} (f : A -> M B) (l : list A) : M (list B) :=
  match l with
  | [] => ret []
  | a :: r => bind (f a) (fun b => bind (mapM f r) (fun bs => ret (b :: bs)))
  end.

(** The indices of the slides that no single role has claimed. *)
Definition unclaimed (sourceSlides : list Slide) (a : Assignment) : list Z :=
  List.filter
    (fun i =>
       negb (existsb (Z.eqb i)
               [coverIndex a; contentsIndex a; transitionIndex a; endIndex a]))
    (map fst (indexed sourceSlides)).

Definition contentSourcesOf (sourceSlides : list Slide) (a : Assignment) : list Z :=
  match unclaimed sourceSlides a with
  | [] => [coverIndex a]
  | l => l
  end.

(** From line 1273 to the end of [parsePPTXTemplate]: the references of
    the template slides, in the order of the deck. *)
Definition assemble (sourceSlides : list Slide) : M (list nat) :=
  let a := assignRoles sourceSlides in
  bind (toTemplateSlide (coverIndex a) cover) (fun coverSlide =>
  bind (toTemplateSlide (contentsIndex a) contents) (fun contentsSlide =>
  bind (toTemplateSlide (transitionIndex a) transition) (fun transitionSlide =>
  bind (toTemplateSlide (endIndex a) end_) (fun endSlide =>
  bind (mapM (fun s => toTemplateSlide s content)
          (contentSourcesOf sourceSlides a)) (fun contentSlides =>
  ret ([coverSlide; contentsSlide; transitionSlide] ++ contentSlides
       ++ [endSlide])))))).

Record Template := {
  t_slides : list Slide;
  t_heap : list Slide;
  t_supply : nat;
}.

(** The template deck made of the converted [slides], with the store as
    the run leaves it. *)
Definition templateSlides (slides : list Slide) (supply0 : nat) : option Template :=
  let '(sourceSlides, n) := sourceSlidesOf slides supply0 in
  match assemble sourceSlides {| heap := sourceSlides; supply := n |} with
  | Some (refs, st) =>
      Some {| t_slides := omap (fun r => heap st !! r) refs;
              t_heap := heap st;
              t_supply := supply st |}
  | None => None
  end.

End Editor.

End Template.

(* ================================================================== *)
(** * The entry points (lines 54-75, 1538-1556) *)
(* ================================================================== *)

Module Entry.

(** How a call ends: it returns, or it throws (for the asynchronous
    [parsePPTXTemplate], its promise is rejected) with a message. *)
Inductive Outcome (A : Type) :=
  | Returned (a : A)
  | Thrown (message : Js.jsstring).

Arguments Returned {A} a.
Arguments Thrown {A} message.

Section Hook.

(** A file, the document that the parser reads from it, and the store of
    the editor. *)
Context {File Document Store : Type}.

(** [parse(buffer)], which fails on a file it cannot read. *)
Variable parse : File -> option Document.

(** The conversion of the parsed slides (lines 77-597). *)
Variable convert : Document -> list Template.Slide.

Variable viewportSize : Q.
Variable viewportRatio : Q.
Variable fontName : Js.jsstring.
Variable fontColor : Js.jsstring.

(** What the hook can change: the [exporting] flag, the store, and the
    files it has handed to a [FileReader]. *)
Record Editor := {
  exporting : bool;
  store : Store;
  reading : list File;
  supply : nat;
}.

(** [parsePPTXTemplate] writes nothing to the editor. *)
Definition parsePPTXTemplate (files : list File) (ed : Editor)
    : Outcome (list Template.Slide) * Editor :=
  match files with
  | [] => (Thrown (Js.js "no file"), ed)
  | file :: _ =>
      match parse file with
      | None => (Thrown (Js.js "parse failed"), ed)
      | Some json =>
          match
            Template.templateSlides viewportSize viewportRatio fontName
              fontColor (convert json) (supply ed)
          with
          | Some t => (Returned (Template.t_slides t), ed)
          | None => (Thrown (Js.js "TypeError"), ed)
          end
      end
  end.

(** [importPPTXFile], up to the point where it hands the file to the
    reader; the rest runs when the reader calls back. *)
Definition importPPTXFile (files : list File) (ed : Editor)
    : Outcome unit * Editor :=
  match files with
  | [] => (Returned tt, ed)
  | file :: _ =>
      (Returned tt,
       {| exporting := true; store := store ed;
          reading := reading ed ++ [file]; supply := supply ed |})
  end.

End Hook.

End Entry.

(* ================================================================== *)
(** * Markup and shape conversion (lines 37-41, 306-405) *)
(* ================================================================== *)

(** Numbers are reals, as in the modules above.  The conversion gets
    [originWidth] and [originHeight] from the loop of [parseElements]:
    they are [el.width || 1] and [el.height || 1] before the scaling,
    hence never zero. *)
Module Convert.

Local Open Scope R_scope.

(** [s.replace(re, f)] for a [g] regular expression and a function [f]
    of the match. *)
Fixpoint replaceAllWith {A} (m : Js.Matcher A) (rep : A -> Js.jsstring)
    (skip : nat) (s : Js.jsstring) : Js.jsstring :=
  match s with
  | [] => []
  | c :: r =>
      match skip with
      | S k => replaceAllWith m rep k r
      | O =>
          match m s with
          | Some (S k, a) => rep a ++ replaceAllWith m rep k r
          | _ => c :: replaceAllWith m rep 0 r
          end
      end
  end.

(** The class [[\d.]]. *)
Definition isDigitOrDot (c : N) : bool := Js.isDigit c || (c =? 46)%N.

(** [/font-size:\s*([\d.]+)pt/g]; the match stands for the text captured
    by its group. *)
Definition reFontSizePt : Js.Matcher Js.jsstring := fun s =>
  if Js.startsWith (Js.js "font-size:") s then
    let r0 := drop 10 s in
    let '(w, r1) := Js.span Js.isSpace r0 in
    let '(p1, r2) := Js.span isDigitOrDot r1 in
    match p1 with
    | [] => None
    | _ =>
        if Js.startsWith (Js.js "pt") r2
        then Some ((10 + length w + length p1 + 2)%nat, p1)
        else None
    end
  else None.

(** [/NaN/g] *)
Definition reNaN : Js.Matcher unit := fun s =>
  if Js.startsWith (Js.js "NaN") s then Some (3%nat, tt) else None.

Record SourceStop := {
  stop_pos : Js.jsstring;
  stop_color : Js.jsstring;
}.

Record Stop := {
  pos : R;
  color : Js.jsstring;
}.

(** [el.fill]: a colour, a gradient, a picture, or anything else (a
    pattern, no fill at all). *)
Inductive Fill :=
  | colorFill (value : Js.jsstring)
  | gradientFill (path : Js.jsstring) (colors : list SourceStop) (rot : R)
  | imageFill (picBase64 : Js.jsstring)
  | otherFill.

Record Gradient := {
  g_type : Js.jsstring;
  g_colors : list Stop;
  g_rotate : R;
}.

Record Shadow := {
  sh_h : R;
  sh_v : R;
  sh_blur : R;
  sh_color : Js.jsstring;
}.

(** A parsed shape that is no line; its width, height, left and top
    have been scaled by the loop. *)
Record SourceShape := {
  width : R;
  height : R;
  left : R;
  top : R;
  rotate : R;
  borderColor : Js.jsstring;
  borderWidth : R;
  borderType : Js.jsstring;
  content : Js.jsstring;
  vAlign : Js.jsstring;
  isFlipH : bool;
  isFlipV : bool;
  shadow : option Shadow;
  shapType : Js.jsstring;
  path : option Js.jsstring;
  fill : Fill;
}.

Record Outline := {
  o_color : Js.jsstring;
  o_width : R;
  o_style : Js.jsstring;
}.

Record ShapeText := {
  t_content : Js.jsstring;
  t_defaultFontName : Js.jsstring;
  t_defaultColor : Js.jsstring;
  t_align : Js.jsstring;
}.

Record PPTShapeElement := {
  e_id : nat;
  e_width : R;
  e_height : R;
  e_left : R;
  e_top : R;
  e_viewBox : R * R;
  e_path : Js.jsstring;
  e_fill : Js.jsstring;
  e_gradient : option Gradient;
  e_pattern : option Js.jsstring;
  e_fixedRatio : bool;
  e_rotate : R;
  e_outline : Outline;
  e_text : ShapeText;
  e_flipH : bool;
  e_flipV : bool;
  e_shadow : option Shadow;
  e_pathFormula : option Js.jsstring;
  e_keypoints : option (list R);
  e_special : bool;
}.

(** The assignments to the fields of [element]. *)
Definition withPath (e : PPTShapeElement) (p : Js.jsstring) : PPTShapeElement :=
  {| e_id := e_id e; e_width := e_width e; e_height := e_height e;
     e_left := e_left e; e_top := e_top e; e_viewBox := e_viewBox e;
     e_path := p; e_fill := e_fill e; e_gradient := e_gradient e;
     e_pattern := e_pattern e; e_fixedRatio := e_fixedRatio e;
     e_rotate := e_rotate e; e_outline := e_outline e; e_text := e_text e;
     e_flipH := e_flipH e; e_flipV := e_flipV e; e_shadow := e_shadow e;
     e_pathFormula := e_pathFormula e; e_keypoints := e_keypoints e;
     e_special := e_special e |}.

Definition withViewBox (e : PPTShapeElement) (b : R * R) : PPTShapeElement :=
  {| e_id := e_id e; e_width := e_width e; e_height := e_height e;
     e_left := e_left e; e_top := e_top e; e_viewBox := b;
     e_path := e_path e; e_fill := e_fill e; e_gradient := e_gradient e;
     e_pattern := e_pattern e; e_fixedRatio := e_fixedRatio e;
     e_rotate := e_rotate e; e_outline := e_outline e; e_text := e_text e;
     e_flipH := e_flipH e; e_flipV := e_flipV e; e_shadow := e_shadow e;
     e_pathFormula := e_pathFormula e; e_keypoints := e_keypoints e;
     e_special := e_special e |}.

Definition withPathFormula (e : PPTShapeElement) (name : Js.jsstring)
    : PPTShapeElement :=
  {| e_id := e_id e; e_width := e_width e; e_height := e_height e;
     e_left := e_left e; e_top := e_top e; e_viewBox := e_viewBox e;
     e_path := e_path e; e_fill := e_fill e; e_gradient := e_gradient e;
     e_pattern := e_pattern e; e_fixedRatio := e_fixedRatio e;
     e_rotate := e_rotate e; e_outline := e_outline e; e_text := e_text e;
     e_flipH := e_flipH e; e_flipV := e_flipV e; e_shadow := e_shadow e;
     e_pathFormula := Some name; e_keypoints := e_keypoints e;
     e_special := e_special e |}.

Definition withKeypoints (e : PPTShapeElement) (k : list R) : PPTShapeElement :=
  {| e_id := e_id e; e_width := e_width e; e_height := e_height e;
     e_left := e_left e; e_top := e_top e; e_viewBox := e_viewBox e;
     e_path := e_path e; e_fill := e_fill e; e_gradient := e_gradient e;
     e_pattern := e_pattern e; e_fixedRatio := e_fixedRatio e;
     e_rotate := e_rotate e; e_outline := e_outline e; e_text := e_text e;
     e_flipH := e_flipH e; e_flipV := e_flipV e; e_shadow := e_shadow e;
     e_pathFormula := e_pathFormula e; e_keypoints := Some k;
     e_special := e_special e |}.

Definition withSize (e : PPTShapeElement) (w h : R) : PPTShapeElement :=
  {| e_id := e_id e; e_width := w; e_height := h;
     e_left := e_left e; e_top := e_top e; e_viewBox := e_viewBox e;
     e_path := e_path e; e_fill := e_fill e; e_gradient := e_gradient e;
     e_pattern := e_pattern e; e_fixedRatio := e_fixedRatio e;
     e_rotate := e_rotate e; e_outline := e_outline e; e_text := e_text e;
     e_flipH := e_flipH e; e_flipV := e_flipV e; e_shadow := e_shadow e;
     e_pathFormula := e_pathFormula e; e_keypoints := e_keypoints e;
     e_special := e_special e |}.

Definition withSpecial (e : PPTShapeElement) : PPTShapeElement :=
  {| e_id := e_id e; e_width := e_width e; e_height := e_height e;
     e_left := e_left e; e_top := e_top e; e_viewBox := e_viewBox e;
     e_path := e_path e; e_fill := e_fill e; e_gradient := e_gradient e;
     e_pattern := e_pattern e; e_fixedRatio := e_fixedRatio e;
     e_rotate := e_rotate e; e_outline := e_outline e; e_text := e_text e;
     e_flipH := e_flipH e; e_flipV := e_flipV e; e_shadow := e_shadow e;
     e_pathFormula := e_pathFormula e; e_keypoints := e_keypoints e;
     e_special := true |}.

(** An entry of the shape list of the editor. *)
Record ShapePoolItem := {
  pptxShapeType : option Js.jsstring;
  sp_path : Js.jsstring;
  sp_viewBox : R * R;
  sp_pathFormula : option Js.jsstring;
}.

(** An entry of [SHAPE_PATH_FORMULAS]: a formula with key points and
    their default values, or a formula of the size alone. *)
Inductive PathFormula :=
  | editableFormula (defaultValue : list R)
      (formula : R -> R -> list R -> Js.jsstring)
  | plainFormula (formula : R -> R -> Js.jsstring).

(** How the conversion of a shape ends: with a [TypeError], without an
    element, or with the element that goes to the slide. *)
Inductive Result :=
  | threw
  | skipped
  | pushed (element : PPTShapeElement).

(** [shapeVAlignMap[v] || 'middle'] *)
Definition shapeVAlign (v : Js.jsstring) : Js.jsstring :=
  if Js.eqb v (Js.js "mid") then Js.js "middle"
  else if Js.eqb v (Js.js "down") then Js.js "bottom"
  else if Js.eqb v (Js.js "up") then Js.js "top"
  else Js.js "middle".

(** [a / b > c]; a division by zero gives an infinity, or NaN for
    [0 / 0], and neither the negative infinity nor NaN is greater than a
    number. *)
Definition quotientExceeds (a b c : R) : bool :=
  if Req_dec_T b 0 then (if Rlt_dec 0 a then true else false)
  else if Rlt_dec c (a / b) then true else false.

Definition scaleShadow (ratio : R) (s : Shadow) : Shadow :=
  {| sh_h := sh_h s * ratio; sh_v := sh_v s * ratio;
     sh_blur := sh_blur s * ratio; sh_color := sh_color s |}.

Section Browser.

(** [parseFloat], [parseInt] and the printing of a number with one
    decimal. *)
Variable parseFloat : Js.jsstring -> R.
Variable parseInt : Js.jsstring -> R.
Variable toFixed1 : R -> Js.jsstring.

(** The shape list, the path formulas and [getSvgPathRange], of which
    the conversion reads [maxX] and [maxY]. *)
Variable shapeList : list ShapePoolItem.
Variable SHAPE_PATH_FORMULAS : Js.jsstring -> option PathFormula.
Variable getSvgPathRange : Js.jsstring -> R * R.

Variable defaultFontName : Js.jsstring.
Variable defaultFontColor : Js.jsstring.

Definition convertFontSizePtToPx (html : Js.jsstring) (ratio : R) : Js.jsstring :=
  replaceAllWith reFontSizePt
    (fun p1 =>
       Js.js "font-size: " ++ toFixed1 (parseFloat p1 * ratio) ++ Js.js "px")
    0 html.

(** The view box of a path in a box of the given size (lines 376-384 and
    395-401). *)
Definition fitViewBox (p : Js.jsstring) (originWidth originHeight : R) : R * R :=
  let '(maxX, maxY) := getSvgPathRange p in
  if quotientExceeds maxX maxY (originWidth / originHeight)
  then (maxX, maxX * originHeight / originWidth)
  else (maxY * originWidth / originHeight, maxY).

(** The object literal of the element and its shadow (lines 309-357);
    [id] is the identifier drawn from [nanoid]. *)
Definition shapeLiteral (id : nat) (el : SourceShape) (ratio : R)
    : PPTShapeElement :=
  let gradient :=
    match fill el with
    | gradientFill path colors rot =>
        Some {| g_type :=
                  if Js.eqb path (Js.js "line") then Js.js "linear"
                  else Js.js "radial";
                g_colors :=
                  map (fun item =>
                         {| pos := parseInt (stop_pos item);
                            color := stop_color item |})
                    colors;
                g_rotate := rot |}
    | _ => None
    end in
  let pattern :=
    match fill el with
    | imageFill picBase64 => Some picBase64
    | _ => None
    end in
  let fill_ :=
    match fill el with
    | colorFill value => value
    | _ => []
    end in
  {| e_id := id;
     e_width := width el;
     e_height := height el;
     e_left := left el;
     e_top := top el;
     e_viewBox := (200, 200);
     e_path := Js.js "M 0 0 L 200 0 L 200 200 L 0 200 Z";
     e_fill := fill_;
     e_gradient := gradient;
     e_pattern := pattern;
     e_fixedRatio := false;
     e_rotate := rotate el;
     e_outline :=
       {| o_color := borderColor el;
          o_width := Line.toFixed2 (borderWidth el * ratio);
          o_style := borderType el |};
     e_text :=
       {| t_content := convertFontSizePtToPx (content el) ratio;
          t_defaultFontName := defaultFontName;
          t_defaultColor := defaultFontColor;
          t_align := shapeVAlign (vAlign el) |};
     e_flipH := isFlipH el;
     e_flipV := isFlipV el;
     e_shadow := scaleShadow ratio <$> shadow el;
     e_pathFormula := None;
     e_keypoints := None;
     e_special := false |}.

(** Path and view box of a shape of the list, or of the path that the
    parser gives (lines 359-384).  A formula that the table of formulas
    lacks ends the conversion with a [TypeError]. *)
Definition shapePath (el : SourceShape) (originWidth originHeight : R)
    (element : PPTShapeElement) : option PPTShapeElement :=
  let shape :=
    List.find (fun item => bool_decide (pptxShapeType item = Some (shapType el)))
      shapeList in
  match shape with
  | Some shape =>
      let element := withPath element (sp_path shape) in
      let element := withViewBox element (sp_viewBox shape) in
      match sp_pathFormula shape with
      | Some name =>
          let element := withPathFormula element name in
          let element := withViewBox element (width el, height el) in
          match SHAPE_PATH_FORMULAS name with
          | Some (editableFormula defaultValue formula) =>
              let element :=
                withPath element (formula (width el) (height el) defaultValue) in
              Some (withKeypoints element defaultValue)
          | Some (plainFormula formula) =>
              Some (withPath element (formula (width el) (height el)))
          | None => None
          end
      | None => Some element
      end
  | None =>
      match path el with
      | Some p =>
          if negb (Js.eqb p []) && negb (Js.includes p (Js.js "NaN")) then
            let box := fitViewBox p originWidth originHeight in
            let element := withPath element p in
            Some (withViewBox element box)
          else Some element
      | None => Some element
      end
  end.

(** The path of a custom shape (lines 385-402); a custom shape without
    a path ends the conversion with a [TypeError]. *)
Definition customPath (el : SourceShape) (originWidth originHeight : R)
    (element : PPTShapeElement) : option PPTShapeElement :=
  if Js.eqb (shapType el) (Js.js "custom") then
    match path el with
    | None => None
    | Some p =>
        let element :=
          if Js.includes p (Js.js "NaN") then
            let element :=
              if Req_dec_T (e_width element) 0
              then withSize element (1 / 10) (e_height element)
              else element in
            let element :=
              if Req_dec_T (e_height element) 0
              then withSize element (e_width element) (1 / 10)
              else element in
            withPath element (Js.replaceAll reNaN (Js.js "0") 0 p)
          else withPath (withSpecial element) p in
        Some (withViewBox element
                (fitViewBox (e_path element) originWidth originHeight))
    end
  else Some element.

(** The conversion of a shape that is no line (lines 307-404). *)
Definition parseShape (id : nat) (el : SourceShape)
    (originWidth originHeight ratio : R) : Result :=
  match shapePath el originWidth originHeight (shapeLiteral id el ratio) with
  | None => threw
  | Some element =>
      match customPath el originWidth originHeight element with
      | None => threw
      | Some element =>
          if negb (Js.eqb (e_path element) []) then pushed element else skipped
      end
  end.

End Browser.

End Convert.

(* ================================================================== *)
(** * Statements of the specification and sample inputs *)
(* ================================================================== *)

Section LineSamples.

Local Open Scope R_scope.

(** The endpoint table of the specification, written from its words:
    no flip, both flips, vertical flip only, horizontal flip only. *)
Definition claimedEndpoints (flipH flipV : bool) (w h : R) : Line.Point * Line.Point :=
  match flipH, flipV with
  | false, false => ((0, 0), (w, h))
  | true, true => ((w, h), (0, 0))
  | false, true => ((0, h), (w, 0))
  | true, false => ((w, 0), (0, h))
  end.

Definition lineOf (s e : Line.Point) : Line.PPTLineElement :=
  {| Line.l_id := 0; Line.l_width := 1; Line.l_left := 0; Line.l_top := 0;
     Line.l_start := s; Line.l_end := e;
     Line.l_style := Js.js "solid"; Line.l_color := Js.js "#000";
     Line.l_points := ([], []);
     Line.l_broken2 := None; Line.l_cubic := None |}.

Definition plainLine (w h rot : R) (fh fv : bool) : Line.Shape :=
  {| Line.width := w; Line.height := h; Line.left := 0; Line.top := 0;
     Line.rotate := rot; Line.isFlipH := fh; Line.isFlipV := fv;
     Line.borderWidth := 1; Line.borderType := Js.js "solid";
     Line.borderColor := Js.js "#000"; Line.shapType := Js.js "line" |}.

End LineSamples.

Section TableSamples.

Local Open Scope R_scope.

(** A browser that finds no markup at all. *)
Definition noDom (text : Js.jsstring) : Table.CellDom :=
  {| Table.d_textAlign := []; Table.d_fontSize := []; Table.d_fontFamily := [];
     Table.d_color := []; Table.d_innerText := text |}.

Definition noBorders : Table.Borders :=
  {| Table.b_top := None; Table.b_bottom := None;
     Table.b_left := None; Table.b_right := None |}.

Definition cellOf (colSpan rowSpan : option R) : Table.SourceCell :=
  {| Table.c_text := Js.js "a"; Table.c_colSpan := colSpan;
     Table.c_rowSpan := rowSpan; Table.c_fontColor := Js.js "#000";
     Table.c_fontBold := false; Table.c_fillColor := [];
     Table.c_borders := noBorders |}.

Definition tableOf (data : list (list Table.SourceCell)) (colWidths : list R)
    : Table.SourceTable :=
  {| Table.t_width := 400; Table.t_height := 100; Table.t_left := 0;
     Table.t_top := 0; Table.t_data := data; Table.t_colWidths := colWidths;
     Table.t_rowHeights := [50]; Table.t_borders := noBorders |}.

Definition sampleParseTable (el : Table.SourceTable) : Table.Step Table.PPTTableElement :=
  Table.parseTable noDom (fun _ => 0) (fun _ => []) 1 el.

(** The output cell that stands at row [i], column [j]. *)
Definition cellAt {A} (data : list (list A)) (i j : nat) : option A :=
  data !! i ≫= (fun row => row !! j).

(** The table property as the specification words it: the fractions add
    up to one, and each output cell carries the spans of its source cell. *)
Definition tableClaim (el : Table.SourceTable) (out : Table.PPTTableElement) : Prop :=
  Table.sumWidths (Table.e_colWidths out) = 1 /\
  forall i j cell ocell,
    cellAt (Table.t_data el) i j = Some cell ->
    cellAt (Table.e_data out) i j = Some ocell ->
    Some (Table.tc_colspan ocell) = Table.c_colSpan cell /\
    Some (Table.tc_rowspan ocell) = Table.c_rowSpan cell.

End TableSamples.

Section TemplateSamples.

Local Open Scope Q_scope.

(** A text box as the text translator emits it. *)
Definition textBox (id : nat) (left top width height : Q) (html : Js.jsstring)
    : Template.PPTElement :=
  {| Template.e_type := Template.text; Template.e_id := id;
     Template.e_left := left; Template.e_top := top;
     Template.e_width := width; Template.e_height := height;
     Template.e_rotate := 0; Template.e_defaultFontName := Js.js "Arial";
     Template.e_defaultColor := Js.js "#333"; Template.e_content := html;
     Template.e_lineHeight := 1; Template.e_textType := None;
     Template.e_groupId := None; Template.e_text := None |}.

(** A paragraph of one span with the given font size in pixels. *)
Definition para (px : N) (words : string) : Js.jsstring :=
  Js.js "<p><span style='font-size: " ++ Template.numeral px ++ Js.js "px'>"
  ++ Js.js words ++ Js.js "</span></p>".

Definition slideOf (id : nat) (els : list Template.PPTElement) : Template.Slide :=
  {| Template.s_id := id; Template.s_elements := els;
     Template.s_background := None; Template.s_remark := Some [];
     Template.s_type := None |}.

(** The slide of the specification: its only text is "Thank You" at
    font size 44. *)
Definition thankYouSlide : Template.Slide :=
  slideOf 1 [textBox 2 100 200 800 120 (para 44 "Thank You")].

End TemplateSamples.

Section EntrySamples.

(** The claim on empty input as the specification words it: the call is
    a no-op and raises no error. *)
Definition quietNoOp {A Ed} (r : Entry.Outcome A * Ed) (before : Ed) : Prop :=
  (exists a, fst r = Entry.Returned a) /\ snd r = before.

Definition idleEditor : @Entry.Editor unit unit :=
  {| Entry.exporting := false; Entry.store := tt; Entry.reading := [];
     Entry.supply := 0 |}.

End EntrySamples.

Section TemplateStatements.

(** Some element of the list carries the tag, in the sense of
    [hasTextType]. *)
Definition hasTag (els : list Template.PPTElement) (textType : string) : bool :=
  existsb (fun el => bool_decide (Template.textTypeOf el = Some textType)) els.

(** The tags that every template slide of a role must carry. *)
Definition requiredTags (slideType : Template.SlideType) : list string :=
  match slideType with
  | Template.cover => ["title"; "content"]
  | Template.transition => ["title"; "content"; "partNumber"]
  | Template.content => ["title"; "content"]
  | Template.contents => ["title"]
  | Template.end_ => ["title"]
  end%string.

(** The slide that [toTemplateSlide] hands to [ensurePlaceholders]. *)
Definition taggedSlide (viewportSize viewportRatio : Q)
    (source : Template.Slide) (slideType : Template.SlideType) : Template.Slide :=
  Template.autoTagSlideTextTypes viewportSize viewportRatio
    (Template.withType (Template.cloneSlide source) slideType) slideType.

(** Kind, tag and group of an element. *)
Definition summary (el : Template.PPTElement)
    : Template.ElementType * option string * option nat :=
  (Template.e_type el, Template.e_textType el, Template.e_groupId el).

(** The elements of a list that carry a given tag. *)
Definition tagged (textType : string) (els : list Template.PPTElement)
    : list Template.PPTElement :=
  List.filter (fun el => bool_decide (Template.textTypeOf el = Some textType)) els.

(** The record that [getSlideTextStats] makes of a text candidate. *)
Definition candidateOf (r : Template.Ref) : Template.Candidate :=
  let html := Template.getHtmlText (Template.r_obj r) in
  {| Template.c_el := r;
     Template.c_plain := Template.htmlToPlainText html;
     Template.c_font := Template.getMaxFontSizePx html;
     Template.c_w := Template.e_width (Template.r_obj r);
     Template.c_h := Template.e_height (Template.r_obj r);
     Template.c_area :=
       (Template.e_width (Template.r_obj r) * Template.e_height (Template.r_obj r))%Q |}.

(** A candidate with text is usable when it is no footer, no brand mark
    and not tiny. *)
Definition usableEl (viewportSize viewportRatio : Q) (r : Template.Ref) : bool :=
  let c := candidateOf r in
  negb (Template.isFooterLikeEl viewportSize viewportRatio (Template.r_obj r))
  && negb (Template.isBrandLikeEl viewportSize viewportRatio
             (Template.c_plain c) (Template.r_obj r))
  && negb (Template.isTooTinyEl viewportSize viewportRatio
             (Template.r_obj r) (Template.c_font c)).

(** A synthesized box: a text element that carries a tag. *)
Definition isBox (el : Template.PPTElement) : Prop :=
  Template.e_type el = Template.text /\ is_Some (Template.e_textType el).

(** The run [r] of the synthesizer on [slide] appends [app]: boxes only,
    and a box for a required tag exactly when [slide] lacks the tag. *)
Definition placed (slide : Template.Slide) (slideType : Template.SlideType)
    (r : Template.Slide * nat) (app : list Template.PPTElement) : Prop :=
  fst r = Template.withElements slide (Template.s_elements slide ++ app) /\
  Forall (fun t => hasTag app t = negb (hasTag (Template.s_elements slide) t))
    (requiredTags slideType) /\
  Forall isBox app.

(** The ten rows of a contents slide as the specification has them: an
    itemNumber and an item box per row, which share the group identifier
    drawn for the row; [n] is the state of the identifier supply. *)
Definition claimedRows (n : nat)
    : list (Template.ElementType * option string * option nat) :=
  flat_map
    (fun i =>
       [ (Template.text, Some "itemNumber", Some (n + 3 * i)%nat);
         (Template.text, Some "item", Some (n + 3 * i)%nat) ]%string)
    (seq 0 10).

(** A contents slide with a heading and two rows only. *)
Definition twoRowSlide : Template.Slide :=
  slideOf 40
    [ textBox 41 100 40 800 60 (para 32 "Agenda");
      textBox 42 150 150 700 40 (para 18 "First topic");
      textBox 43 150 220 700 40 (para 18 "Second topic") ].

(** What a loop appends when its body appends [g a n] for the item [a]
    at supply [n] and draws [d] identifiers. *)
Fixpoint rowsFrom {A} (g : A -> nat -> list Template.PPTElement) (d : nat)
    (l : list A) (n : nat) : list Template.PPTElement :=
  match l with
  | [] => []
  | a :: r => g a n ++ rowsFrom g d r (n + d)
  end.

(** ** Role assignment *)

Section Assignment.

Variable viewportSize : Q.
Variable viewportRatio : Q.
Variable sourceSlides : list Template.Slide.

(** [sourceSlides[i]] *)
Definition slideAt (i : Z) : option Template.Slide :=
  if (i <? 0)%Z then None else sourceSlides !! Z.to_nat i.

Definition scoreAt (type : Template.SlideType) (i : Z) : option Z :=
  (fun s => Template.scoreSlideAs viewportSize viewportRatio s type)
  <$> slideAt i.

(** A slide index that no role has claimed yet. *)
Definition unclaimedAt (used : gset Z) (i : Z) : Prop :=
  is_Some (slideAt i) /\ (i ∉ used).

(** [b], with score [sb], is the highest scorer among the unclaimed
    slides, and the first one of them in case of a tie. *)
Definition bestAt (type : Template.SlideType) (used : gset Z) (b sb : Z) : Prop :=
  unclaimedAt used b /\ scoreAt type b = Some sb /\
  forall j sj,
    unclaimedAt used j -> scoreAt type j = Some sj ->
    (sj <= sb)%Z /\ ((j < b)%Z -> (sj < sb)%Z).

Definition firstUnclaimedAt (used : gset Z) (i : Z) : Prop :=
  unclaimedAt used i /\ forall j, unclaimedAt used j -> (i <= j)%Z.

(** What the first loop of [pickBestIndex] leaves in [bestIdx] and
    [bestScore]. *)
Definition bestResult (type : Template.SlideType) (used : gset Z)
    (r : Z * option Z) : Prop :=
  match r with
  | (bestIdx, None) => bestIdx = (-1)%Z /\ forall j, ~ unclaimedAt used j
  | (bestIdx, Some sb) => bestAt type used bestIdx sb
  end.

(** The positional default, kept inside the deck. *)
Definition defaultAt (fallbackIndex : Z) : Z :=
  Z.min (Z.max 0 fallbackIndex) (Z.of_nat (length sourceSlides) - 1).

(** One pick as the specification words it: the highest scorer among
    the unclaimed slides is claimed when it reaches the threshold;
    otherwise the positional default is claimed, or, when that one is
    claimed already, the first slide that is still unclaimed. *)
Definition claimedPick (type : Template.SlideType) (fallbackIndex threshold : Z)
    (used : gset Z) (idx : Z) (used' : gset Z) : Prop :=
  let fb := defaultAt fallbackIndex in
  (exists sb,
     bestAt type used idx sb /\ (threshold <= sb)%Z /\ used' = ({[ idx ]} ∪ used))
  \/
  ((forall j sj,
      unclaimedAt used j -> scoreAt type j = Some sj -> (sj < threshold)%Z) /\
   (((fb ∉ used) /\ idx = fb /\ used' = ({[ fb ]} ∪ used))
    \/ ((fb ∈ used) /\ firstUnclaimedAt used idx /\ used' = ({[ idx ]} ∪ used)))).

(** The pick of the code: when every slide is claimed, the default is
    handed out once more and nothing new is claimed. *)
Definition amendedPick (type : Template.SlideType) (fallbackIndex threshold : Z)
    (used : gset Z) (idx : Z) (used' : gset Z) : Prop :=
  claimedPick type fallbackIndex threshold used idx used'
  \/
  ((forall j, ~ unclaimedAt used j) /\ (defaultAt fallbackIndex ∈ used) /\
   idx = defaultAt fallbackIndex /\ used' = used).

(** The four picks in the order end, cover, contents, transition, each
    on the slides that the picks before it have left. *)
Definition assignedBy
    (pick : Template.SlideType -> Z -> Z -> gset Z -> Z -> gset Z -> Prop)
    (a : Template.Assignment) : Prop :=
  exists u1 u2 u3 u4 : gset Z,
    pick Template.end_ (Z.of_nat (length sourceSlides) - 1)%Z 80%Z ∅
      (Template.endIndex a) u1 /\
    pick Template.cover 0%Z 60%Z u1 (Template.coverIndex a) u2 /\
    pick Template.contents 1%Z 60%Z u2 (Template.contentsIndex a) u3 /\
    pick Template.transition 2%Z 50%Z u3 (Template.transitionIndex a) u4.

End Assignment.

(** ** The template deck *)

Section Deck.

Variable viewportSize : Q.
Variable viewportRatio : Q.
Variable fontName : Js.jsstring.
Variable fontColor : Js.jsstring.

(** The content slides made of [sources], one after the other. *)
Fixpoint contentTemplates (sources : list Template.Slide) (n : nat)
    : list Template.Slide * nat :=
  match sources with
  | [] => ([], n)
  | s :: r =>
      let '(o, n1) :=
        Template.templateOf viewportSize viewportRatio fontName fontColor
          s Template.content n in
      let '(os, n2) := contentTemplates r n1 in
      (o :: os, n2)
  end.

(** The source slides, in their order, that none of the four single
    roles has claimed. *)
Definition unclaimedSlides (sourceSlides : list Template.Slide)
    (a : Template.Assignment) : list Template.Slide :=
  map snd
    (List.filter
       (fun '(i, _) =>
          negb (bool_decide
                  (i ∈ [Template.coverIndex a; Template.contentsIndex a;
                        Template.transitionIndex a; Template.endIndex a])))
       (Template.indexed sourceSlides)).

(** The deck as the specification words it: cover, contents and
    transition slide, one content slide per unclaimed source slide, or one
    made of the source of the cover when none is left, and the end slide;
    the slides are made in the order cover, contents, transition, end,
    content slides, and draw their identifiers in that order. *)
Definition claimedDeck (sourceSlides : list Template.Slide)
    (a : Template.Assignment) (n : nat) (deck : list Template.Slide) : Prop :=
  exists coverSrc contentsSrc transitionSrc endSrc,
    slideAt sourceSlides (Template.coverIndex a) = Some coverSrc /\
    slideAt sourceSlides (Template.contentsIndex a) = Some contentsSrc /\
    slideAt sourceSlides (Template.transitionIndex a) = Some transitionSrc /\
    slideAt sourceSlides (Template.endIndex a) = Some endSrc /\
    let template := Template.templateOf viewportSize viewportRatio fontName fontColor in
    let '(coverSlide, n1) := template coverSrc Template.cover n in
    let '(contentsSlide, n2) := template contentsSrc Template.contents n1 in
    let '(transitionSlide, n3) := template transitionSrc Template.transition n2 in
    let '(endSlide, n4) := template endSrc Template.end_ n3 in
    let contentSources :=
      match unclaimedSlides sourceSlides a with
      | [] => [coverSrc]
      | l => l
      end in
    let '(contentSlides, _) := contentTemplates contentSources n4 in
    deck = [coverSlide; contentsSlide; transitionSlide] ++ contentSlides
           ++ [endSlide] /\
    map Template.s_type deck =
      [Some Template.cover; Some Template.contents; Some Template.transition]
      ++ repeat (Some Template.content) (length contentSources)
      ++ [Some Template.end_] /\
    length contentSlides = length contentSources /\
    (1 <= length contentSlides)%nat.

End Deck.

(** The deck of three slides of the specification: a welcome slide, a
    contents slide of five lines under a heading, and a closing slide. *)
Definition welcomeSlide : Template.Slide :=
  slideOf 10 [textBox 11 100 50 800 100 (para 44 "Welcome")].

Definition agendaSlide : Template.Slide :=
  slideOf 20
    (textBox 21 100 30 800 50 (para 20 "Contents")
     :: map (fun i =>
               textBox (22 + i) 100 (120 + 60 * inject_Z (Z.of_nat i))%Q 700 40
                 (para 18 "Line"))
          (seq 0 5)).

Definition closingSlide : Template.Slide :=
  slideOf 30 [textBox 31 100 200 800 100 (para 40 "Thank You")].

(** A slide without elements. *)
Definition emptySlide : Template.Slide := slideOf 0 [].

End TemplateStatements.

Section SourceStatements.

Local Open Scope R_scope.

(** Everything but the geometry of a parsed object is the same. *)
Definition keeps (el el' : Source.Element) : Prop :=
  Source.type el' = Source.type el /\
  Source.order el' = Source.order el /\
  Source.rotate el' = Source.rotate el /\
  Source.isFlipH el' = Source.isFlipH el /\
  Source.isFlipV el' = Source.isFlipV el /\
  Source.payload el' = Source.payload el /\
  Source.elements el' = Source.elements el.

(** From [st] to [st'] the objects of [st] keep everything but their
    geometry, and those outside [refs] are not written at all. *)
Definition writesOnly (refs : list nat) (st st' : Source.Store) : Prop :=
  (length st <= length st')%nat /\
  forall l el,
    st !! l = Some el ->
    exists el', st' !! l = Some el' /\ keeps el el' /\ (l ∉ refs -> el' = el).

(** The parsed objects are read only: the store is as it was. *)
Definition readOnly (st st' : Source.Store) : Prop :=
  forall l el, st !! l = Some el -> st' !! l = Some el.

(** A text element of the parsed slide. *)
Definition parsedText (w h l t : R) : Source.Element :=
  {| Source.type := Source.text; Source.order := 1;
     Source.width := w; Source.height := h; Source.left := l; Source.top := t;
     Source.rotate := 0; Source.isFlipH := None; Source.isFlipV := None;
     Source.payload := Js.js "<p>Title</p>"; Source.elements := [] |}.

Definition parsedSlide : Source.SourceSlide :=
  {| Source.s_elements := [0%nat]; Source.s_layoutElements := [] |}.

End SourceStatements.

(* ================================================================== *)
(** * Further statements *)
(* ================================================================== *)

Section LineStatements.

Local Open Scope R_scope.

(** The corner of the bounding box of two points that is nearest to the
    origin of the axes. *)
Definition minCorner (p q : Line.Point) : Line.Point :=
  (Rmin (fst p) (fst q), Rmin (snd p) (snd q)).

End LineStatements.

Section SourceOrderStatements.

Local Open Scope R_scope.

(** The [order] of the object behind a reference. *)
Definition orderAt (st : list Source.Element) (r : nat) : R :=
  match st !! r with
  | Some el => Source.order el
  | None => 0
  end.

(** The references come in non-decreasing [order]. *)
Fixpoint ascending (st : list Source.Element) (refs : list nat) : Prop :=
  match refs with
  | [] => True
  | r :: l =>
      Forall (fun r' => orderAt st r <= orderAt st r') l /\ ascending st l
  end.

(** The references whose object has the order [c], as they follow each
    other in the list. *)
Definition withOrder (st : list Source.Element) (c : R) (refs : list nat)
    : list nat :=
  List.filter (fun r => if Req_dec_T (orderAt st r) c then true else false) refs.

(** A parsed element of a given kind and order with its children. *)
Definition parsedOf (kind : Source.Kind) (ord w h l t : R) (children : list nat)
    : Source.Element :=
  {| Source.type := kind; Source.order := ord;
     Source.width := w; Source.height := h; Source.left := l; Source.top := t;
     Source.rotate := 0; Source.isFlipH := None; Source.isFlipV := None;
     Source.payload := []; Source.elements := children |}.

End SourceOrderStatements.

Section TableStatements.

(** [el.data[0].length], the number of cells that every output row
    gets. *)
Definition columnsOf (el : Table.SourceTable) : nat :=
  length (default [] (Table.t_data el !! 0%nat)).

(** The identifiers of the output cells, row after row. *)
Definition cellIds (data : list (list Table.TableCell)) : list nat :=
  concat (map (map Table.tc_id) data).

End TableStatements.

Section TextStatements.

(** The text has no white space but single blanks between other
    characters: every white-space unit is a blank and is followed by a
    unit that is not white space. *)
Fixpoint singleSpaced (s : Js.jsstring) : Prop :=
  match s with
  | [] => True
  | c :: r =>
      (Js.isSpace c = true ->
       c = 32%N /\ match r with [] => True | d :: _ => Js.isSpace d = false end)
      /\ singleSpaced r
  end.

(** The text neither starts nor ends with white space. *)
Definition trimmed (s : Js.jsstring) : Prop :=
  (forall c, head s = Some c -> Js.isSpace c = false) /\
  (forall c, last s = Some c -> Js.isSpace c = false).

(** The colours that [normalizePlaceholderFontColor] takes for white,
    as it compares them: trimmed and in lower case. *)
Definition whiteNames : list Js.jsstring :=
  [ []; Js.js "#fff"; Js.js "#ffffff"; Js.js "white" ].

End TextStatements.

Section TagStatements.

(** No [<] of the text is followed, anywhere behind it, by a [>]. *)
Fixpoint noTag (s : Js.jsstring) : bool :=
  match s with
  | [] => true
  | c :: r => (negb (c =? 60)%N || negb (existsb (N.eqb 62) r)) && noTag r
  end.

End TagStatements.

Section KeywordStatements.

(** The item matches one of the keywords, as [findByKeywords] tests it:
    its plain text, in lower case, includes a keyword in lower case that
    is not empty. *)
Definition matchesKeyword (keywords : list Js.jsstring) (it : Template.Scored)
    : bool :=
  existsb
    (fun k =>
       Template.nonEmpty (Js.toLowerCase k)
       && Js.includes (Js.toLowerCase (Template.plain it)) (Js.toLowerCase k))
    keywords.

(** The font size that [findByKeywords] reads off the element of an
    item. *)
Definition fontOf (it : Template.Scored) : Q :=
  Template.getMaxFontSizePx
    (Template.getHtmlText (Template.r_obj (Template.el it))).

End KeywordStatements.

Section TaggerStatements.

(** The reference is the element of one of the scored candidates. *)
Definition refOf (rest : list Template.Scored) (r : Template.Ref) : Prop :=
  exists s, In s rest /\ Template.el s = r.

(** A property of the elements of a slide that every tag other than
    "title", set on a candidate of [rest], keeps. *)
Definition keptByTags (rest : list Template.Scored)
    (P : list Template.PPTElement -> Prop) : Prop :=
  forall t r els,
    t <> "title"%string -> refOf rest r -> P els -> P (Template.tag t r els).

(** The element at [i], and no other, carries the tag "title". *)
Definition titleAt (i : nat) (els : list Template.PPTElement) : Prop :=
  (i < length els)%nat /\
  forall k e,
    els !! k = Some e ->
    (Template.textTypeOf e = Some "title"%string <-> k = i).

End TaggerStatements.

Section PlaceholderStatements.

(** The tags that [ensurePlaceholders] tests on a slide of a role. *)
Definition testedTags (slideType : Template.SlideType) : list string :=
  match slideType with
  | Template.cover => ["title"; "content"]
  | Template.transition => ["title"; "content"; "partNumber"]
  | Template.end_ => ["title"]
  | Template.contents => ["item"; "itemNumber"; "title"]
  | Template.content => ["title"; "content"; "item"; "itemTitle"; "itemNumber"]
  end%string.

End PlaceholderStatements.

Section ScoreStatements.

Variable viewportSize : Q.
Variable viewportRatio : Q.

(** The usable text of the slide, in lower case, includes one of the
    words that [scoreSlideAs] looks for on an end slide. *)
Definition hasEndWord (slide : Template.Slide) : bool :=
  existsb
    (fun k =>
       Js.includes
         (Template.lowerAll
            (Template.getSlideTextStats viewportSize viewportRatio slide))
         (Js.toLowerCase k))
    Template.endWords.

(** The slide has no text that the scores count. *)
Definition noUsableText (slide : Template.Slide) : Prop :=
  Template.usable (Template.getSlideTextStats viewportSize viewportRatio slide)
  = [].

End ScoreStatements.

(** The roles by position in a deck of [n] slides: the last slide ends
    the deck, the first three are cover, contents and transition. *)
Definition positional (n : nat) : Template.Assignment :=
  {| Template.endIndex := Z.of_nat n - 1; Template.coverIndex := 0;
     Template.contentsIndex := 1; Template.transitionIndex := 2 |}.

(** A slide that holds one picture and no text. *)
Definition pictureSlide (id : nat) : Template.Slide :=
  slideOf id
    [ {| Template.e_type := Template.image; Template.e_id := S id;
         Template.e_left := 0; Template.e_top := 0;
         Template.e_width := 400; Template.e_height := 300;
         Template.e_rotate := 0; Template.e_defaultFontName := [];
         Template.e_defaultColor := []; Template.e_content := [];
         Template.e_lineHeight := 1; Template.e_textType := None;
         Template.e_groupId := None; Template.e_text := None |} ].

(** What a template slide keeps of the slide it is made of: identifier,
    background and remark. *)
Definition origin (s : Template.Slide)
    : nat * option Js.jsstring * option Js.jsstring :=
  (Template.s_id s, Template.s_background s, Template.s_remark s).

Section ConvertSamples.

Local Open Scope R_scope.

(** A parsed shape of 120 by 80 with the given type and path. *)
Definition shapeOf (shapType : Js.jsstring) (path : option Js.jsstring)
    : Convert.SourceShape :=
  {| Convert.width := 120; Convert.height := 80;
     Convert.left := 10; Convert.top := 20; Convert.rotate := 0;
     Convert.borderColor := Js.js "#000"; Convert.borderWidth := 1;
     Convert.borderType := Js.js "solid"; Convert.content := [];
     Convert.vAlign := Js.js "mid";
     Convert.isFlipH := false; Convert.isFlipV := false;
     Convert.shadow := None; Convert.shapType := shapType;
     Convert.path := path; Convert.fill := Convert.otherFill |}.

(** The conversion in an editor without listed shapes, where every path
    has the range 100 by 40. *)
Definition sampleParseShape (el : Convert.SourceShape) : Convert.Result :=
  Convert.parseShape (fun _ => 0) (fun _ => 0) (fun _ => []) []
    (fun _ => None) (fun _ => (100, 40)) (Js.js "Arial") (Js.js "#333")
    7 el 90 60 (4 / 3).

End ConvertSamples.

(* ================================================================== *)
(** * Properties of the line translation *)
(* ================================================================== *)

Section LineFacts.

Local Open Scope R_scope.

Lemma angle_zero : 0 * PI / 180 = 0.
Proof. lra. Qed.

Lemma angle_half_turn : 180 * PI / 180 = PI.
Proof. field. Qed.

Lemma flipEndpoints_claimed (el : Line.Shape) :
  Line.flipEndpoints el =
  claimedEndpoints (Line.isFlipH el) (Line.isFlipV el) (Line.width el) (Line.height el).
Proof.
  unfold Line.flipEndpoints, claimedEndpoints.
  destruct (Line.isFlipH el), (Line.isFlipV el); reflexivity.
Qed.

(** Bend and curve control points leave the endpoints alone. *)
Lemma parseLineElement_endpoints (id : nat) (el : Line.Shape) (ratio : R) :
  let out := Line.parseLineElement id el ratio in
  let flat :=
    {| Line.l_id := id; Line.l_width := 0; Line.l_left := 0; Line.l_top := 0;
       Line.l_start := fst (Line.flipEndpoints el);
       Line.l_end := snd (Line.flipEndpoints el);
       Line.l_style := []; Line.l_color := []; Line.l_points := ([], []);
       Line.l_broken2 := None; Line.l_cubic := None |} in
  (Line.l_start out, Line.l_end out) =
  if Req_dec_T (Line.rotate el) 0 then Line.flipEndpoints el
  else (Line.r_start (Line.rotateLine flat (Line.rotate el)),
        Line.r_end (Line.rotateLine flat (Line.rotate el))).
Proof.
  unfold Line.parseLineElement.
  destruct (Line.flipEndpoints el) as [[s0 s1] [e0 e1]] eqn:E.
  cbv zeta.
  destruct (Js.includes (Line.shapType el) (Js.js "bentConnector"));
    destruct (Js.includes (Line.shapType el) (Js.js "curvedConnector"));
    destruct (Req_dec_T (Line.rotate el) 0); reflexivity.
Qed.



(** C4, as amended: for an element without rotation the endpoints are
    those of the flip table. *)
Theorem parseLineElement_flip_table (id : nat) (el : Line.Shape) (ratio : R) :
  Line.rotate el = 0 ->
  (Line.l_start (Line.parseLineElement id el ratio),
   Line.l_end (Line.parseLineElement id el ratio)) =
  claimedEndpoints (Line.isFlipH el) (Line.isFlipV el) (Line.width el) (Line.height el).
Proof.
  intros Hrot.
  pose proof (parseLineElement_endpoints id el ratio) as H. cbv zeta in H.
  rewrite H. destruct (Req_dec_T (Line.rotate el) 0); [|contradiction].
  apply flipEndpoints_claimed.
Qed.

Lemma parseLineElement_flip_table_witness :
  Line.rotate (plainLine 10 5 0 true false) = 0 /\
  (Line.l_start (Line.parseLineElement 7 (plainLine 10 5 0 true false) 1),
   Line.l_end (Line.parseLineElement 7 (plainLine 10 5 0 true false) 1)) =
  ((10, 0), (0, 5)).
Proof.
  split; [reflexivity|].
  apply (parseLineElement_flip_table 7 (plainLine 10 5 0 true false) 1).
  reflexivity.
Defined.

(** C4, as stated, fails for a line turned by 180 degrees: without any
    flip the endpoints come out as (10, 5) and (0, 0). *)
Lemma parseLineElement_rotated_endpoints :
  (Line.l_start (Line.parseLineElement 7 (plainLine 10 5 180 false false) 1),
   Line.l_end (Line.parseLineElement 7 (plainLine 10 5 180 false false) 1)) <>
  claimedEndpoints false false 10 5.
Proof.
  pose proof (parseLineElement_endpoints 7 (plainLine 10 5 180 false false) 1) as H.
  cbv zeta in H. rewrite H. clear H.
  cbn [plainLine Line.rotate Line.flipEndpoints Line.isFlipH Line.isFlipV
       Line.width Line.height negb andb fst snd].
  destruct (Req_dec_T 180 0) as [E|_]; [lra|].
  unfold Line.rotateLine. cbn [Line.l_start Line.l_end Line.r_start Line.r_end].
  rewrite angle_half_turn, cos_PI, sin_PI.
  unfold claimedEndpoints. intros H. injection H as H _ _ _.
  unfold Rmin in H. destruct Rle_dec; lra.
Qed.

End LineFacts.

(* ================================================================== *)
(** * Properties of the table translation *)
(* ================================================================== *)

Section TableFacts.

Local Open Scope R_scope.

Variable dom : Js.jsstring -> Table.CellDom.
Variable parseInt : Js.jsstring -> R.
Variable toFixed1 : R -> Js.jsstring.

Lemma fold_left_Rplus_div (t : R) (l : list R) (a : R) :
  fold_left Rplus (map (fun item => item / t) l) (a / t) =
  fold_left Rplus l a / t.
Proof.
  revert a. induction l as [|x l IH]; intros a; [reflexivity|].
  cbn [map fold_left].
  replace (a / t + x / t) with ((a + x) / t) by (unfold Rdiv; ring).
  apply IH.
Qed.

Lemma fold_left_Rplus_pos (l : list R) (a : R) :
  Forall (fun w => 0 < w) l -> 0 <= a -> l <> [] -> 0 < fold_left Rplus l a.
Proof.
  revert a. induction l as [|x l IH]; intros a Hl Ha Hne; [contradiction|].
  apply Forall_cons_1 in Hl as [Hx Hl]. cbn [fold_left].
  destruct l as [|y l]; [cbn; lra|].
  apply IH; [assumption|lra|discriminate].
Qed.

Lemma fractions_sum (l : list R) :
  Table.sumWidths l <> 0 ->
  Table.sumWidths (map (fun item => item / Table.sumWidths l) l) = 1.
Proof.
  intros Hne. unfold Table.sumWidths at 1.
  replace 0 with (0 / Table.sumWidths l) at 1 by (unfold Rdiv; ring).
  rewrite fold_left_Rplus_div. fold (Table.sumWidths l). now field.
Qed.

Lemma andThen_Some {A B} (m : Table.Step A) (k : A -> Table.Step B) n b n' :
  Table.andThen m k n = Some (b, n') ->
  exists a n1, m n = Some (a, n1) /\ k a n1 = Some (b, n').
Proof.
  unfold Table.andThen. destruct (m n) as [[a n1]|]; [|discriminate].
  intros H. exists a, n1. split; [reflexivity|assumption].
Qed.

Lemma get_Some {A} (o : option A) n a n' :
  Table.get o n = Some (a, n') -> o = Some a /\ n' = n.
Proof.
  destruct o; cbn; [|discriminate]. intros [= -> ->]. split; reflexivity.
Qed.

(** [mapM] visits the list position by position. *)
Lemma eachM_lookup {A B} (f : A -> Table.Step B) (l : list A) n bs n' i a :
  Table.eachM f l n = Some (bs, n') ->
  l !! i = Some a ->
  exists b m m', bs !! i = Some b /\ f a m = Some (b, m').
Proof.
  revert n bs i. induction l as [|x l IH]; intros n bs i Hm Hi; [discriminate|].
  cbn [Table.eachM] in Hm.
  apply andThen_Some in Hm as (b0 & n1 & Hf & Hm).
  apply andThen_Some in Hm as (bs0 & n2 & Hr & Hm).
  injection Hm as <- <-.
  destruct i as [|i]; cbn in Hi.
  - injection Hi as ->. exists b0, n, n1. split; [reflexivity|assumption].
  - destruct (IH _ _ _ Hr Hi) as (b & m & m' & Hb & Hfa).
    exists b, m, m'. split; assumption.
Qed.

Lemma eachM_length {A B} (f : A -> Table.Step B) (l : list A) n bs n' :
  Table.eachM f l n = Some (bs, n') -> length bs = length l.
Proof.
  revert n bs. induction l as [|x l IH]; intros n bs Hm; cbn in Hm.
  - injection Hm as <- _. reflexivity.
  - apply andThen_Some in Hm as (b0 & n1 & Hf & Hm).
    apply andThen_Some in Hm as (bs0 & n2 & Hr & Hm).
    injection Hm as <- <-. cbn. f_equal. eapply IH, Hr.
Qed.

Lemma parseCell_spans ratio cell n ocell n' :
  Table.parseCell dom parseInt toFixed1 ratio cell n = Some (ocell, n') ->
  Table.tc_colspan ocell = Table.numOr (Table.c_colSpan cell) 1 /\
  Table.tc_rowspan ocell = Table.numOr (Table.c_rowSpan cell) 1.
Proof.
  unfold Table.parseCell. intros H.
  apply andThen_Some in H as (id & n1 & _ & H). injection H as <- _.
  split; reflexivity.
Qed.

(** Every output cell is the translation of the source cell at the same
    row and column. *)
Lemma parseTable_cells ratio el n out n' i j ocell :
  Table.parseTable dom parseInt toFixed1 ratio el n = Some (out, n') ->
  cellAt (Table.e_data out) i j = Some ocell ->
  exists cell m m',
    cellAt (Table.t_data el) i j = Some cell /\
    Table.parseCell dom parseInt toFixed1 ratio cell m = Some (ocell, m').
Proof.
  unfold Table.parseTable. intros H Hcell.
  apply andThen_Some in H as (row0 & n1 & _ & H).
  apply andThen_Some in H as (data & n2 & Hdata & H).
  apply andThen_Some in H as (firstCell & n3 & _ & H).
  apply andThen_Some in H as (id & n4 & _ & H).
  injection H as <- _. cbn [Table.e_data] in Hcell.
  unfold cellAt in *.
  destruct (data !! i) as [orow|] eqn:Hrow; [|discriminate]. cbn in Hcell.
  assert (i < length (Table.t_data el))%nat as Hi.
  { rewrite <- (eachM_length _ _ _ _ _ Hdata). eapply lookup_lt_Some, Hrow. }
  apply lookup_lt_is_Some_2 in Hi as [row Hsrc].
  destruct (eachM_lookup _ _ _ _ _ _ _ Hdata Hsrc) as (orow' & m & m' & Ho & Hr).
  rewrite Hrow in Ho. injection Ho as <-.
  unfold Table.parseRow in Hr.
  assert (j < length (seq 0 (length row0)))%nat as Hj.
  { rewrite <- (eachM_length _ _ _ _ _ Hr). eapply lookup_lt_Some, Hcell. }
  apply lookup_lt_is_Some_2 in Hj as [j' Hseq].
  destruct (eachM_lookup _ _ _ _ _ _ _ Hr Hseq) as (oc & k & k' & Hoc & Hpc).
  rewrite Hcell in Hoc. injection Hoc as <-.
  apply lookup_seq in Hseq as [-> _]. cbn in Hpc.
  apply andThen_Some in Hpc as (cell & k1 & Hget & Hpc).
  apply get_Some in Hget as [Hget ->].
  exists cell, k, k'. rewrite Hsrc. cbn. split; assumption.
Qed.

Lemma parseTable_colWidths ratio el n out n' :
  Table.parseTable dom parseInt toFixed1 ratio el n = Some (out, n') ->
  Table.e_colWidths out =
  map (fun item => item / Table.sumWidths (Table.t_colWidths el)) (Table.t_colWidths el).
Proof.
  unfold Table.parseTable. intros H.
  apply andThen_Some in H as (row0 & n1 & _ & H).
  apply andThen_Some in H as (data & n2 & Hdata & H).
  apply andThen_Some in H as (firstCell & n3 & _ & H).
  apply andThen_Some in H as (id & n4 & _ & H).
  injection H as <- _. reflexivity.
Qed.

End TableFacts.

(** C6, as amended: for a translated table with at least one column
    width, all of them positive, the fractions add up to exactly 1, hence
    to 1 within every epsilon; and each output cell carries the span of
    its source cell when that is present and not zero, and 1 otherwise. *)
Theorem parseTable_fractions_and_spans
    (dom : Js.jsstring -> Table.CellDom) (parseInt : Js.jsstring -> R)
    (toFixed1 : R -> Js.jsstring) (ratio : R) (el : Table.SourceTable)
    (n : nat) (out : Table.PPTTableElement) (n' : nat) :
  Table.parseTable dom parseInt toFixed1 ratio el n = Some (out, n') ->
  Table.t_colWidths el <> [] ->
  Forall (fun w => (0 < w)%R) (Table.t_colWidths el) ->
  Table.sumWidths (Table.e_colWidths out) = 1%R /\
  (forall eps, (0 < eps)%R ->
     (Rabs (Table.sumWidths (Table.e_colWidths out) - 1) < eps)%R) /\
  (forall i j ocell,
     cellAt (Table.e_data out) i j = Some ocell ->
     exists cell,
       cellAt (Table.t_data el) i j = Some cell /\
       Table.tc_colspan ocell =
         match Table.c_colSpan cell with
         | Some x => if Req_dec_T x 0 then 1%R else x
         | None => 1%R
         end /\
       Table.tc_rowspan ocell =
         match Table.c_rowSpan cell with
         | Some x => if Req_dec_T x 0 then 1%R else x
         | None => 1%R
         end).
Proof.
  intros Hparse Hne Hpos.
  assert (Table.sumWidths (Table.e_colWidths out) = 1%R) as Hsum.
  { rewrite (parseTable_colWidths _ _ _ _ _ _ _ _ Hparse).
    apply fractions_sum.
    pose proof (fold_left_Rplus_pos _ 0%R Hpos (Rle_refl 0) Hne) as H.
    unfold Table.sumWidths. lra. }
  split; [exact Hsum|]. split.
  - intros eps Heps. rewrite Hsum.
    replace (1 - 1)%R with 0%R by ring. rewrite Rabs_R0. exact Heps.
  - intros i j ocell Hcell.
    destruct (parseTable_cells _ _ _ _ _ _ _ _ _ _ _ Hparse Hcell)
      as (cell & m & m' & Hsrc & Hpc).
    exists cell. split; [exact Hsrc|].
    apply parseCell_spans in Hpc as [Hc Hr].
    rewrite Hc, Hr. unfold Table.numOr, Line.orElse. split; reflexivity.
Qed.

Lemma parseTable_fractions_and_spans_witness :
  exists out n',
    sampleParseTable
      (tableOf [[cellOf (Some 2%R) None; cellOf None None]] [100%R; 300%R]) 0
      = Some (out, n') /\
    Table.sumWidths (Table.e_colWidths out) = 1%R /\
    exists ocell, cellAt (Table.e_data out) 0 0 = Some ocell /\
      Table.tc_colspan ocell = (if Req_dec_T 2 0 then 1%R else 2%R).
Proof.
  eexists. eexists. split; [cbn; reflexivity|].
  edestruct (parseTable_fractions_and_spans noDom (fun _ => 0%R) (fun _ => [])
    1%R (tableOf [[cellOf (Some 2%R) None; cellOf None None]] [100%R; 300%R]) 0)
    as (Hsum & _ & Hcells).
  - cbn; reflexivity.
  - discriminate.
  - repeat constructor; lra.
  - split; [exact Hsum|].
    eexists. split; [reflexivity|].
    destruct (Hcells 0%nat 0%nat _ eq_refl) as (cell & Hc & Hspan & _).
    injection Hc as <-. exact Hspan.
Defined.

(** C6, as stated, fails on a table of one plain cell whose width list is
    empty: the fractions add up to 0, and the cell, which has no span of
    its own, comes out with spans 1. *)
Lemma parseTable_claim_fails :
  exists out n',
    sampleParseTable (tableOf [[cellOf None None]] []) 0 = Some (out, n') /\
    Forall (fun w => (0 < w)%R) (Table.t_colWidths (tableOf [[cellOf None None]] [])) /\
    Table.sumWidths (Table.e_colWidths out) = 0%R /\
    (exists ocell, cellAt (Table.e_data out) 0 0 = Some ocell /\
       Table.tc_colspan ocell = 1%R /\ Table.tc_rowspan ocell = 1%R) /\
    ~ tableClaim (tableOf [[cellOf None None]] []) out.
Proof.
  eexists. eexists. split; [cbn; reflexivity|].
  split; [constructor|]. split; [reflexivity|].
  split; [eexists; split; [reflexivity|split; reflexivity]|].
  intros [Hsum _]. cbn in Hsum. unfold Table.sumWidths in Hsum. cbn in Hsum. lra.
Qed.

(* ================================================================== *)
(** * Empty input at the entry points *)
(* ================================================================== *)

(** C9, as amended: without a file [importPPTXFile] returns and leaves
    the editor as it was, and [parsePPTXTemplate] throws the error
    "no file", also without any change to the editor. *)
Theorem empty_input_outcomes
    (File Document Store : Type) (parse : File -> option Document)
    (convert : Document -> list Template.Slide)
    (viewportSize viewportRatio : Q) (fontName fontColor : Js.jsstring)
    (ed : @Entry.Editor File Store) :
  Entry.importPPTXFile [] ed = (Entry.Returned tt, ed) /\
  Entry.parsePPTXTemplate parse convert viewportSize viewportRatio fontName
    fontColor [] ed = (Entry.Thrown (Js.js "no file"), ed).
Proof. split; reflexivity. Qed.

(** C9, as stated, fails for the template entry point: the call without
    a file throws. *)
Lemma parsePPTXTemplate_empty_throws :
  ~ quietNoOp
      (Entry.parsePPTXTemplate (fun _ : unit => Some tt) (fun _ : unit => [])
         1000 0.5625 (Js.js "Arial") (Js.js "#333") [] idleEditor)
      idleEditor.
Proof. intros [[a Ha] _]. discriminate Ha. Qed.

(* ================================================================== *)
(** * Properties of the placeholders *)
(* ================================================================== *)

Section PlaceholderFacts.

Variable viewportSize : Q.
Variable viewportRatio : Q.
Variable fontName : Js.jsstring.
Variable fontColor : Js.jsstring.

Let boxOf := Template.boxOf fontName fontColor.
Let ensurePlaceholders :=
  Template.ensurePlaceholders viewportSize viewportRatio fontName fontColor.

Lemma hasTextType_hasTag slide t :
  Template.hasTextType slide t = hasTag (Template.s_elements slide) t.
Proof. reflexivity. Qed.

Lemma hasTag_app els els' t : hasTag (els ++ els') t = hasTag els t || hasTag els' t.
Proof. apply existsb_app. Qed.

Lemma withElements_id slide :
  Template.withElements slide (Template.s_elements slide ++ []) = slide.
Proof. rewrite app_nil_r. destruct slide; reflexivity. Qed.

Lemma withElements_app slide els els' :
  Template.withElements
    (Template.withElements slide (Template.s_elements slide ++ els))
    (Template.s_elements
       (Template.withElements slide (Template.s_elements slide ++ els)) ++ els') =
  Template.withElements slide (Template.s_elements slide ++ els ++ els').
Proof. cbn. rewrite <- app_assoc. reflexivity. Qed.

(** One conditional [addTextBox]. *)
Lemma addUnless_eq b slide config n :
  Template.addUnless fontName fontColor b slide config n =
  (Template.withElements slide
     (Template.s_elements slide ++ (if b then [] else [boxOf config n])),
   (n + (if b then 0 else 1))%nat).
Proof.
  unfold Template.addUnless. destruct b.
  - cbn. rewrite withElements_id, Nat.add_0_r. reflexivity.
  - cbn. rewrite Nat.add_1_r. reflexivity.
Qed.

Lemma addUnlessTagged_eq slide config n :
  Template.addUnlessTagged fontName fontColor slide config n =
  Template.addUnless fontName fontColor
    (hasTag (Template.s_elements slide) (Template.cfg_textType config))
    slide config n.
Proof. reflexivity. Qed.

(** A loop whose body appends: the whole loop appends row after row. *)
Lemma forEach_appends {A} (body : A -> Template.Slide -> Template.Gen Template.Slide)
    (g : A -> nat -> list Template.PPTElement) (d : nat) :
  (forall a slide n,
     body a slide n =
     (Template.withElements slide (Template.s_elements slide ++ g a n),
      (n + d)%nat)) ->
  forall l slide n,
    Template.forEach l body slide n =
    (Template.withElements slide
       (Template.s_elements slide ++ rowsFrom g d l n),
     (n + d * length l)%nat).
Proof.
  intros Hbody l. induction l as [|a l IH]; intros slide n.
  - cbn. rewrite withElements_id. f_equal. lia.
  - cbn [Template.forEach rowsFrom length]. unfold Template.gbind.
    rewrite Hbody, IH, withElements_app. f_equal. lia.
Qed.

Lemma forEach_if_appends {A} (b : bool)
    (body : A -> Template.Slide -> Template.Gen Template.Slide)
    (g : A -> nat -> list Template.PPTElement) (d : nat) :
  (forall a slide n,
     body a slide n =
     (Template.withElements slide (Template.s_elements slide ++ g a n),
      (n + d)%nat)) ->
  forall l slide n,
    (if b then Template.forEach l body slide else Template.gret slide) n =
    (Template.withElements slide
       (Template.s_elements slide ++ (if b then rowsFrom g d l n else [])),
     (n + (if b then d * length l else 0))%nat).
Proof.
  intros Hbody l slide n. destruct b.
  - apply forEach_appends, Hbody.
  - cbn. rewrite withElements_id, Nat.add_0_r. reflexivity.
Qed.

Lemma hasTag_rowsFrom {A} (g : A -> nat -> list Template.PPTElement) d l n t :
  (forall a m, hasTag (g a m) t = false) -> hasTag (rowsFrom g d l n) t = false.
Proof.
  intros Hg. revert n. induction l as [|a l IH]; intros n; [reflexivity|].
  cbn [rowsFrom]. rewrite hasTag_app, Hg, IH. reflexivity.
Qed.

Lemma rows_lack {A} (b : bool) (g : A -> nat -> list Template.PPTElement) d l n t :
  (forall a m, hasTag (g a m) t = false) ->
  hasTag (if b then rowsFrom g d l n else []) t = false.
Proof. intros H. destruct b; [apply hasTag_rowsFrom, H|reflexivity]. Qed.

Lemma Forall_rowsFrom {A} (P : Template.PPTElement -> Prop)
    (g : A -> nat -> list Template.PPTElement) d l n :
  (forall a m, Forall P (g a m)) -> Forall P (rowsFrom g d l n).
Proof.
  intros Hg. revert n. induction l as [|a l IH]; intros n; [constructor|].
  cbn [rowsFrom]. apply Forall_app. split; [apply Hg|apply IH].
Qed.

Ltac step :=
  rewrite ?addUnlessTagged_eq; rewrite addUnless_eq; cbv beta iota;
  rewrite ?withElements_app.

Ltac boxes :=
  repeat match goal with
  | |- Forall _ (_ :: _) => constructor
  | |- Forall _ [] => constructor
  | |- Forall _ (_ ++ _) => apply Forall_app; split
  | |- Forall _ (rowsFrom _ _ _ _) => apply Forall_rowsFrom; intros
  | |- Forall _ (if ?b then _ else _) => destruct b
  | |- isBox _ => split; [reflexivity|eexists; reflexivity]
  end.

Ltac body_step :=
  intros; unfold Template.gbind, Template.nanoid;
  rewrite !addUnless_eq, ?withElements_app; f_equal.

Ltac decide_tags slide :=
  cbn [Template.s_elements Template.withElements Template.cfg_textType];
  repeat constructor; rewrite ?hasTag_app;
  destruct (hasTag (Template.s_elements slide) "title") eqn:Ht;
  destruct (hasTag (Template.s_elements slide) "content") eqn:Hc;
  destruct (hasTag (Template.s_elements slide) "partNumber") eqn:Hp;
  cbn; rewrite ?Ht, ?Hc, ?Hp; reflexivity.

Lemma ensure_cover slide n :
  exists app, placed slide Template.cover (ensurePlaceholders slide Template.cover n) app.
Proof.
  unfold ensurePlaceholders, Template.ensurePlaceholders, Template.gbind. cbv zeta.
  step. step. eexists. split; [reflexivity|].
  split; [decide_tags slide | boxes].
Qed.

Lemma ensure_transition slide n :
  exists app,
    placed slide Template.transition (ensurePlaceholders slide Template.transition n) app.
Proof.
  unfold ensurePlaceholders, Template.ensurePlaceholders, Template.gbind. cbv zeta.
  step. step. step. eexists. split; [reflexivity|].
  split; [decide_tags slide | boxes].
Qed.

Lemma ensure_end slide n :
  exists app, placed slide Template.end_ (ensurePlaceholders slide Template.end_ n) app.
Proof.
  unfold ensurePlaceholders, Template.ensurePlaceholders, Template.gbind. cbv zeta.
  step. eexists. split; [reflexivity|].
  split; [decide_tags slide | boxes].
Qed.

Lemma ensure_contents slide n :
  exists app,
    placed slide Template.contents (ensurePlaceholders slide Template.contents n) app.
Proof.
  unfold ensurePlaceholders, Template.ensurePlaceholders. cbv zeta.
  unfold Template.gbind at 1.
  set (hi := Template.hasTextType slide "item").
  set (hn := Template.hasTextType slide "itemNumber").
  erewrite forEach_if_appends; cycle 1.
  { body_step.
    instantiate (1 := (1 + (if hn then 0 else 1) + (if hi then 0 else 1))%nat). lia. }
  step. eexists. split; [reflexivity|].
  split; [|boxes].
  cbn [Template.s_elements Template.withElements Template.cfg_textType].
  repeat constructor. rewrite !hasTag_app, rows_lack.
  - destruct (hasTag (Template.s_elements slide) "title"); reflexivity.
  - intros. destruct hn, hi; reflexivity.
Qed.

Lemma ensure_content slide n :
  exists app,
    placed slide Template.content (ensurePlaceholders slide Template.content n) app.
Proof.
  unfold ensurePlaceholders, Template.ensurePlaceholders. cbv zeta.
  unfold Template.gbind at 1. step. unfold Template.gbind at 1. step.
  match goal with
  | |- context [Template.hasTextType ?s "item"] =>
      set (hi := Template.hasTextType s "item")
  end.
  match goal with
  | |- context [Template.hasTextType ?s "itemTitle"] =>
      set (hit := Template.hasTextType s "itemTitle")
  end.
  match goal with
  | |- context [Template.hasTextType ?s "itemNumber"] =>
      set (hn := Template.hasTextType s "itemNumber")
  end.
  clearbody hi hit hn.
  erewrite forEach_if_appends; cycle 1.
  { body_step.
    instantiate (1 := (1 + (if hn then 0 else 1) + (if hit then 0 else 1)
                       + (if hi then 0 else 1))%nat). lia. }
  rewrite withElements_app.
  eexists. split; [reflexivity|].
  split; [|boxes].
  cbn [Template.s_elements Template.withElements Template.cfg_textType].
  repeat constructor; rewrite !hasTag_app, rows_lack;
    try (intros; destruct hn, hit, hi; reflexivity);
    destruct (hasTag (Template.s_elements slide) "title") eqn:Ht;
    destruct (hasTag (Template.s_elements slide) "content") eqn:Hc;
    cbn; rewrite ?Ht, ?Hc; reflexivity.
Qed.

(** Whatever the role, the synthesizer appends boxes, and one for each
    required tag that the slide lacks. *)
Lemma ensure_placed slide slideType n :
  exists app, placed slide slideType (ensurePlaceholders slide slideType n) app.
Proof.
  destruct slideType.
  - apply ensure_cover.
  - apply ensure_contents.
  - apply ensure_transition.
  - apply ensure_content.
  - apply ensure_end.
Qed.

Lemma flat_map_map {A B C} (f : B -> list C) (g : A -> B) (l : list A) :
  flat_map f (map g l) = flat_map (fun a => f (g a)) l.
Proof. induction l as [|a l IH]; cbn; [|rewrite IH]; reflexivity. Qed.

Lemma summary_rowsFrom {A} (g : A -> nat -> list Template.PPTElement)
    (h : nat -> list (Template.ElementType * option string * option nat)) :
  (forall a m, map summary (g a m) = h m) ->
  forall l n,
    map summary (rowsFrom g 3 l n) =
    flat_map (fun i => h (n + 3 * i)%nat) (seq 0 (length l)).
Proof.
  intros Hg l. induction l as [|a l IH]; intros n; [reflexivity|].
  cbn [rowsFrom length seq flat_map]. rewrite map_app, Hg, IH.
  replace (n + 3 * 0)%nat with n by lia. f_equal.
  rewrite <- seq_shift, flat_map_map.
  apply flat_map_ext. intros i. f_equal. lia.
Qed.

(** On a contents slide without item and itemNumber tags the loop
    appends the ten rows, and then at most the heading. *)
Lemma ensure_contents_rows slide n :
  hasTag (Template.s_elements slide) "item" = false ->
  hasTag (Template.s_elements slide) "itemNumber" = false ->
  exists rows rest,
    Template.s_elements (fst (ensurePlaceholders slide Template.contents n)) =
      Template.s_elements slide ++ rows ++ rest /\
    map summary rows = claimedRows n /\
    Forall isBox rows /\
    tagged "item" rest = [] /\ tagged "itemNumber" rest = [].
Proof.
  intros Hi Hn.
  unfold ensurePlaceholders, Template.ensurePlaceholders. cbv zeta.
  unfold Template.gbind at 1.
  rewrite !hasTextType_hasTag, Hi, Hn. cbn [negb orb].
  erewrite forEach_appends; cycle 1.
  { body_step. instantiate (1 := 3%nat). lia. }
  step. cbn [fst Template.s_elements Template.withElements].
  eexists. eexists. split; [reflexivity|].
  split; [|split; [boxes|]].
  - unfold claimedRows.
    erewrite (summary_rowsFrom _
      (fun m => [ (Template.text, Some "itemNumber", Some m);
                  (Template.text, Some "item", Some m) ]%string)).
    + reflexivity.
    + intros a m. reflexivity.
  - split; match goal with |- context [if ?b then _ else _] => destruct b end;
      reflexivity.
Qed.

End PlaceholderFacts.

(* ================================================================== *)
(** * Properties of the tagger *)
(* ================================================================== *)

Section TaggerFacts.

Variable viewportSize : Q.
Variable viewportRatio : Q.

Lemma textTypeOf_clearTextType el :
  Template.textTypeOf (Template.clearTextType el) = None.
Proof.
  unfold Template.clearTextType, Template.textTypeOf, Template.isType.
  destruct el as [ty ? ? ? ? ? ? ? ? ? ? tt ? tx]; cbn.
  destruct ty; cbn; try reflexivity; destruct tx; reflexivity.
Qed.

Lemma clearTextType_idem el :
  Template.clearTextType (Template.clearTextType el) = Template.clearTextType el.
Proof.
  unfold Template.clearTextType, Template.isType.
  destruct el as [ty ? ? ? ? ? ? ? ? ? ? tt ? tx]; cbn.
  destruct ty; cbn; try reflexivity; destruct tx; reflexivity.
Qed.

Lemma textTypeOf_not_candidate el :
  Template.isTextCandidate el = false -> Template.textTypeOf el = None.
Proof.
  unfold Template.isTextCandidate, Template.textTypeOf, Template.isType.
  destruct el as [ty ? ? ? ? ? ? ? ? ? ? tt ? tx]; cbn.
  destruct ty; cbn; try reflexivity; try discriminate.
  destruct tx; [discriminate|reflexivity].
Qed.

Lemma textTypeOf_setTextType t' el t :
  Template.textTypeOf (Template.setTextType t' el) = Some t ->
  t = t' \/ Template.textTypeOf el = Some t.
Proof.
  unfold Template.setTextType, Template.textTypeOf, Template.isType.
  destruct el as [ty ? ? ? ? ? ? ? ? ? ? tt ? tx]; cbn.
  destruct ty; cbn; try (intros H; right; exact H).
  - intros [= ->]. left; reflexivity.
  - destruct tx; cbn; [intros [= ->]; left; reflexivity|discriminate].
Qed.

Lemma fold_alter_lookup (f : Template.PPTElement -> Template.PPTElement)
    (rs : list Template.Ref) (els : list Template.PPTElement) (i : nat) :
  (forall x, f (f x) = f x) ->
  fold_left (fun els r => alter f (Template.r_at r) els) rs els !! i =
  if existsb (fun r => Template.r_at r =? i)%nat rs
  then f <$> els !! i else els !! i.
Proof.
  intros Hf. revert els. induction rs as [|r rs IH]; intros els; [reflexivity|].
  cbn [fold_left existsb]. rewrite IH.
  destruct (Nat.eqb_spec (Template.r_at r) i) as [->|Hne]; cbn [orb].
  - rewrite list_lookup_alter_eq.
    destruct (existsb _ rs); [|reflexivity].
    destruct (els !! i); cbn; [rewrite Hf|]; reflexivity.
  - rewrite list_lookup_alter_ne by assumption. reflexivity.
Qed.

Lemma candidate_listed slide i x :
  Template.s_elements slide !! i = Some x ->
  Template.isTextCandidate x = true ->
  existsb (fun r => Template.r_at r =? i)%nat (Template.getTextCandidates slide) = true.
Proof.
  intros Hi Hx. apply existsb_exists.
  exists {| Template.r_at := i; Template.r_obj := x |}.
  split; [|apply Nat.eqb_refl].
  unfold Template.getTextCandidates. apply filter_In. split; [|exact Hx].
  apply list_elem_of_In.
  apply (elem_of_lookup_imap_2
           (fun i el => {| Template.r_at := i; Template.r_obj := el |}) _ _ _ Hi).
Qed.

(** After the first loop of the tagger no element carries a tag. *)
Lemma cleared_no_tag slide :
  Forall (fun el => Template.textTypeOf el = None)
    (fold_left (fun els r => alter Template.clearTextType (Template.r_at r) els)
       (Template.getTextCandidates slide) (Template.s_elements slide)).
Proof.
  apply Forall_lookup. intros i y Hy.
  rewrite (fold_alter_lookup _ _ _ _ clearTextType_idem) in Hy.
  destruct (Template.s_elements slide !! i) as [x|] eqn:Hx.
  - destruct (Template.isTextCandidate x) eqn:Hc.
    + rewrite (candidate_listed _ _ _ Hx Hc) in Hy. injection Hy as <-.
      apply textTypeOf_clearTextType.
    + destruct (existsb _ _); injection Hy as <-.
      * apply textTypeOf_clearTextType.
      * apply textTypeOf_not_candidate, Hc.
  - destruct (existsb _ _); discriminate.
Qed.

Lemma hasTag_false els t :
  hasTag els t = false <->
  Forall (fun el => Template.textTypeOf el <> Some t) els.
Proof.
  unfold hasTag. induction els as [|x els IH]; cbn.
  - split; [constructor|reflexivity].
  - rewrite orb_false_iff, IH, Forall_cons, bool_decide_eq_false. reflexivity.
Qed.

Lemma no_tag_hasTag els t :
  Forall (fun el => Template.textTypeOf el = None) els -> hasTag els t = false.
Proof.
  intros H. apply hasTag_false. eapply Forall_impl; [exact H|].
  intros x Hx. cbn in Hx. rewrite Hx. discriminate.
Qed.

(** Tagging one element does not bring up any other tag. *)
Lemma hasTag_tag t' r els t :
  t <> t' -> hasTag els t = false -> hasTag (Template.tag t' r els) t = false.
Proof.
  intros Hne H. apply hasTag_false. apply hasTag_false in H.
  unfold Template.tag. apply Forall_lookup. intros i y Hy.
  rewrite list_lookup_alter in Hy.
  destruct (decide (Template.r_at r = i)) as [->|_].
  - destruct (els !! i) as [x|] eqn:Hx; [|discriminate].
    injection Hy as <-. intros Ht.
    apply textTypeOf_setTextType in Ht as [->|Ht]; [contradiction|].
    eapply Forall_lookup_1 in H; [|exact Hx]. contradiction.
  - eapply Forall_lookup_1 in H; [|exact Hy]. exact H.
Qed.

Lemma hasTag_tagOpt t' r els t :
  t <> t' -> hasTag els t = false -> hasTag (Template.tagOpt t' r els) t = false.
Proof. destruct r; [apply hasTag_tag|intros _ H; exact H]. Qed.

Lemma not_candidates_no_tag slide t :
  Template.getTextCandidates slide = [] ->
  hasTag (Template.s_elements slide) t = false.
Proof.
  intros Hc. apply no_tag_hasTag, Forall_lookup. intros i x Hx.
  destruct (Template.isTextCandidate x) eqn:E.
  - pose proof (candidate_listed _ _ _ Hx E) as H. rewrite Hc in H. discriminate.
  - apply textTypeOf_not_candidate, E.
Qed.

(** With fewer than three wide boxes the contents branch leaves the
    elements as they are. *)
Lemma tagContents_abstains rest els :
  (length (Template.wideTextBoxes viewportSize viewportRatio rest) < 3)%nat ->
  Template.tagContents viewportSize viewportRatio rest els = els.
Proof.
  intros H. unfold Template.tagContents.
  destruct (Template.contentsRegion viewportSize viewportRatio rest); [reflexivity|].
  apply Nat.ltb_lt in H. rewrite H. reflexivity.
Qed.

Lemma contents_abstains slide t :
  (length (Template.contentsWideTextBoxes viewportSize viewportRatio slide) < 3)%nat ->
  t <> "title"%string ->
  Template.hasTextType
    (Template.autoTagSlideTextTypes viewportSize viewportRatio slide Template.contents)
    t = false.
Proof.
  intros Hw Ht. unfold Template.autoTagSlideTextTypes.
  destruct (Template.getTextCandidates slide) as [|c cs] eqn:Hc.
  - apply not_candidates_no_tag, Hc.
  - rewrite hasTextType_hasTag. cbn [Template.s_elements Template.withElements].
    rewrite tagContents_abstains by exact Hw.
    apply hasTag_tagOpt; [exact Ht|].
    apply no_tag_hasTag. rewrite <- Hc. apply cleared_no_tag.
Qed.

End TaggerFacts.

(* ================================================================== *)
(** * Properties of the scores *)
(* ================================================================== *)

Section ScoreFacts.

Variable viewportSize : Q.
Variable viewportRatio : Q.

Let scoreSlideAs := Template.scoreSlideAs viewportSize viewportRatio.
Let stats := Template.getSlideTextStats viewportSize viewportRatio.

(** The usable candidates of a slide with a single text candidate. *)
Lemma usable_single slide r :
  Template.getTextCandidates slide = [r] ->
  Template.usable (stats slide) =
  if Template.nonEmpty (Template.c_plain (candidateOf r))
     && usableEl viewportSize viewportRatio r
  then [candidateOf r] else [].
Proof.
  intros Hc. unfold stats, Template.getSlideTextStats. rewrite Hc.
  cbn [map Template.usable]. fold (candidateOf r). unfold usableEl.
  cbn [List.filter].
  destruct (Template.nonEmpty _); cbn [List.filter andb]; [|reflexivity].
  destruct (Template.isFooterLikeEl _ _ _); cbn [List.filter andb negb];
    [reflexivity|].
  destruct (Template.isBrandLikeEl _ _ _ _); cbn [List.filter andb negb];
    [reflexivity|].
  destruct (Template.isTooTinyEl _ _ _ _); reflexivity.
Qed.

(** The other statistics are functions of the usable candidates. *)
Lemma stats_of_usable slide :
  let u := Template.usable (stats slide) in
  Template.lowerAll (stats slide) =
    Js.join (Js.js " | ") (map (fun c => Js.toLowerCase (Template.c_plain c)) u) /\
  Template.maxFont (stats slide) =
    fold_left (fun m c => Template.max m (Template.c_font c)) u 0%Q /\
  (Template.listLikeCount (stats slide) <= length u)%nat.
Proof.
  cbn zeta. split; [reflexivity|]. split; [reflexivity|].
  unfold stats, Template.getSlideTextStats. cbn [Template.listLikeCount Template.usable].
  apply List.filter_length_le.
Qed.

Lemma geb_max_0 (x k : Q) :
  (x == 44)%Q -> (k <= 44)%Q -> Template.geb (Template.max 0 x) k = true.
Proof.
  intros Hx Hk. unfold Template.geb, Template.max, Template.leb.
  assert (Qle_bool 0 x = true) as ->.
  { apply Qle_bool_iff. rewrite Hx. discriminate. }
  apply Qle_bool_iff. rewrite Hx. exact Hk.
Qed.

End ScoreFacts.

(** C7: on a slide whose only text reads "Thank You" at font size 44 the
    content score is 0 and the end score is 150, or 20 when the text is
    filtered out as a footer, a brand mark or a tiny box; the end score
    is the higher one in either case. *)
Theorem thank_you_scores_end (viewportSize viewportRatio : Q)
    (slide : Template.Slide) (r : Template.Ref) :
  Template.getTextCandidates slide = [r] ->
  Template.htmlToPlainText (Template.getHtmlText (Template.r_obj r))
    = Js.js "Thank You" ->
  (Template.getMaxFontSizePx (Template.getHtmlText (Template.r_obj r)) == 44)%Q ->
  Template.scoreSlideAs viewportSize viewportRatio slide Template.content = 0%Z /\
  Template.scoreSlideAs viewportSize viewportRatio slide Template.end_ =
    (if usableEl viewportSize viewportRatio r then 150 else 20)%Z /\
  (Template.scoreSlideAs viewportSize viewportRatio slide Template.content <
   Template.scoreSlideAs viewportSize viewportRatio slide Template.end_)%Z.
Proof.
  intros Hc Hp Hf.
  pose proof (usable_single viewportSize viewportRatio slide r Hc) as Hu.
  destruct (stats_of_usable viewportSize viewportRatio slide) as (Hl & Hm & Hn).
  cbv zeta in Hl, Hm, Hn.
  assert (Template.c_plain (candidateOf r) = Js.js "Thank You") as Hp' by exact Hp.
  rewrite Hp' in Hu. cbn [Template.nonEmpty Js.js andb] in Hu.
  unfold Template.scoreSlideAs. cbv zeta.
  rewrite Hl, Hm. clear Hl Hm.
  destruct (usableEl viewportSize viewportRatio r).
  - rewrite Hu in *. cbn [length map fold_left Js.join] in *. rewrite Hp'.
    destruct (Template.listLikeCount _) as [|[|k]]; [| |lia].
    + rewrite (geb_max_0 _ 36) by (exact Hf || discriminate).
      split; [reflexivity|]. split; reflexivity.
    + rewrite (geb_max_0 _ 36) by (exact Hf || discriminate).
      split; [reflexivity|]. split; reflexivity.
  - rewrite Hu in *. cbn [length map fold_left Js.join] in *.
    destruct (Template.listLikeCount _) as [|k]; [|lia].
    split; [reflexivity|]. split; reflexivity.
Qed.

Lemma thank_you_scores_end_witness :
  let r :=
    {| Template.r_at := 0;
       Template.r_obj := textBox 2 100 200 800 120 (para 44 "Thank You") |} in
  Template.getTextCandidates thankYouSlide = [r] /\
  Template.htmlToPlainText (Template.getHtmlText (Template.r_obj r))
    = Js.js "Thank You" /\
  (Template.getMaxFontSizePx (Template.getHtmlText (Template.r_obj r)) == 44)%Q /\
  Template.scoreSlideAs 1000 0.5625 thankYouSlide Template.content = 0%Z /\
  Template.scoreSlideAs 1000 0.5625 thankYouSlide Template.end_ = 150%Z /\
  (Template.scoreSlideAs 1000 0.5625 thankYouSlide Template.content <
   Template.scoreSlideAs 1000 0.5625 thankYouSlide Template.end_)%Z.
Proof.
  intros r.
  split; [reflexivity|]. split; [vm_compute; reflexivity|].
  split; [vm_compute; reflexivity|].
  apply (thank_you_scores_end 1000 0.5625 thankYouSlide r).
  - reflexivity.
  - vm_compute. reflexivity.
  - vm_compute. reflexivity.
Defined.

(* ================================================================== *)
(** * Properties of the role assignment *)
(* ================================================================== *)

Section AssignFacts.

Variable viewportSize : Q.
Variable viewportRatio : Q.

Lemma indexed_snoc (ss : list Template.Slide) (s : Template.Slide) :
  Template.indexed (ss ++ [s]) =
  Template.indexed ss ++ [(Z.of_nat (length ss), s)].
Proof.
  unfold Template.indexed. rewrite imap_app. cbn. rewrite Nat.add_0_r.
  reflexivity.
Qed.

Lemma slideAt_Some ss i s :
  slideAt ss i = Some s <-> (0 <= i)%Z /\ ss !! Z.to_nat i = Some s.
Proof.
  unfold slideAt. destruct (Z.ltb_spec i 0).
  - split; [discriminate|]. intros [? _]. lia.
  - split; [intros H'; split; [assumption|exact H']|intros [_ H']; exact H'].
Qed.

Lemma slideAt_snoc ss s i :
  slideAt (ss ++ [s]) i =
  if (i =? Z.of_nat (length ss))%Z then Some s else slideAt ss i.
Proof.
  unfold slideAt. destruct (Z.ltb_spec i 0) as [Hneg|Hpos].
  - destruct (Z.eqb_spec i (Z.of_nat (length ss))); [lia|reflexivity].
  - destruct (Z.eqb_spec i (Z.of_nat (length ss))) as [->|Hne].
    + rewrite Nat2Z.id. apply list_lookup_middle. reflexivity.
    + destruct (decide (Z.to_nat i < length ss)%nat) as [Hlt|Hge].
      * apply lookup_app_l, Hlt.
      * rewrite !lookup_ge_None_2; [reflexivity|lia|rewrite length_app; cbn; lia].
Qed.

Lemma unclaimedAt_snoc ss s used j :
  unclaimedAt (ss ++ [s]) used j <->
  unclaimedAt ss used j \/ (j = Z.of_nat (length ss) /\ j ∉ used).
Proof.
  unfold unclaimedAt. rewrite slideAt_snoc.
  destruct (Z.eqb_spec j (Z.of_nat (length ss))) as [->|Hne].
  - split.
    + intros [_ H]. right. split; [reflexivity|exact H].
    + intros [[_ H]|[_ H]]; (split; [eexists; reflexivity|exact H]).
  - split.
    + intros H. left. exact H.
    + intros [H|[H _]]; [exact H|contradiction].
Qed.

Lemma unclaimedAt_lt ss used j :
  unclaimedAt ss used j -> (0 <= j < Z.of_nat (length ss))%Z.
Proof.
  intros [[s Hs] _]. apply slideAt_Some in Hs as [Hj Hs].
  apply lookup_lt_Some in Hs. lia.
Qed.

Lemma scoreAt_snoc_old ss s type j :
  (j < Z.of_nat (length ss))%Z ->
  scoreAt viewportSize viewportRatio (ss ++ [s]) type j =
  scoreAt viewportSize viewportRatio ss type j.
Proof.
  intros Hj. unfold scoreAt. rewrite slideAt_snoc.
  destruct (Z.eqb_spec j (Z.of_nat (length ss))); [lia|reflexivity].
Qed.

Lemma scoreAt_snoc_new ss s type :
  scoreAt viewportSize viewportRatio (ss ++ [s]) type (Z.of_nat (length ss)) =
  Some (Template.scoreSlideAs viewportSize viewportRatio s type).
Proof.
  unfold scoreAt. rewrite slideAt_snoc, Z.eqb_refl. reflexivity.
Qed.

Lemma bestOf_spec ss type used :
  bestResult viewportSize viewportRatio ss type used (Template.bestOf viewportSize viewportRatio ss type used).
Proof.
  unfold Template.bestOf. induction ss as [|s ss IH] using rev_ind.
  - cbn. split; [reflexivity|]. intros j Hj. apply unclaimedAt_lt in Hj. cbn in Hj. lia.
  - rewrite indexed_snoc, fold_left_app. cbn [fold_left].
    destruct (fold_left _ (Template.indexed ss) _) as [bi bs].
    set (k := Z.of_nat (length ss)) in *.
    case_bool_decide as Hk.
    + (* the new slide is claimed already *)
      destruct bs as [sb|]; cbn in IH |- *.
      * destruct IH as (Hb & Hsb & Hmax).
        pose proof (unclaimedAt_lt _ _ _ Hb) as Hlt.
        split; [apply unclaimedAt_snoc; left; exact Hb|].
        split; [rewrite scoreAt_snoc_old by lia; exact Hsb|].
        intros j sj Hj Hsj. apply unclaimedAt_snoc in Hj as [Hj|[-> Hj]];
          [|contradiction].
        pose proof (unclaimedAt_lt _ _ _ Hj).
        rewrite scoreAt_snoc_old in Hsj by lia. apply (Hmax j sj Hj Hsj).
      * destruct IH as [-> Hnone]. split; [reflexivity|].
        intros j Hj. apply unclaimedAt_snoc in Hj as [Hj|[-> Hj]];
          [apply (Hnone j Hj)|contradiction].
    + destruct bs as [sb|]; cbn [Template.beats].
      * destruct IH as (Hb & Hsb & Hmax).
        pose proof (unclaimedAt_lt _ _ _ Hb) as Hlt.
        destruct (Z.ltb_spec sb (Template.scoreSlideAs viewportSize viewportRatio s type)) as [Hgt|Hle]; cbn.
        -- (* the new slide beats the best so far *)
           split; [apply unclaimedAt_snoc; right; split; [reflexivity|exact Hk]|].
           split; [apply scoreAt_snoc_new|].
           intros j sj Hj Hsj. apply unclaimedAt_snoc in Hj as [Hj|[-> Hj]].
           ++ pose proof (unclaimedAt_lt _ _ _ Hj).
              rewrite scoreAt_snoc_old in Hsj by lia.
              destruct (Hmax j sj Hj Hsj) as [H1 _].
              split; [lia|intros _; lia].
           ++ fold k in Hsj. unfold k in Hsj. rewrite scoreAt_snoc_new in Hsj.
              injection Hsj as <-. split; [lia|lia].
        -- split; [apply unclaimedAt_snoc; left; exact Hb|].
           split; [rewrite scoreAt_snoc_old by lia; exact Hsb|].
           intros j sj Hj Hsj. apply unclaimedAt_snoc in Hj as [Hj|[-> Hj]].
           ++ pose proof (unclaimedAt_lt _ _ _ Hj).
              rewrite scoreAt_snoc_old in Hsj by lia. apply (Hmax j sj Hj Hsj).
           ++ fold k in Hsj. unfold k in Hsj. rewrite scoreAt_snoc_new in Hsj.
              injection Hsj as <-. split; [lia|lia].
      * destruct IH as [-> Hnone]. cbn.
        split; [apply unclaimedAt_snoc; right; split; [reflexivity|exact Hk]|].
        split; [apply scoreAt_snoc_new|].
        intros j sj Hj Hsj. apply unclaimedAt_snoc in Hj as [Hj|[-> Hj]];
          [destruct (Hnone j Hj)|].
        fold k in Hsj. unfold k in Hsj. rewrite scoreAt_snoc_new in Hsj.
        injection Hsj as <-. split; lia.
Qed.

Lemma indices_seq (ss : list Template.Slide) :
  map fst (Template.indexed ss) = map Z.of_nat (seq 0 (length ss)).
Proof.
  induction ss as [|s ss IH] using rev_ind; [reflexivity|].
  rewrite indexed_snoc, map_app, IH, length_app, seq_app, map_app.
  reflexivity.
Qed.

Lemma unclaimedAt_seq ss used j :
  unclaimedAt ss used j <->
  In j (map Z.of_nat (seq 0 (length ss))) /\ j ∉ used.
Proof.
  unfold unclaimedAt. rewrite in_map_iff.
  split; intros [H Hu]; (split; [|exact Hu]).
  - destruct H as [s Hs]. apply slideAt_Some in Hs as [Hj Hs].
    apply lookup_lt_Some in Hs. exists (Z.to_nat j).
    split; [lia|apply in_seq; lia].
  - destruct H as (i & <- & Hi). apply in_seq in Hi.
    destruct (lookup_lt_is_Some_2 ss i) as [s Hs]; [lia|].
    exists s. apply slideAt_Some. rewrite Nat2Z.id. split; [lia|exact Hs].
Qed.

(** The head of a filtered run of indices is its least member that
    passes the filter. *)
Lemma head_filter_seq (p : Z -> bool) (a n : nat) :
  match head (List.filter p (map Z.of_nat (seq a n))) with
  | Some i =>
      In i (map Z.of_nat (seq a n)) /\ p i = true /\
      forall j, In j (map Z.of_nat (seq a n)) -> p j = true -> (i <= j)%Z
  | None => forall j, In j (map Z.of_nat (seq a n)) -> p j = false
  end.
Proof.
  revert a. induction n as [|n IH]; intros a; cbn [seq map List.filter].
  - intros j [].
  - destruct (p (Z.of_nat a)) eqn:Hp; cbn [head].
    + split; [left; reflexivity|]. split; [exact Hp|].
      intros j [<-|Hj] _; [lia|].
      apply in_map_iff in Hj as (i & <- & Hi). apply in_seq in Hi. lia.
    + specialize (IH (S a)).
      destruct (head (List.filter p (map Z.of_nat (seq (S a) n)))) as [i|].
      * destruct IH as (Hi & Hpi & Hmin). split; [right; exact Hi|].
        split; [exact Hpi|].
        intros j [<-|Hj] Hpj; [congruence|apply Hmin; assumption].
      * intros j [<-|Hj]; [exact Hp|apply IH, Hj].
Qed.

Lemma firstUnused_spec ss used :
  match Template.firstUnused ss used with
  | Some i => firstUnclaimedAt ss used i
  | None => forall j, ~ unclaimedAt ss used j
  end.
Proof.
  unfold Template.firstUnused. rewrite indices_seq.
  pose proof (head_filter_seq (fun i => negb (bool_decide (i ∈ used)))
                0 (length ss)) as H.
  destruct (head _) as [i|].
  - destruct H as (Hi & Hp & Hmin).
    apply negb_true_iff, bool_decide_eq_false in Hp.
    split; [apply unclaimedAt_seq; split; assumption|].
    intros j Hj. apply unclaimedAt_seq in Hj as [Hj Hu].
    apply Hmin; [exact Hj|]. apply negb_true_iff, bool_decide_eq_false, Hu.
  - intros j Hj. apply unclaimedAt_seq in Hj as [Hj Hu].
    specialize (H j Hj). apply negb_false_iff, bool_decide_eq_true in H.
    contradiction.
Qed.

(** Every pick is as the specification words it, or hands out the
    default again when no slide is left. *)
Lemma pickBestIndex_spec ss type fallbackIndex threshold used :
  amendedPick viewportSize viewportRatio ss type fallbackIndex threshold used
    (fst (Template.pickBestIndex viewportSize viewportRatio ss type
            fallbackIndex threshold used))
    (snd (Template.pickBestIndex viewportSize viewportRatio ss type
            fallbackIndex threshold used)).
Proof.
  unfold Template.pickBestIndex.
  pose proof (bestOf_spec ss type used) as Hbest.
  destruct (Template.bestOf viewportSize viewportRatio ss type used) as [bi bs].
  pose proof (firstUnused_spec ss used) as Hfirst.
  fold (defaultAt ss fallbackIndex).
  destruct bs as [sb|]; cbn [bestResult Template.reaches] in *.
  - pose proof Hbest as (Hb & Hsb & Hmax).
    pose proof (unclaimedAt_lt _ _ _ Hb) as Hlt.
    destruct (Z.eqb_spec bi (-1)) as [?|_]; [lia|]. cbn [negb andb].
    destruct (Z.leb_spec threshold sb) as [Hth|Hth]; cbn [fst snd].
    + left. left. exists sb. split; [exact Hbest|]. split; [exact Hth|reflexivity].
    + assert (forall j sj, unclaimedAt ss used j ->
                scoreAt viewportSize viewportRatio ss type j = Some sj ->
                (sj < threshold)%Z) as Hlow.
      { intros j sj Hj Hsj. destruct (Hmax j sj Hj Hsj) as [H _]. lia. }
      case_bool_decide as Hfb; cbn [negb fst snd].
      * destruct (Template.firstUnused ss used) as [i|]; cbn [fst snd].
        -- left. right. split; [exact Hlow|]. right.
           split; [exact Hfb|]. split; [exact Hfirst|reflexivity].
        -- destruct (Hfirst bi Hb).
      * left. right. split; [exact Hlow|]. left.
        split; [exact Hfb|]. split; reflexivity.
  - destruct Hbest as [-> Hnone]. cbn [negb andb Z.eqb].
    assert (forall j sj, unclaimedAt ss used j ->
              scoreAt viewportSize viewportRatio ss type j = Some sj ->
              (sj < threshold)%Z) as Hlow.
    { intros j sj Hj _. destruct (Hnone j Hj). }
    case_bool_decide as Hfb; cbn [negb fst snd].
    + destruct (Template.firstUnused ss used) as [i|]; cbn [fst snd].
      * destruct Hfirst as [Hi _]. destruct (Hnone i Hi).
      * right. split; [exact Hnone|]. split; [exact Hfb|]. split; reflexivity.
    + left. right. split; [exact Hlow|]. left.
      split; [exact Hfb|]. split; reflexivity.
Qed.

End AssignFacts.

(** The four picks of [assignRoles], one after the other. *)
Lemma assignRoles_amended (viewportSize viewportRatio : Q)
    (sourceSlides : list Template.Slide) :
  assignedBy sourceSlides (amendedPick viewportSize viewportRatio sourceSlides)
    (Template.assignRoles viewportSize viewportRatio sourceSlides).
Proof.
  unfold Template.assignRoles, assignedBy.
  set (n := Z.of_nat (length sourceSlides)).
  pose proof (pickBestIndex_spec viewportSize viewportRatio sourceSlides
                Template.end_ (n - 1) 80 ∅) as H1.
  destruct (Template.pickBestIndex _ _ _ Template.end_ _ _ _) as [i1 u1].
  pose proof (pickBestIndex_spec viewportSize viewportRatio sourceSlides
                Template.cover 0 60 u1) as H2.
  destruct (Template.pickBestIndex _ _ _ Template.cover _ _ _) as [i2 u2].
  pose proof (pickBestIndex_spec viewportSize viewportRatio sourceSlides
                Template.contents 1 60 u2) as H3.
  destruct (Template.pickBestIndex _ _ _ Template.contents _ _ _) as [i3 u3].
  pose proof (pickBestIndex_spec viewportSize viewportRatio sourceSlides
                Template.transition 2 50 u3) as H4.
  destruct (Template.pickBestIndex _ _ _ Template.transition _ _ _) as [i4 u4].
  exists u1, u2, u3, u4. cbn [fst snd] in *.
  split; [exact H1|]. split; [exact H2|]. split; [exact H3|exact H4].
Qed.


(* ================================================================== *)
(** * Template slides: tags and placeholders *)
(* ================================================================== *)

Lemma count_tagged_summary (t : string) (els : list Template.PPTElement) :
  Forall (fun s => fst (fst s) = Template.text) (map summary els) ->
  length (tagged t els) =
  length (List.filter (fun s => bool_decide (snd (fst s) = Some t)) (map summary els)).
Proof.
  induction els as [|x els IH]; [reflexivity|].
  cbn [map]. intros H. apply Forall_cons_1 in H as [Hx H].
  unfold tagged in *. cbn [List.filter].
  assert (Template.textTypeOf x = Template.e_textType x) as ->.
  { unfold Template.textTypeOf, Template.isType. cbn in Hx. rewrite Hx.
    reflexivity. }
  cbn [summary fst snd].
  destruct (bool_decide (Template.e_textType x = Some t)); cbn [length];
    rewrite IH by exact H; reflexivity.
Qed.

Lemma tagged_app t els els' : tagged t (els ++ els') = tagged t els ++ tagged t els'.
Proof. apply List.filter_app. Qed.

(** C3: a contents slide on which fewer than three boxes pass the
    list-row filter gets no item and no itemNumber tag from the tagger;
    the synthesizer then appends ten rows, each an itemNumber box and an
    item box with the group identifier drawn for the row, and nothing else
    that carries one of the two tags. *)
Theorem contents_abstains_then_ten_rows
    (viewportSize viewportRatio : Q) (fontName fontColor : Js.jsstring)
    (source : Template.Slide) (n : nat) :
  (length (Template.contentsWideTextBoxes viewportSize viewportRatio source) < 3)%nat ->
  let before := taggedSlide viewportSize viewportRatio source Template.contents in
  let out :=
    fst (Template.templateOf viewportSize viewportRatio fontName fontColor
           source Template.contents n) in
  Template.hasTextType before "item" = false /\
  Template.hasTextType before "itemNumber" = false /\
  exists rows rest,
    Template.s_elements out = Template.s_elements before ++ rows ++ rest /\
    map summary rows = claimedRows n /\
    length (tagged "item" (rows ++ rest)) = 10%nat /\
    length (tagged "itemNumber" (rows ++ rest)) = 10%nat.
Proof.
  intros Hw before out.
  assert (Template.hasTextType before "item" = false) as Hi
    by (apply contents_abstains; [exact Hw|discriminate]).
  assert (Template.hasTextType before "itemNumber" = false) as Hn
    by (apply contents_abstains; [exact Hw|discriminate]).
  split; [exact Hi|]. split; [exact Hn|].
  destruct (ensure_contents_rows viewportSize viewportRatio fontName fontColor
              before n Hi Hn) as (rows & rest & Hels & Hrows & _ & Hri & Hrn).
  exists rows, rest. split; [exact Hels|]. split; [exact Hrows|].
  assert (Forall (fun s => fst (fst s) = Template.text) (map summary rows)) as Htext.
  { rewrite Hrows. unfold claimedRows. cbn. repeat constructor. }
  rewrite !tagged_app, Hri, Hrn, !app_nil_r.
  rewrite !count_tagged_summary by exact Htext. rewrite Hrows.
  split; reflexivity.
Qed.

Lemma contents_abstains_then_ten_rows_witness :
  (length (Template.contentsWideTextBoxes 1000 0.5625 twoRowSlide) < 3)%nat /\
  let before := taggedSlide 1000 0.5625 twoRowSlide Template.contents in
  let out :=
    fst (Template.templateOf 1000 0.5625 (Js.js "Arial") (Js.js "#333")
           twoRowSlide Template.contents 100) in
  Template.hasTextType before "item" = false /\
  Template.hasTextType before "itemNumber" = false /\
  exists rows rest,
    Template.s_elements out = Template.s_elements before ++ rows ++ rest /\
    map summary rows = claimedRows 100 /\
    length (tagged "item" (rows ++ rest)) = 10%nat /\
    length (tagged "itemNumber" (rows ++ rest)) = 10%nat.
Proof.
  split; [vm_compute; lia|].
  apply (contents_abstains_then_ten_rows 1000 0.5625 (Js.js "Arial")
           (Js.js "#333") twoRowSlide 100).
  vm_compute. lia.
Defined.

(** C10: the template slide consists of the tagged slide followed by
    appended boxes; it carries every tag required for its role, and among
    the appended boxes there is one with a required tag exactly when the
    tagged slide lacks that tag. *)
Theorem template_required_tags
    (viewportSize viewportRatio : Q) (fontName fontColor : Js.jsstring)
    (source : Template.Slide) (slideType : Template.SlideType) (n : nat) :
  let before := taggedSlide viewportSize viewportRatio source slideType in
  let out :=
    fst (Template.templateOf viewportSize viewportRatio fontName fontColor
           source slideType n) in
  exists app,
    out = Template.withElements before (Template.s_elements before ++ app) /\
    Forall isBox app /\
    Forall
      (fun t =>
         Template.hasTextType out t = true /\
         hasTag app t = negb (Template.hasTextType before t))
      (requiredTags slideType).
Proof.
  intros before out.
  destruct (ensure_placed viewportSize viewportRatio fontName fontColor
              before slideType n) as (app & Hout & Htags & Hboxes).
  exists app. split; [exact Hout|]. split; [exact Hboxes|].
  eapply Forall_impl; [exact Htags|]. intros t Ht. cbn beta in Ht.
  split; [|exact Ht].
  change (out = Template.withElements before (Template.s_elements before ++ app))
    in Hout.
  rewrite Hout, hasTextType_hasTag. cbn [Template.s_elements Template.withElements].
  rewrite hasTag_app, Ht. apply orb_negb_r.
Qed.

(* ================================================================== *)
(** * Properties of the assembly *)
(* ================================================================== *)

Section AssembleFacts.

Variable viewportSize : Q.
Variable viewportRatio : Q.
Variable fontName : Js.jsstring.
Variable fontColor : Js.jsstring.

Lemma slideAt_app ss more i s :
  slideAt ss i = Some s -> slideAt (ss ++ more) i = Some s.
Proof.
  intros H. apply slideAt_Some in H as [Hi H]. apply slideAt_Some.
  split; [exact Hi|]. apply lookup_app_l_Some, H.
Qed.

Lemma insert_last {A} (l : list A) (x y : A) :
  <[length l := x]> (l ++ [y]) = l ++ [x].
Proof.
  rewrite insert_app_r_alt by lia. rewrite Nat.sub_diag. reflexivity.
Qed.

(** [toTemplateSlide] puts one new object behind the store and leaves
    the others alone. *)
Lemma toTemplateSlide_spec (st : Template.State) i src slideType :
  slideAt (Template.heap st) i = Some src ->
  Template.toTemplateSlide viewportSize viewportRatio fontName fontColor
    i slideType st =
  let r :=
    Template.templateOf viewportSize viewportRatio fontName fontColor
      src slideType (Template.supply st) in
  Some (length (Template.heap st),
        {| Template.heap := Template.heap st ++ [fst r];
           Template.supply := snd r |}).
Proof.
  intros Hsrc. unfold Template.toTemplateSlide, Template.bind at 1.
  unfold Template.read. unfold slideAt in Hsrc.
  destruct (i <? 0)%Z; [discriminate|]. rewrite Hsrc.
  unfold Template.bind at 1, Template.alloc.
  unfold Template.bind, Template.update, Template.ret, Template.gret.
  cbn [Template.heap Template.supply].
  rewrite list_lookup_middle by reflexivity.
  rewrite insert_last.
  cbn [Template.heap Template.supply].
  rewrite list_lookup_middle by reflexivity.
  rewrite insert_last.
  cbn [Template.heap Template.supply].
  rewrite list_lookup_middle by reflexivity.
  unfold Template.templateOf. cbv zeta.
  destruct (Template.ensurePlaceholders _ _ _ _ _ _ _) as [o n'].
  rewrite insert_last.
  reflexivity.
Qed.

Lemma omap_cons {A B} (f : A -> option B) (x : A) (l : list A) :
  omap f (x :: l) =
  match f x with Some y => y :: omap f l | None => omap f l end.
Proof. reflexivity. Qed.

Lemma mapM_content ss idxs :
  forall st pre,
    Template.heap st = ss ++ pre ->
    Forall (fun i => is_Some (slideAt ss i)) idxs ->
    Template.mapM
      (fun s =>
         Template.toTemplateSlide viewportSize viewportRatio fontName fontColor
           s Template.content)
      idxs st =
    let r :=
      contentTemplates viewportSize viewportRatio fontName fontColor
        (omap (slideAt ss) idxs) (Template.supply st) in
    Some (seq (length (Template.heap st)) (length idxs),
          {| Template.heap := Template.heap st ++ fst r;
             Template.supply := snd r |}).
Proof.
  induction idxs as [|i idxs IH]; intros st pre Hheap Hvalid.
  - cbn. rewrite app_nil_r. destruct st; reflexivity.
  - apply Forall_cons_1 in Hvalid as [[src Hsrc] Hvalid].
    cbn [Template.mapM]. unfold Template.bind at 1.
    rewrite (toTemplateSlide_spec st i src); cycle 1.
    { rewrite Hheap. apply slideAt_app, Hsrc. }
    cbv zeta. unfold Template.bind at 1.
    erewrite IH; [|cbn [Template.heap]; rewrite Hheap, <- app_assoc; reflexivity
                  |exact Hvalid].
    rewrite omap_cons, Hsrc.
    cbn [contentTemplates Template.heap Template.supply Template.ret].
    destruct (Template.templateOf _ _ _ _ src Template.content _) as [o n1].
    cbn [fst snd].
    destruct (contentTemplates _ _ _ _ _ n1) as [os n2]. cbn [fst snd length seq].
    rewrite length_app, <- app_assoc. cbn [length app].
    rewrite Nat.add_1_r. reflexivity.
Qed.

Lemma autoTag_type slide slideType :
  Template.s_type
    (Template.autoTagSlideTextTypes viewportSize viewportRatio slide slideType) =
  Template.s_type slide.
Proof.
  unfold Template.autoTagSlideTextTypes.
  destruct (Template.getTextCandidates slide); reflexivity.
Qed.

(** A template slide carries its role. *)
Lemma templateOf_type source slideType n :
  Template.s_type
    (fst (Template.templateOf viewportSize viewportRatio fontName fontColor
            source slideType n)) = Some slideType.
Proof.
  unfold Template.templateOf. cbv zeta.
  destruct (ensure_placed viewportSize viewportRatio fontName fontColor
              (Template.autoTagSlideTextTypes viewportSize viewportRatio
                 (Template.withType (Template.cloneSlide source) slideType)
                 slideType)
              slideType n) as (app & Hout & _).
  rewrite Hout. cbn [Template.withElements Template.s_type].
  apply autoTag_type.
Qed.

Lemma contentTemplates_types sources n :
  map Template.s_type
    (fst (contentTemplates viewportSize viewportRatio fontName fontColor
            sources n)) = repeat (Some Template.content) (length sources).
Proof.
  revert n. induction sources as [|s r IH]; intros n; [reflexivity|].
  cbn [contentTemplates].
  pose proof (templateOf_type s Template.content n) as Ht.
  destruct (Template.templateOf _ _ _ _ s Template.content n) as [o n1].
  specialize (IH n1).
  destruct (contentTemplates _ _ _ _ r n1) as [os n2].
  cbn [fst map length repeat] in *. rewrite Ht, IH. reflexivity.
Qed.

Lemma contentTemplates_length sources n :
  length (fst (contentTemplates viewportSize viewportRatio fontName fontColor
                 sources n)) = length sources.
Proof.
  revert n. induction sources as [|s r IH]; intros n; [reflexivity|].
  cbn [contentTemplates].
  destruct (Template.templateOf _ _ _ _ s Template.content n) as [o n1].
  specialize (IH n1).
  destruct (contentTemplates _ _ _ _ r n1) as [os n2]. cbn in *. lia.
Qed.

Lemma omap_lookup_seq {A} (l : list A) :
  forall pre post,
    omap (fun r => (pre ++ l ++ post) !! r) (seq (length pre) (length l)) = l.
Proof.
  induction l as [|x l IH]; intros pre post; [reflexivity|].
  cbn [length seq]. rewrite omap_cons.
  change ((x :: l) ++ post) with (x :: (l ++ post)).
  rewrite list_lookup_middle by reflexivity. f_equal.
  specialize (IH (pre ++ [x]) post).
  rewrite length_app, Nat.add_1_r, <- app_assoc in IH. exact IH.
Qed.

(** The indices that the pick hands out exist. *)
Lemma amendedPick_valid ss type fallbackIndex threshold used idx used' :
  ss <> [] ->
  amendedPick viewportSize viewportRatio ss type fallbackIndex threshold
    used idx used' ->
  is_Some (slideAt ss idx).
Proof.
  intros Hne Hpick.
  assert (is_Some (slideAt ss (defaultAt ss fallbackIndex))) as Hfb.
  { unfold defaultAt. destruct ss as [|s ss]; [contradiction|].
    cbn [length]. unfold slideAt.
    destruct (Z.ltb_spec (Z.min (Z.max 0 fallbackIndex) (Z.of_nat (S (length ss)) - 1)) 0);
      [lia|].
    apply lookup_lt_is_Some_2. cbn [length]. lia. }
  destruct Hpick as [[(sb & (Hb & _) & _)|(_ & [(_ & -> & _)|(_ & (Hb & _) & _)])]
                    |(_ & _ & -> & _)].
  - apply Hb.
  - exact Hfb.
  - apply Hb.
  - exact Hfb.
Qed.

Lemma sourceSlidesOf_nonempty slides n :
  fst (Template.sourceSlidesOf slides n) <> [].
Proof. destruct slides; cbn; discriminate. Qed.

Lemma omap_unclaimed big (a : Template.Assignment) (l : list (Z * Template.Slide)) :
  Forall (fun p => slideAt big (fst p) = Some (snd p)) l ->
  omap (slideAt big)
    (List.filter
       (fun i =>
          negb (existsb (Z.eqb i)
                  [Template.coverIndex a; Template.contentsIndex a;
                   Template.transitionIndex a; Template.endIndex a]))
       (map fst l)) =
  map snd
    (List.filter
       (fun '(i, _) =>
          negb (bool_decide
                  (i ∈ [Template.coverIndex a; Template.contentsIndex a;
                        Template.transitionIndex a; Template.endIndex a])))
       l).
Proof.
  induction l as [|[i s] l IH]; intros H; [reflexivity|].
  apply Forall_cons_1 in H as [Hi H]. cbn [map fst List.filter].
  assert (existsb (Z.eqb i)
            [Template.coverIndex a; Template.contentsIndex a;
             Template.transitionIndex a; Template.endIndex a] =
          bool_decide
            (i ∈ [Template.coverIndex a; Template.contentsIndex a;
                  Template.transitionIndex a; Template.endIndex a])) as ->.
  { apply eq_true_iff_eq. rewrite existsb_exists, bool_decide_eq_true.
    split.
    - intros (x & Hx & Heq). apply Z.eqb_eq in Heq as ->.
      apply list_elem_of_In, Hx.
    - intros Hx. exists i. split; [apply list_elem_of_In, Hx|apply Z.eqb_refl]. }
  destruct (bool_decide _); cbn [negb].
  - apply IH, H.
  - rewrite omap_cons. cbn [map snd]. cbn in Hi. rewrite Hi. f_equal. apply IH, H.
Qed.

Lemma indexed_slideAt ss :
  Forall (fun p => slideAt ss (fst p) = Some (snd p)) (Template.indexed ss).
Proof.
  apply Forall_forall. intros [i s] Hin.
  unfold Template.indexed in Hin. apply elem_of_lookup_imap in Hin as (k & x & Heq & Hk).
  injection Heq as -> ->. cbn. apply slideAt_Some. rewrite Nat2Z.id.
  split; [lia|exact Hk].
Qed.

Lemma unclaimed_valid ss a :
  Forall (fun i => is_Some (slideAt ss i)) (Template.unclaimed ss a).
Proof.
  apply Forall_forall. intros i Hi. apply list_elem_of_In in Hi.
  unfold Template.unclaimed in Hi. apply filter_In in Hi as [Hi _].
  apply in_map_iff in Hi as ([j s] & <- & Hin).
  pose proof (indexed_slideAt ss) as H. rewrite Forall_forall in H.
  specialize (H (j, s)). cbn in *. rewrite H; [eexists; reflexivity|].
  apply list_elem_of_In, Hin.
Qed.

Lemma omap_valid_length ss idxs :
  Forall (fun i => is_Some (slideAt ss i)) idxs ->
  length (omap (slideAt ss) idxs) = length idxs.
Proof.
  induction idxs as [|i idxs IH]; intros H; [reflexivity|].
  apply Forall_cons_1 in H as [[s Hs] H]. rewrite omap_cons, Hs. cbn.
  rewrite IH by exact H. reflexivity.
Qed.

(** The sources of the content slides are the unclaimed slides, or the
    source of the cover when there is none. *)
Lemma contentSources_slides ss a coverSrc :
  slideAt ss (Template.coverIndex a) = Some coverSrc ->
  Forall (fun i => is_Some (slideAt ss i)) (Template.contentSourcesOf ss a) /\
  omap (slideAt ss) (Template.contentSourcesOf ss a) =
  match unclaimedSlides ss a with
  | [] => [coverSrc]
  | l => l
  end.
Proof.
  intros Hcover. unfold Template.contentSourcesOf.
  pose proof (unclaimed_valid ss a) as Hvalid.
  pose proof (omap_unclaimed ss a _ (indexed_slideAt ss)) as Hslides.
  fold (Template.unclaimed ss a) in Hslides. fold (unclaimedSlides ss a) in Hslides.
  pose proof (omap_valid_length ss _ Hvalid) as Hlen. rewrite Hslides in Hlen.
  destruct (Template.unclaimed ss a) as [|i l] eqn:Hu.
  - split; [constructor; [rewrite Hcover; eexists; reflexivity|constructor]|].
    rewrite omap_cons, Hcover.
    destruct (unclaimedSlides ss a); [reflexivity|discriminate].
  - split; [exact Hvalid|]. rewrite Hslides.
    destruct (unclaimedSlides ss a); [discriminate|reflexivity].
Qed.

Lemma assignRoles_valid ss :
  ss <> [] ->
  let a := Template.assignRoles viewportSize viewportRatio ss in
  is_Some (slideAt ss (Template.coverIndex a)) /\
  is_Some (slideAt ss (Template.contentsIndex a)) /\
  is_Some (slideAt ss (Template.transitionIndex a)) /\
  is_Some (slideAt ss (Template.endIndex a)).
Proof.
  intros Hne a.
  destruct (assignRoles_amended viewportSize viewportRatio ss)
    as (u1 & u2 & u3 & u4 & H1 & H2 & H3 & H4).
  fold a in H1, H2, H3, H4.
  apply amendedPick_valid in H1, H2, H3, H4; try exact Hne.
  repeat split; assumption.
Qed.

(** The run of the assembly on the source slides: it succeeds, the deck
    is the one of the specification, and the store consists of the source
    slides, unchanged, followed by the new objects. *)
Lemma assemble_spec ss n :
  ss <> [] ->
  exists refs st new,
    Template.assemble viewportSize viewportRatio fontName fontColor ss
      {| Template.heap := ss; Template.supply := n |} = Some (refs, st) /\
    Template.heap st = ss ++ new /\
    claimedDeck viewportSize viewportRatio fontName fontColor ss
      (Template.assignRoles viewportSize viewportRatio ss) n
      (omap (fun r => Template.heap st !! r) refs).
Proof.
  intros Hne.
  destruct (assignRoles_valid ss Hne)
    as ([coverSrc Hcover] & [contentsSrc Hcontents] & [transitionSrc Htransition]
        & [endSrc Hend]).
  destruct (contentSources_slides ss _ coverSrc Hcover) as [Hvalid Hsources].
  unfold Template.assemble, claimedDeck.
  set (a := Template.assignRoles viewportSize viewportRatio ss) in *.
  unfold Template.bind at 1.
  rewrite (toTemplateSlide_spec _ _ coverSrc) by exact Hcover.
  cbv zeta. cbn [Template.heap Template.supply].
  destruct (Template.templateOf _ _ _ _ coverSrc Template.cover n) as [c n1] eqn:Ec.
  cbn [fst snd]. unfold Template.bind at 1.
  rewrite (toTemplateSlide_spec _ _ contentsSrc)
    by (apply slideAt_app; exact Hcontents).
  cbv zeta. cbn [Template.heap Template.supply].
  destruct (Template.templateOf _ _ _ _ contentsSrc Template.contents n1) as [k n2]
    eqn:Ek.
  cbn [fst snd]. unfold Template.bind at 1.
  rewrite (toTemplateSlide_spec _ _ transitionSrc)
    by (rewrite <- app_assoc; apply slideAt_app; exact Htransition).
  cbv zeta. cbn [Template.heap Template.supply].
  destruct (Template.templateOf _ _ _ _ transitionSrc Template.transition n2)
    as [tr n3] eqn:Etr.
  cbn [fst snd]. unfold Template.bind at 1.
  rewrite (toTemplateSlide_spec _ _ endSrc)
    by (rewrite <- !app_assoc; apply slideAt_app; exact Hend).
  cbv zeta. cbn [Template.heap Template.supply].
  destruct (Template.templateOf _ _ _ _ endSrc Template.end_ n3) as [e n4] eqn:Ee.
  cbn [fst snd]. unfold Template.bind at 1.
  rewrite (mapM_content ss _ _ [c; k; tr; e]); cycle 1.
  { cbn [Template.heap]. rewrite <- !app_assoc. reflexivity. }
  { exact Hvalid. }
  cbv zeta. cbn [Template.heap Template.supply Template.ret].
  rewrite Hsources.
  pose proof (contentTemplates_length
                match unclaimedSlides ss a with [] => [coverSrc] | l => l end n4)
    as Hlen.
  destruct (contentTemplates _ _ _ _ _ n4) as [cs n5] eqn:Ecs. cbn [fst snd] in *.
  eexists. eexists. exists ([c; k; tr; e] ++ cs).
  split; [reflexivity|]. cbn [Template.heap].
  split; [rewrite <- !app_assoc; reflexivity|].
  exists coverSrc, contentsSrc, transitionSrc, endSrc.
  split; [exact Hcover|]. split; [exact Hcontents|].
  split; [exact Htransition|]. split; [exact Hend|].
  pose proof (templateOf_type coverSrc Template.cover n) as Tc.
  pose proof (templateOf_type contentsSrc Template.contents n1) as Tk.
  pose proof (templateOf_type transitionSrc Template.transition n2) as Ttr.
  pose proof (templateOf_type endSrc Template.end_ n3) as Te.
  pose proof (contentTemplates_types
                match unclaimedSlides ss a with [] => [coverSrc] | l => l end n4)
    as Tcs.
  rewrite Ec, Ek, Etr, Ee, Ecs in *. cbn [fst] in Tc, Tk, Ttr, Te, Tcs.
  match goal with
  | |- ?deck = ?l /\ _ => assert (deck = l) as Hdeck
  end.
  {
    assert (length (Template.contentSourcesOf ss a) = length cs) as ->.
    { rewrite Hlen, <- Hsources. symmetry. apply omap_valid_length, Hvalid. }
    set (H := ((((ss ++ [c]) ++ [k]) ++ [tr]) ++ [e]) ++ cs).
    assert (H !! length ss = Some c) as H0.
    { subst H. rewrite <- !app_assoc. apply list_lookup_middle. reflexivity. }
    assert (H !! length (ss ++ [c]) = Some k) as H1.
    { subst H. rewrite <- (app_assoc (ss ++ [c])), <- (app_assoc (ss ++ [c])),
        <- (app_assoc (ss ++ [c])).
      apply list_lookup_middle. reflexivity. }
    assert (H !! length ((ss ++ [c]) ++ [k]) = Some tr) as H2.
    { subst H. rewrite <- (app_assoc ((ss ++ [c]) ++ [k])),
        <- (app_assoc ((ss ++ [c]) ++ [k])).
      apply list_lookup_middle. reflexivity. }
    assert (H !! length (((ss ++ [c]) ++ [k]) ++ [tr]) = Some e) as H3.
    { subst H. rewrite <- (app_assoc (((ss ++ [c]) ++ [k]) ++ [tr])).
      apply list_lookup_middle. reflexivity. }
    rewrite !omap_app, !omap_cons, H0, H1, H2, H3.
    f_equal. f_equal.
    pose proof (omap_lookup_seq cs ((((ss ++ [c]) ++ [k]) ++ [tr]) ++ [e]) [])
      as Hcs.
    rewrite app_nil_r in Hcs. exact Hcs.
  }
  rewrite Hdeck. split; [reflexivity|].
  split; [|split; [exact Hlen|]].
  - rewrite !map_app. cbn [map]. rewrite Tc, Tk, Ttr, Te, Tcs. reflexivity.
  - rewrite Hlen. destruct (unclaimedSlides ss a); cbn; lia.
Qed.

End AssembleFacts.

(* ================================================================== *)
(** * The parsed objects under translation *)
(* ================================================================== *)

Section SourceFacts.

Local Open Scope R_scope.

Lemma keeps_refl el : keeps el el.
Proof. repeat split. Qed.

Lemma keeps_trans a b c : keeps a b -> keeps b c -> keeps a c.
Proof.
  unfold keeps. intros (?&?&?&?&?&?&?) (?&?&?&?&?&?&?).
  repeat split; congruence.
Qed.

Lemma keeps_scale ratio el : keeps el (Source.scale ratio el).
Proof. repeat split. Qed.

Lemma writesOnly_refl refs st : writesOnly refs st st.
Proof.
  split; [lia|]. intros l el H. exists el.
  split; [exact H|]. split; [apply keeps_refl|reflexivity].
Qed.

Lemma writesOnly_trans refs a b c :
  writesOnly refs a b -> writesOnly refs b c -> writesOnly refs a c.
Proof.
  intros [Hab Fab] [Hbc Fbc]. split; [lia|].
  intros l el Hl. destruct (Fab l el Hl) as (el1 & H1 & K1 & E1).
  destruct (Fbc l el1 H1) as (el2 & H2 & K2 & E2).
  exists el2. split; [exact H2|]. split; [eapply keeps_trans; eassumption|].
  intros Hn. rewrite E2, E1 by exact Hn. reflexivity.
Qed.

Lemma writesOnly_weaken refs refs' st st' :
  (forall r, r ∈ refs -> r ∈ refs') ->
  writesOnly refs st st' -> writesOnly refs' st st'.
Proof.
  intros Hsub [Hlen F]. split; [exact Hlen|].
  intros l el Hl. destruct (F l el Hl) as (el' & H' & K & E).
  exists el'. split; [exact H'|]. split; [exact K|].
  intros Hn. apply E. intros Hin. apply Hn, Hsub, Hin.
Qed.

Lemma insertByOrder_elem st r l x :
  x ∈ Source.insertByOrder st r l -> x = r \/ x ∈ l.
Proof.
  induction l as [|r' l IH]; cbn.
  - intros H. apply list_elem_of_singleton in H. left. exact H.
  - destruct (st !! r), (st !! r'); try destruct (Rle_dec _ _);
      intros H; apply elem_of_cons in H;
      try (destruct H as [->|H]; [left; reflexivity|right; exact H]).
    destruct H as [->|H]; [right; left|].
    destruct (IH H) as [->|H']; [left; reflexivity|right; right; exact H'].
Qed.

Lemma sortByOrder_elem st refs x :
  x ∈ Source.sortByOrder st refs -> x ∈ refs.
Proof.
  unfold Source.sortByOrder. induction refs as [|r refs IH]; cbn.
  - intros H. exact H.
  - intros H. apply insertByOrder_elem in H as [->|H]; [left|right; apply IH, H].
Qed.

(** New objects go behind the old ones, which stay. *)
Lemma allocAll_old st els l el :
  st !! l = Some el -> snd (Source.allocAll st els) !! l = Some el.
Proof. intros H. cbn. apply lookup_app_l_Some, H. Qed.

Lemma allocAll_fresh st els r :
  r ∈ fst (Source.allocAll st els) -> (length st <= r)%nat.
Proof.
  cbn. intros H. apply list_elem_of_In, in_seq in H. lia.
Qed.

(** One round of the loop of [parseElements] on the element [r], given
    what the nested call does. *)
Lemma step_writesOnly ratio r st el children
    (nested : list nat -> Source.Store -> Source.Store) :
  (forall refs st, writesOnly refs st (nested refs st)) ->
  st !! r = Some el ->
  let st1 := <[r := Source.scale ratio el]> st in
  let '(refs', st2) := Source.allocAll st1 children in
  writesOnly [r] st (nested refs' st2).
Proof.
  intros Hnested Hr st1.
  destruct (Source.allocAll st1 children) as [refs' st2] eqn:Ha.
  assert (length st1 = length st) as Hl1 by apply length_insert.
  unfold Source.allocAll in Ha.
  assert (st2 = st1 ++ children) as Hst2 by congruence.
  assert (refs' = seq (length st1) (length children)) as Hrefs by congruence.
  assert (length st1 <= length st2)%nat as Hl2
    by (rewrite Hst2, length_app; lia).
  destruct (Hnested refs' st2) as [Hlen F].
  split.
  - lia.
  - intros l x Hl.
    assert (exists x1, st1 !! l = Some x1 /\ keeps x x1 /\ (l ∉ [r] -> x1 = x))
      as (x1 & Hx1 & K1 & E1).
    { unfold st1. destruct (decide (r = l)) as [->|Hne].
      - exists (Source.scale ratio el).
        rewrite list_lookup_insert_eq by (eapply lookup_lt_Some, Hl).
        rewrite Hr in Hl. injection Hl as <-.
        split; [reflexivity|]. split; [apply keeps_scale|].
        intros Hn. exfalso. apply Hn. left.
      - exists x. rewrite list_lookup_insert_ne by exact Hne.
        split; [exact Hl|]. split; [apply keeps_refl|reflexivity]. }
    assert (st2 !! l = Some x1) as Hx2
      by (rewrite Hst2; apply lookup_app_l_Some, Hx1).
    destruct (F l x1 Hx2) as (x3 & Hx3 & K3 & E3).
    exists x3. split; [exact Hx3|]. split; [eapply keeps_trans; eassumption|].
    intros Hn. rewrite E3, E1; [reflexivity|exact Hn|].
    rewrite Hrefs. intros Hin. apply list_elem_of_In, in_seq in Hin.
    apply lookup_lt_Some in Hx1. lia.
Qed.

Lemma scale_writesOnly ratio r st el :
  st !! r = Some el -> writesOnly [r] st (<[r := Source.scale ratio el]> st).
Proof.
  intros Hr.
  pose proof (step_writesOnly ratio r st el [] (fun _ st => st)
                (fun refs st => writesOnly_refl refs st) Hr) as H.
  cbn in H. rewrite app_nil_r in H. exact H.
Qed.

(** After the round on [r] the object behind [r] is scaled. *)
Lemma step_scales ratio r st el children
    (nested : list nat -> Source.Store -> Source.Store) :
  (forall refs st, writesOnly refs st (nested refs st)) ->
  st !! r = Some el ->
  let st1 := <[r := Source.scale ratio el]> st in
  let '(refs', st2) := Source.allocAll st1 children in
  nested refs' st2 !! r = Some (Source.scale ratio el).
Proof.
  intros Hnested Hr st1. unfold Source.allocAll.
  destruct (Hnested (seq (length st1) (length children)) (st1 ++ children))
    as [_ F].
  assert (st1 !! r = Some (Source.scale ratio el)) as H1.
  { unfold st1. apply list_lookup_insert_eq. eapply lookup_lt_Some, Hr. }
  destruct (F r _ (lookup_app_l_Some _ _ _ _ H1)) as (x & Hx & _ & E).
  rewrite Hx, E; [reflexivity|].
  intros Hin. apply list_elem_of_In, in_seq in Hin.
  apply lookup_lt_Some in H1. lia.
Qed.

Section Visit.

Variable nested : list nat -> Source.Store -> Source.Store.
Variable ratio : R.
Hypothesis nested_writesOnly : forall refs st, writesOnly refs st (nested refs st).

Lemma visit_writesOnly st r : writesOnly [r] st (Source.visit nested ratio st r).
Proof.
  unfold Source.visit.
  destruct (st !! r) as [el|] eqn:Hr; [|apply writesOnly_refl].
  cbv zeta.
  destruct (Source.type el); try (apply scale_writesOnly; exact Hr).
  - match goal with
    | |- context [Source.allocAll _ ?c] =>
        pose proof (step_writesOnly ratio r st el c nested nested_writesOnly Hr)
          as H
    end.
    cbv zeta in H. exact H.
  - match goal with
    | |- context [Source.allocAll _ ?c] =>
        pose proof (step_writesOnly ratio r st el c nested nested_writesOnly Hr)
          as H
    end.
    cbv zeta in H. exact H.
Qed.

Lemma visit_scales st r el :
  st !! r = Some el ->
  Source.visit nested ratio st r !! r = Some (Source.scale ratio el).
Proof.
  intros Hr. unfold Source.visit. rewrite Hr. cbv zeta.
  destruct (Source.type el);
    try (apply list_lookup_insert_eq; eapply lookup_lt_Some, Hr).
  - match goal with
    | |- context [Source.allocAll _ ?c] =>
        pose proof (step_scales ratio r st el c nested nested_writesOnly Hr) as H
    end.
    cbv zeta in H. exact H.
  - match goal with
    | |- context [Source.allocAll _ ?c] =>
        pose proof (step_scales ratio r st el c nested nested_writesOnly Hr) as H
    end.
    cbv zeta in H. exact H.
Qed.

Lemma visits_writesOnly rs :
  forall st, writesOnly rs st (fold_left (Source.visit nested ratio) rs st).
Proof.
  induction rs as [|r rs IH]; intros st; [apply writesOnly_refl|].
  cbn [fold_left]. eapply writesOnly_trans.
  - apply (writesOnly_weaken [r]); [|apply visit_writesOnly].
    intros x Hx. apply list_elem_of_singleton in Hx as ->. left.
  - apply (writesOnly_weaken rs); [|apply IH].
    intros x Hx. right. exact Hx.
Qed.

(** Each object of a list without repetition is scaled once. *)
Lemma visits_scale rs :
  forall st r el,
    NoDup rs -> r ∈ rs -> st !! r = Some el ->
    fold_left (Source.visit nested ratio) rs st !! r =
    Some (Source.scale ratio el).
Proof.
  induction rs as [|a rs IH]; intros st r el Hnd Hin Hr.
  - apply elem_of_nil in Hin. contradiction.
  - apply NoDup_cons in Hnd as [Ha Hnd]. cbn [fold_left].
    destruct (decide (r = a)) as [->|Hne].
    + pose proof (visit_scales st a el Hr) as H1.
      destruct (visits_writesOnly rs (Source.visit nested ratio st a)) as [_ F].
      destruct (F a _ H1) as (x & Hx & _ & E).
      rewrite Hx, E by exact Ha. reflexivity.
    + apply elem_of_cons in Hin as [?|Hin]; [contradiction|].
      apply IH; [exact Hnd|exact Hin|].
      destruct (visit_writesOnly st a) as [_ F].
      destruct (F r el Hr) as (x & Hx & _ & E).
      rewrite Hx, E; [reflexivity|].
      intros H. apply list_elem_of_singleton in H. contradiction.
Qed.

End Visit.

Lemma insertByOrder_perm st r l : Source.insertByOrder st r l ≡ₚ r :: l.
Proof.
  induction l as [|r' l IH]; cbn; [reflexivity|].
  destruct (st !! r), (st !! r'); try destruct (Rle_dec _ _); try reflexivity.
  rewrite IH. apply Permutation_swap.
Qed.

Lemma sortByOrder_perm st refs : Source.sortByOrder st refs ≡ₚ refs.
Proof.
  unfold Source.sortByOrder. induction refs as [|r refs IH]; cbn; [reflexivity|].
  rewrite insertByOrder_perm, IH. reflexivity.
Qed.

(** [parseElements] writes to the objects it is given, and to their
    geometry only. *)
Lemma parseElements_writesOnly fuel ratio :
  forall refs st, writesOnly refs st (Source.parseElements fuel ratio refs st).
Proof.
  induction fuel as [|fuel IH]; intros refs st; [apply writesOnly_refl|].
  cbn [Source.parseElements].
  apply (writesOnly_weaken (Source.sortByOrder st refs));
    [intros r; apply sortByOrder_elem|].
  apply visits_writesOnly, IH.
Qed.

(** With fuel for one round, every object it is given, once, comes out
    scaled. *)
Lemma parseElements_scales fuel ratio refs st r el :
  NoDup refs -> r ∈ refs -> st !! r = Some el ->
  Source.parseElements (S fuel) ratio refs st !! r =
  Some (Source.scale ratio el).
Proof.
  intros Hnd Hin Hr. cbn [Source.parseElements].
  apply visits_scale.
  - apply parseElements_writesOnly.
  - rewrite sortByOrder_perm. exact Hnd.
  - rewrite sortByOrder_perm. exact Hin.
  - exact Hr.
Qed.

End SourceFacts.

(* ================================================================== *)
(** * The template deck and the objects it is made from *)
(* ================================================================== *)

Lemma templateSlides_spec (viewportSize viewportRatio : Q)
    (fontName fontColor : Js.jsstring) (slides : list Template.Slide) (n0 : nat) :
  let sourceSlides := fst (Template.sourceSlidesOf slides n0) in
  let n := snd (Template.sourceSlidesOf slides n0) in
  exists t new,
    Template.templateSlides viewportSize viewportRatio fontName fontColor
      slides n0 = Some t /\
    Template.t_heap t = sourceSlides ++ new /\
    claimedDeck viewportSize viewportRatio fontName fontColor sourceSlides
      (Template.assignRoles viewportSize viewportRatio sourceSlides) n
      (Template.t_slides t).
Proof.
  intros sourceSlides n. unfold Template.templateSlides.
  pose proof (sourceSlidesOf_nonempty slides n0) as Hne.
  fold sourceSlides in Hne.
  destruct (assemble_spec viewportSize viewportRatio fontName fontColor
              sourceSlides n Hne) as (refs & st & new & Hrun & Hheap & Hdeck).
  subst sourceSlides n.
  destruct (Template.sourceSlidesOf slides n0) as [ss n1]. cbn [fst snd] in *.
  rewrite Hrun. eexists. exists new. split; [reflexivity|].
  cbn [Template.t_heap Template.t_slides]. split; [exact Hheap|exact Hdeck].
Qed.


(** C8, as amended: the template slides are new objects behind the
    source slides, which stay as they are; the translation of a parsed
    slide writes to the objects of the slide itself, and to their width,
    height, left and top only, which it multiplies by the ratio. *)
Theorem import_writes (viewportSize viewportRatio : Q)
    (fontName fontColor : Js.jsstring) (slides : list Template.Slide) (n0 : nat)
    (fuel : nat) (ratio : R) (item : Source.SourceSlide) (st : list Source.Element) :
  (exists t new,
     Template.templateSlides viewportSize viewportRatio fontName fontColor
       slides n0 = Some t /\
     Template.t_heap t = fst (Template.sourceSlidesOf slides n0) ++ new) /\
  writesOnly (Source.s_elements item ++ Source.s_layoutElements item) st
    (Source.parseSlide fuel ratio item st) /\
  (forall r el,
     NoDup (Source.s_elements item ++ Source.s_layoutElements item) ->
     r ∈ Source.s_elements item ++ Source.s_layoutElements item ->
     st !! r = Some el ->
     Source.parseSlide (S fuel) ratio item st !! r =
     Some (Source.scale ratio el)).
Proof.
  split; [|split].
  - destruct (templateSlides_spec viewportSize viewportRatio fontName fontColor
                slides n0) as (t & new & Hrun & Hheap & _).
    exists t, new. split; [exact Hrun|exact Hheap].
  - apply parseElements_writesOnly.
  - intros r el Hnd Hin Hr. apply parseElements_scales; assumption.
Qed.

(** C8, as stated, fails at the translation: a parsed text element of
    width 100 has width 200 after its slide has been translated with
    ratio 2. *)
Lemma parseSlide_scales_in_place :
  Source.parseSlide 1 2 parsedSlide [parsedText 100 50 10 20] !! 0%nat =
    Some (Source.scale 2 (parsedText 100 50 10 20)) /\
  ~ readOnly [parsedText 100 50 10 20]
      (Source.parseSlide 1 2 parsedSlide [parsedText 100 50 10 20]).
Proof.
  split; [reflexivity|].
  intros H. specialize (H 0%nat (parsedText 100 50 10 20) eq_refl).
  cbn in H. injection H as Hw _ _ _. lra.
Qed.

(** C1, as amended: the roles are served in the order end, cover,
    contents, transition; each pick claims the first highest scorer among
    the unclaimed slides when its score reaches the threshold of the role,
    and otherwise the positional default, kept inside the deck, or the
    first unclaimed slide when the default is taken; when no slide is left
    it returns the default once more. *)
Theorem assignRoles_picks (viewportSize viewportRatio : Q)
    (sourceSlides : list Template.Slide) :
  assignedBy sourceSlides (amendedPick viewportSize viewportRatio sourceSlides)
    (Template.assignRoles viewportSize viewportRatio sourceSlides).
Proof. apply assignRoles_amended. Qed.

(** C1, as stated, fails on a deck of one slide: the end role claims
    the slide, and for the cover role there is then neither an unclaimed
    highest scorer nor an unclaimed default nor any unclaimed slide. *)
Lemma single_slide_assignment :
  Template.assignRoles 1000 0.5625 [emptySlide] =
    {| Template.endIndex := 0; Template.coverIndex := 0;
       Template.contentsIndex := 0; Template.transitionIndex := 0 |} /\
  ~ assignedBy [emptySlide] (claimedPick 1000 0.5625 [emptySlide])
      (Template.assignRoles 1000 0.5625 [emptySlide]).
Proof.
  assert (Template.assignRoles 1000 0.5625 [emptySlide] =
          {| Template.endIndex := 0; Template.coverIndex := 0;
             Template.contentsIndex := 0; Template.transitionIndex := 0 |}) as Ha
    by (vm_compute; reflexivity).
  split; [exact Ha|]. rewrite Ha.
  intros (u1 & u2 & u3 & u4 & H1 & H2 & _).
  cbn [Template.endIndex Template.coverIndex] in H1, H2.
  assert (0%Z ∈ u1) as Hin.
  { destruct H1 as [(sb & _ & _ & ->)|(_ & [(_ & _ & ->)|(_ & _ & ->)])];
      apply elem_of_union_l, elem_of_singleton; reflexivity. }
  destruct H2 as [(sb & ((_ & Hn) & _) & _)
                 |(_ & [(Hn & _)|(_ & ((_ & Hn) & _) & _)])].
  - contradiction.
  - apply Hn. exact Hin.
  - contradiction.
Qed.

Lemma amendedPick_claims (viewportSize viewportRatio : Q)
    (ss : list Template.Slide) type fallbackIndex threshold
    (used : gset Z) idx (used' : gset Z) :
  amendedPick viewportSize viewportRatio ss type fallbackIndex threshold
    used idx used' ->
  used' ⊆ {[ idx ]} ∪ used.
Proof.
  intros [[(sb & _ & _ & ->)|(_ & [(_ & -> & ->)|(_ & _ & ->)])]|(_ & _ & _ & ->)];
    try reflexivity.
  apply union_subseteq_r.
Qed.

Lemma unclaimed_of_four (ss : list Template.Slide) (used : gset Z) (a b c : Z) :
  (4 <= length ss)%nat ->
  used ⊆ {[ a ]} ∪ {[ b ]} ∪ {[ c ]} ->
  exists j, unclaimedAt ss used j.
Proof.
  intros Hlen Hsub.
  assert (forall j, (0 <= j < 4)%Z -> j ∉ used -> unclaimedAt ss used j) as Hok.
  { intros j Hj Hn. split; [|exact Hn].
    destruct (lookup_lt_is_Some_2 ss (Z.to_nat j)) as [s Hs]; [lia|].
    exists s. apply slideAt_Some. split; [lia|exact Hs]. }
  destruct (decide (0%Z ∈ used)) as [H0|H0]; [|exists 0%Z; apply Hok; [lia|exact H0]].
  destruct (decide (1%Z ∈ used)) as [H1|H1]; [|exists 1%Z; apply Hok; [lia|exact H1]].
  destruct (decide (2%Z ∈ used)) as [H2|H2]; [|exists 2%Z; apply Hok; [lia|exact H2]].
  destruct (decide (3%Z ∈ used)) as [H3|H3]; [|exists 3%Z; apply Hok; [lia|exact H3]].
  exfalso.
  apply Hsub in H0, H1, H2, H3.
  rewrite !elem_of_union, !elem_of_singleton in H0, H1, H2, H3.
  lia.
Qed.

Ltac chase_sets :=
  let x := fresh "x" in
  let Hx := fresh "Hx" in
  intros x Hx;
  repeat match goal with
  | S : ?u ⊆ _, H : _ ∈ ?u |- _ => apply S in H
  | H : _ ∈ _ ∪ _ |- _ => apply elem_of_union in H as [H|H]
  | H : _ ∈ {[ _ ]} |- _ => apply elem_of_singleton in H; subst
  | H : _ ∈ ∅ |- _ => apply elem_of_empty in H; contradiction
  end;
  rewrite ?elem_of_union, ?elem_of_singleton; auto.

(** On a deck of at least four slides an unclaimed slide is left at each
    of the four picks, and the assignment is as the specification words
    it. *)
Lemma assignRoles_four_slides (viewportSize viewportRatio : Q)
    (sourceSlides : list Template.Slide) :
  (4 <= length sourceSlides)%nat ->
  assignedBy sourceSlides (claimedPick viewportSize viewportRatio sourceSlides)
    (Template.assignRoles viewportSize viewportRatio sourceSlides).
Proof.
  intros Hlen.
  destruct (assignRoles_amended viewportSize viewportRatio sourceSlides)
    as (u1 & u2 & u3 & u4 & H1 & H2 & H3 & H4).
  pose proof (amendedPick_claims _ _ _ _ _ _ _ _ _ H1) as S1.
  pose proof (amendedPick_claims _ _ _ _ _ _ _ _ _ H2) as S2.
  pose proof (amendedPick_claims _ _ _ _ _ _ _ _ _ H3) as S3.
  set (a := Template.assignRoles viewportSize viewportRatio sourceSlides) in *.
  exists u1, u2, u3, u4.
  repeat split.
  - destruct H1 as [H1|(Hnone & _)]; [exact H1|].
    destruct (unclaimed_of_four sourceSlides ∅ 0 0 0 Hlen) as [j Hj];
      [chase_sets|destruct (Hnone j Hj)].
  - destruct H2 as [H2|(Hnone & _)]; [exact H2|].
    destruct (unclaimed_of_four sourceSlides u1
                (Template.endIndex a) (Template.endIndex a) (Template.endIndex a)
                Hlen) as [j Hj]; [clear -S1; chase_sets|destruct (Hnone j Hj)].
  - destruct H3 as [H3|(Hnone & _)]; [exact H3|].
    destruct (unclaimed_of_four sourceSlides u2
                (Template.endIndex a) (Template.coverIndex a)
                (Template.coverIndex a) Hlen) as [j Hj];
      [clear -S1 S2; chase_sets|destruct (Hnone j Hj)].
  - destruct H4 as [H4|(Hnone & _)]; [exact H4|].
    destruct (unclaimed_of_four sourceSlides u3
                (Template.endIndex a) (Template.coverIndex a)
                (Template.contentsIndex a) Hlen) as [j Hj];
      [clear -S1 S2 S3; chase_sets|destruct (Hnone j Hj)].
Qed.

(** The deck of the specification: the three slides are taken as cover,
    contents and end; the transition slide is made of the closing slide
    and the content slide of the welcome slide, five slides in all. *)
Example three_slide_deck :
  Template.assignRoles 1000 0.5625 [welcomeSlide; agendaSlide; closingSlide] =
    {| Template.endIndex := 2; Template.coverIndex := 0;
       Template.contentsIndex := 1; Template.transitionIndex := 2 |} /\
  (fun t => map (fun s => (Template.s_id s, Template.s_type s)) (Template.t_slides t))
    <$> Template.templateSlides 1000 0.5625 (Js.js "Arial") (Js.js "#333")
          [welcomeSlide; agendaSlide; closingSlide] 100 =
  Some [ (10, Some Template.cover); (20, Some Template.contents);
         (30, Some Template.transition); (10, Some Template.content);
         (30, Some Template.end_) ]%nat.
Proof. split; vm_compute; reflexivity. Qed.

(* ================================================================== *)
(** * Further properties of the line translation *)
(* ================================================================== *)

Section LineRotation.

Local Open Scope R_scope.

Lemma Rmin_sub (a b : R) : Rmin (a - Rmin a b) (b - Rmin a b) = 0.
Proof. unfold Rmin; repeat destruct Rle_dec; lra. Qed.

Lemma rotateLine_minCorner (line : Line.PPTLineElement) (angleDeg : R) :
  minCorner (Line.r_start (Line.rotateLine line angleDeg))
            (Line.r_end (Line.rotateLine line angleDeg)) = (0, 0).
Proof.
  unfold Line.rotateLine, minCorner.
  destruct (Line.l_start line) as [s0 s1], (Line.l_end line) as [e0 e1].
  cbn [fst snd Line.r_start Line.r_end].
  rewrite !Rmin_sub. reflexivity.
Qed.

(** X2: for every line and every angle, [rotateLine] returns endpoints
    whose bounding box starts at (0, 0): on each axis the smaller of the
    two coordinates is 0, so that no coordinate of a returned endpoint is
    negative. *)
Theorem rotateLine_anchors (line : Line.PPTLineElement) (angleDeg : R) :
  let r := Line.rotateLine line angleDeg in
  minCorner (Line.r_start r) (Line.r_end r) = (0, 0) /\
  0 <= fst (Line.r_start r) /\ 0 <= snd (Line.r_start r) /\
  0 <= fst (Line.r_end r) /\ 0 <= snd (Line.r_end r).
Proof.
  intros r. pose proof (rotateLine_minCorner line angleDeg) as H. fold r in H.
  split; [exact H|].
  unfold minCorner in H. injection H as Hx Hy.
  pose proof (Rmin_l (fst (Line.r_start r)) (fst (Line.r_end r))).
  pose proof (Rmin_r (fst (Line.r_start r)) (fst (Line.r_end r))).
  pose proof (Rmin_l (snd (Line.r_start r)) (snd (Line.r_end r))).
  pose proof (Rmin_r (snd (Line.r_start r)) (snd (Line.r_end r))).
  repeat split; lra.
Qed.

(** The endpoints chosen from the flip flags have their bounding box at
    the origin when the box has a non-negative size. *)
Lemma flipEndpoints_minCorner (el : Line.Shape) :
  0 <= Line.width el -> 0 <= Line.height el ->
  minCorner (fst (Line.flipEndpoints el)) (snd (Line.flipEndpoints el)) = (0, 0).
Proof.
  intros Hw Hh. unfold Line.flipEndpoints, minCorner.
  destruct (Line.isFlipV el), (Line.isFlipH el); cbn [negb andb fst snd];
    f_equal; unfold Rmin; destruct Rle_dec; lra.
Qed.

(** X3: the endpoints of a translated line are relative to the corner
    of their own bounding box: for a line or connector in a box of
    non-negative size, whatever the rotation and the flip flags, the
    smaller coordinate of the two endpoints is 0 on each axis. *)
Theorem parseLineElement_anchored (id : nat) (el : Line.Shape) (ratio : R) :
  0 <= Line.width el -> 0 <= Line.height el ->
  minCorner (Line.l_start (Line.parseLineElement id el ratio))
            (Line.l_end (Line.parseLineElement id el ratio)) = (0, 0).
Proof.
  intros Hw Hh.
  pose proof (parseLineElement_endpoints id el ratio) as H. cbv zeta in H.
  destruct (Req_dec_T (Line.rotate el) 0) as [Hr|Hr].
  - pose proof (flipEndpoints_minCorner el Hw Hh) as Hmin.
    destruct (Line.flipEndpoints el) as [s e]. cbn [fst snd] in Hmin.
    injection H as Hs He. rewrite Hs, He. exact Hmin.
  - injection H as Hs He. rewrite Hs, He. apply rotateLine_minCorner.
Qed.

Lemma parseLineElement_anchored_witness :
  0 <= Line.width (plainLine 10 5 90 true false) /\
  0 <= Line.height (plainLine 10 5 90 true false) /\
  minCorner
    (Line.l_start (Line.parseLineElement 7 (plainLine 10 5 90 true false) 1))
    (Line.l_end (Line.parseLineElement 7 (plainLine 10 5 90 true false) 1))
  = (0, 0).
Proof.
  assert (Hw : 0 <= Line.width (plainLine 10 5 90 true false)) by (simpl; lra).
  assert (Hh : 0 <= Line.height (plainLine 10 5 90 true false)) by (simpl; lra).
  split; [exact Hw|]. split; [exact Hh|].
  exact (parseLineElement_anchored 7 (plainLine 10 5 90 true false) 1 Hw Hh).
Defined.

End LineRotation.

(* ================================================================== *)
(** * Further properties of the parsed objects *)
(* ================================================================== *)

Section SourceOrder.

Local Open Scope R_scope.

Lemma orderAt_Some st r el : st !! r = Some el -> orderAt st r = Source.order el.
Proof. unfold orderAt. intros ->. reflexivity. Qed.

Lemma insertByOrder_ascending st r l :
  is_Some (st !! r) -> Forall (fun x => is_Some (st !! x)) l ->
  ascending st l -> ascending st (Source.insertByOrder st r l).
Proof.
  intros [a Ha]. induction l as [|r' l IH]; intros Hv Hs.
  - cbn. split; constructor.
  - apply Forall_cons in Hv as [[b Hb] Hv]. destruct Hs as [Hr' Hs].
    cbn [Source.insertByOrder]. rewrite Ha, Hb.
    destruct (Rle_dec (Source.order a - Source.order b) 0) as [Hle|Hgt].
    + cbn [ascending]. split; [|split; assumption].
      constructor.
      * rewrite (orderAt_Some _ _ _ Ha), (orderAt_Some _ _ _ Hb). lra.
      * eapply Forall_impl; [exact Hr'|]. cbn. intros x Hx.
        rewrite (orderAt_Some _ _ _ Ha).
        rewrite (orderAt_Some _ _ _ Hb) in Hx. lra.
    + cbn [ascending]. split; [|apply IH; assumption].
      apply Forall_forall. intros x Hx.
      apply insertByOrder_elem in Hx as [->|Hx].
      * rewrite (orderAt_Some _ _ _ Ha), (orderAt_Some _ _ _ Hb). lra.
      * rewrite Forall_forall in Hr'. apply Hr', Hx.
Qed.

Lemma insertByOrder_withOrder st r l c :
  withOrder st c (Source.insertByOrder st r l) = withOrder st c (r :: l).
Proof.
  induction l as [|r' l IH]; [reflexivity|].
  cbn [Source.insertByOrder].
  destruct (st !! r) as [a|] eqn:Ha; [|reflexivity].
  destruct (st !! r') as [b|] eqn:Hb; [|reflexivity].
  destruct (Rle_dec (Source.order a - Source.order b) 0) as [Hle|Hgt];
    [reflexivity|].
  unfold withOrder in *. cbn [List.filter]. rewrite IH. cbn [List.filter].
  rewrite (orderAt_Some _ _ _ Ha), (orderAt_Some _ _ _ Hb).
  destruct (Req_dec_T (Source.order a) c), (Req_dec_T (Source.order b) c);
    try reflexivity.
  exfalso. lra.
Qed.

(** X7: the sort at the head of [parseElements] puts the elements in
    non-decreasing [order] without losing or repeating one, and it is
    stable: elements of the same order stay in the sequence in which the
    parser listed them. *)
Theorem sortByOrder_ascending_stable (st : list Source.Element) (refs : list nat) :
  Forall (fun r => is_Some (st !! r)) refs ->
  ascending st (Source.sortByOrder st refs) /\
  Source.sortByOrder st refs ≡ₚ refs /\
  forall c, withOrder st c (Source.sortByOrder st refs) = withOrder st c refs.
Proof.
  intros Hv. split; [|split].
  - unfold Source.sortByOrder.
    induction Hv as [|r refs Hr Hv IH]; [exact I|].
    cbn [foldr]. apply insertByOrder_ascending; [exact Hr| |exact IH].
    apply Forall_forall. intros x Hx. apply sortByOrder_elem in Hx.
    rewrite Forall_forall in Hv. apply Hv, Hx.
  - apply sortByOrder_perm.
  - intros c. unfold Source.sortByOrder.
    clear Hv. induction refs as [|r refs IH]; [reflexivity|].
    cbn [foldr]. rewrite insertByOrder_withOrder.
    unfold withOrder in *. cbn [List.filter]. rewrite IH. reflexivity.
Qed.

Lemma sortByOrder_ascending_stable_witness :
  let st :=
    [ parsedOf Source.text 2 10 10 0 0 []; parsedOf Source.image 1 10 10 0 0 [];
      parsedOf Source.shape 2 10 10 0 0 [] ] in
  Forall (fun r => is_Some (st !! r)) [0; 1; 2]%nat /\
  ascending st (Source.sortByOrder st [0; 1; 2]%nat) /\
  Source.sortByOrder st [0; 1; 2]%nat ≡ₚ [0; 1; 2]%nat /\
  forall c, withOrder st c (Source.sortByOrder st [0; 1; 2]%nat)
            = withOrder st c [0; 1; 2]%nat.
Proof.
  intros st.
  assert (Hv : Forall (fun r => is_Some (st !! r)) [0; 1; 2]%nat)
    by (repeat constructor; eexists; reflexivity).
  split; [exact Hv|].
  exact (sortByOrder_ascending_stable st [0; 1; 2]%nat Hv).
Defined.

Lemma deref_insert_ne (st : list Source.Element) (r : nat) (v : Source.Element)
    (refs : list nat) :
  r ∉ refs -> Source.deref (<[r := v]> st) refs = Source.deref st refs.
Proof.
  unfold Source.deref. induction refs as [|x refs IH]; intros Hn; [reflexivity|].
  apply not_elem_of_cons in Hn as [Hne Hn].
  cbn. rewrite list_lookup_insert_ne by exact Hne. rewrite IH by exact Hn.
  reflexivity.
Qed.

(** What [parseElements] makes of the copies [children] of the children
    of the group or diagram behind [r]. *)
Lemma nested_children_scaled fuel ratio st r g (children : list Source.Element)
    i c :
  st !! r = Some g ->
  children !! i = Some c ->
  let st1 := <[r := Source.scale ratio g]> st in
  let '(refs', st2) := Source.allocAll st1 children in
  Source.parseElements (S fuel) ratio refs' st2 !! (length st + i)%nat =
  Some (Source.scale ratio c).
Proof.
  intros Hr Hc st1. unfold Source.allocAll.
  assert (length st1 = length st) as Hl by apply length_insert.
  apply parseElements_scales.
  - apply NoDup_ListNoDup, seq_NoDup.
  - apply list_elem_of_In, in_seq. apply lookup_lt_Some in Hc. lia.
  - rewrite <- Hl. rewrite lookup_app_r by lia.
    replace (length st1 + i - length st1)%nat with i by lia. exact Hc.
Qed.

(** X8: the children of a diagram, and of a group that is neither
    rotated nor flipped, are copied, moved by the unscaled position of
    their parent, and the copies are then scaled like every other element:
    the copy of a child ends at (its offset + the parent's position) times
    the ratio, with its size times the ratio, and the parsed child itself
    is not written. *)
Theorem children_offset_then_scaled (fuel : nat) (ratio : R)
    (st : list Source.Element) (r : nat) (g : Source.Element) (i : nat)
    (c : Source.Element) :
  st !! r = Some g ->
  Source.type g = Source.diagram \/
    (Source.type g = Source.group /\ Source.rotate g = 0 /\
     Source.truthy (Source.isFlipH g) = false /\
     Source.truthy (Source.isFlipV g) = false) ->
  r ∉ Source.elements g ->
  Source.deref st (Source.elements g) !! i = Some c ->
  let st' := Source.parseElements (S (S fuel)) ratio [r] st in
  (exists c',
     st' !! (length st + i)%nat = Some c' /\
     Source.left c' = (Source.left c + Source.left g) * ratio /\
     Source.top c' = (Source.top c + Source.top g) * ratio /\
     Source.width c' = Source.width c * ratio /\
     Source.height c' = Source.height c * ratio) /\
  forall l x, l ∈ Source.elements g -> st !! l = Some x -> st' !! l = Some x.
Proof.
  intros Hr Hkind Hnotin Hc st'. split.
  - subst st'. cbn [Source.parseElements].
    change (Source.sortByOrder st [r]) with [r]. cbn [fold_left].
    unfold Source.visit. rewrite Hr. cbv zeta.
    rewrite deref_insert_ne by exact Hnotin.
    destruct Hkind as [Hd|(Hg & Hrot & Hfh & Hfv)].
    + rewrite Hd.
      match goal with
      | |- context [Source.allocAll _ ?ch] =>
          pose proof (nested_children_scaled fuel ratio st r g ch i
                        (Source.diagramChild (Source.left g) (Source.top g) c)
                        Hr) as H
      end.
      cbv zeta in H. unfold Source.allocAll in H |- *.
      eexists. split; [apply H; rewrite list_lookup_fmap, Hc; reflexivity|].
      cbn. repeat split; reflexivity.
    + rewrite Hg, Hfh, Hfv.
      match goal with
      | |- context [Source.allocAll _ ?ch] =>
          pose proof (nested_children_scaled fuel ratio st r g ch i
                        (Source.groupChild g (Source.left g) (Source.top g)
                           (Source.orOne (Source.width g))
                           (Source.orOne (Source.height g)) c)
                        Hr) as H
      end.
      cbv zeta in H. unfold Source.allocAll in H |- *.
      eexists. split; [apply H; rewrite list_lookup_fmap, Hc; reflexivity|].
      unfold Source.groupChild. destruct (Req_dec_T (Source.rotate g) 0);
        [|contradiction].
      cbn. repeat split; reflexivity.
  - intros l x Hl Hx. subst st'.
    destruct (parseElements_writesOnly (S (S fuel)) ratio [r] st) as [_ F].
    destruct (F l x Hx) as (x' & Hx' & _ & E).
    rewrite Hx', E; [reflexivity|].
    intros Hin. apply list_elem_of_singleton in Hin. subst l. contradiction.
Qed.

Lemma children_offset_then_scaled_witness :
  let g := parsedOf Source.group 1 100 50 10 20 [1%nat] in
  let c := parsedOf Source.text 1 30 10 5 5 [] in
  let st := [g; c] in
  let st' := Source.parseElements 2 2 [0%nat] st in
  (exists c',
     st' !! (length st + 0)%nat = Some c' /\
     Source.left c' = (Source.left c + Source.left g) * 2 /\
     Source.top c' = (Source.top c + Source.top g) * 2 /\
     Source.width c' = Source.width c * 2 /\
     Source.height c' = Source.height c * 2) /\
  forall l x, l ∈ Source.elements g -> st !! l = Some x -> st' !! l = Some x.
Proof.
  intros g c st st'.
  refine (children_offset_then_scaled 0 2 st 0 g 0 c eq_refl _ _ eq_refl).
  - right. repeat split; reflexivity.
  - cbn. intros H. apply list_elem_of_singleton in H. discriminate.
Defined.

End SourceOrder.

(* ================================================================== *)
(** * Further properties of the table translation *)
(* ================================================================== *)

Section TableShape.

Local Open Scope nat_scope.

Variable dom : Js.jsstring -> Table.CellDom.
Variable parseInt : Js.jsstring -> R.
Variable toFixed1 : R -> Js.jsstring.
Variable ratio : R.

Local Abbreviation parseCell := (Table.parseCell dom parseInt toFixed1 ratio).
Local Abbreviation parseRow := (Table.parseRow dom parseInt toFixed1 ratio).
Local Abbreviation parseTable := (Table.parseTable dom parseInt toFixed1 ratio).
Local Abbreviation cellsFrom row :=
  (Table.eachM (fun j => Table.andThen (Table.get (row !! j)) parseCell)).

(** A cell is always translated, and draws one identifier. *)
Lemma parseCell_returns (cell : Table.SourceCell) (n : nat) :
  exists ocell, parseCell cell n = Some (ocell, S n) /\ Table.tc_id ocell = n.
Proof. eexists. split; reflexivity. Qed.

(** One round of the inner loop. *)
Lemma cellsFrom_step (row : list Table.SourceCell) (k a n : nat) :
  cellsFrom row (seq a (S k)) n =
  match row !! a with
  | None => None
  | Some cell =>
      match parseCell cell n with
      | Some (ocell, n1) =>
          match cellsFrom row (seq (S a) k) n1 with
          | Some (cells, n2) => Some (ocell :: cells, n2)
          | None => None
          end
      | None => None
      end
  end.
Proof.
  cbn [seq Table.eachM]. unfold Table.andThen at 1 2.
  destruct (row !! a) as [cell|]; [|reflexivity].
  cbn [Table.get Table.unit_].
  destruct (parseCell cell n) as [[ocell n1]|]; [|reflexivity].
  unfold Table.andThen at 1.
  destruct (Table.eachM _ (seq (S a) k) n1) as [[cells n2]|]; reflexivity.
Qed.

(** One round of the outer loop. *)
Lemma rows_step (col : nat) (row : list Table.SourceCell)
    (rows : list (list Table.SourceCell)) (n : nat) :
  Table.eachM (parseRow col) (row :: rows) n =
  match cellsFrom row (seq 0 col) n with
  | Some (cells, n1) =>
      match Table.eachM (parseRow col) rows n1 with
      | Some (data, n2) => Some (cells :: data, n2)
      | None => None
      end
  | None => None
  end.
Proof.
  cbn [Table.eachM]. unfold Table.andThen at 1. unfold Table.parseRow at 1.
  destruct (Table.eachM _ (seq 0 col) n) as [[cells n1]|]; [|reflexivity].
  unfold Table.andThen at 1.
  destruct (Table.eachM _ rows n1) as [[data n2]|]; reflexivity.
Qed.

(** The cells of a row from column [a] on, when the row has them all:
    each draws one identifier. *)
Lemma cellsFrom_returns (row : list Table.SourceCell) (k a n : nat) :
  a + k <= length row ->
  exists cells,
    cellsFrom row (seq a k) n = Some (cells, n + k) /\
    map Table.tc_id cells = seq n k.
Proof.
  revert a n. induction k as [|k IH]; intros a n Hle.
  - exists []. cbn. rewrite Nat.add_0_r. split; reflexivity.
  - destruct (lookup_lt_is_Some_2 row a ltac:(lia)) as [cell Ha].
    destruct (IH (S a) (S n) ltac:(lia)) as (cells & Hcells & Hids).
    destruct (parseCell_returns cell n) as (ocell & Hcell & Hid).
    exists (ocell :: cells). rewrite cellsFrom_step, Ha, Hcell, Hcells.
    rewrite <- Nat.add_succ_comm.
    split; [reflexivity|]. cbn. rewrite Hid, Hids. reflexivity.
Qed.

(** Reading a cell that the row does not have throws. *)
Lemma cellsFrom_throws (row : list Table.SourceCell) (k a n : nat) :
  a <= length row -> length row < a + k ->
  cellsFrom row (seq a k) n = None.
Proof.
  revert a n. induction k as [|k IH]; intros a n Ha Hlt; [lia|].
  rewrite cellsFrom_step.
  destruct (row !! a) as [cell|] eqn:Hcell; [|reflexivity].
  apply lookup_lt_Some in Hcell.
  destruct (parseCell_returns cell n) as (ocell & -> & _).
  rewrite IH by lia. reflexivity.
Qed.

Lemma rows_return (col : nat) (rows : list (list Table.SourceCell)) (n : nat) :
  Forall (fun row => col <= length row) rows ->
  exists data,
    Table.eachM (parseRow col) rows n = Some (data, n + length rows * col) /\
    cellIds data = seq n (length rows * col) /\
    length data = length rows /\
    Forall (fun orow => length orow = col) data.
Proof.
  intros Hrows. revert n.
  induction Hrows as [|row rows Hrow Hrows IH]; intros n.
  - exists []. cbn. rewrite Nat.add_0_r. repeat split. constructor.
  - destruct (cellsFrom_returns row col 0 n Hrow) as (cells & Hcells & Hids).
    destruct (IH (n + col)) as (data & Hdata & Hall & Hlen & Hshape).
    exists (cells :: data). rewrite rows_step, Hcells, Hdata.
    split; [f_equal; f_equal; cbn; lia|]. split; [|split].
    + unfold cellIds in *. cbn [map concat]. rewrite Hids, Hall.
      cbn [length].
      replace (S (length rows) * col) with (col + length rows * col) by lia.
      symmetry. apply seq_app.
    + cbn. rewrite Hlen. reflexivity.
    + constructor; [|exact Hshape].
      rewrite <- (length_map Table.tc_id), Hids. apply length_seq.
Qed.

Lemma rows_throw (col : nat) (rows : list (list Table.SourceCell)) (n : nat) :
  Exists (fun row => length row < col) rows ->
  Table.eachM (parseRow col) rows n = None.
Proof.
  intros Hex. revert n.
  induction Hex as [row rows Hrow|row rows Hex IH]; intros n.
  - rewrite rows_step, cellsFrom_throws by lia. reflexivity.
  - rewrite rows_step.
    destruct (cellsFrom row (seq 0 col) n) as [[cells n1]|]; [|reflexivity].
    rewrite IH. reflexivity.
Qed.

(** The table that [parseTable] returns when the rows have their cells. *)
Lemma parseTable_returns (el : Table.SourceTable) (n : nat) :
  0 < columnsOf el ->
  Forall (fun row => columnsOf el <= length row) (Table.t_data el) ->
  exists out,
    let cells := length (Table.t_data el) * columnsOf el in
    parseTable el n = Some (out, S (n + cells)) /\
    Table.e_id out = n + cells /\
    cellIds (Table.e_data out) = seq n cells /\
    length (Table.e_data out) = length (Table.t_data el) /\
    Forall (fun orow => length orow = columnsOf el) (Table.e_data out).
Proof.
  intros Hcol Hrows. unfold columnsOf in *.
  destruct (Table.t_data el !! 0) as [row0|] eqn:H0; [|cbn in Hcol; lia].
  cbn in Hcol, Hrows |- *.
  destruct (rows_return (length row0) (Table.t_data el) n Hrows)
    as (data & Hdata & Hids & Hlen & Hshape).
  destruct (lookup_lt_is_Some_2 row0 0 Hcol) as [firstCell Hfirst].
  eexists. cbv zeta. unfold Table.parseTable.
  rewrite H0. unfold Table.andThen at 1. cbn [Table.get Table.unit_].
  unfold Table.andThen at 1. rewrite Hdata.
  rewrite Hfirst. unfold Table.andThen at 1. cbn [Table.get Table.unit_].
  unfold Table.andThen, Table.newId, Table.unit_.
  split; [reflexivity|]. cbn [Table.e_id Table.e_data].
  repeat split; assumption.
Qed.

(** X9: [parseTable] throws exactly on a table without rows, on one
    whose first row has no cell, and on one with a row shorter than the
    first; in every other case it returns a table. *)
Theorem parseTable_returns_iff (el : Table.SourceTable) (n : nat) :
  is_Some (parseTable el n) <->
  0 < columnsOf el /\
  Forall (fun row => columnsOf el <= length row) (Table.t_data el).
Proof.
  split.
  - intros [[out n'] H]. unfold Table.parseTable in H.
    apply andThen_Some in H as (row0 & n1 & Hrow0 & H).
    apply get_Some in Hrow0 as [Hrow0 ->].
    apply andThen_Some in H as (data & n2 & Hdata & H).
    apply andThen_Some in H as (firstCell & n3 & Hfirst & H).
    apply get_Some in Hfirst as [Hfirst ->].
    unfold columnsOf. rewrite Hrow0. cbn. split.
    + eapply lookup_lt_Some, Hfirst.
    + apply Forall_forall. intros row Hin.
      destruct (Nat.le_gt_cases (length row0) (length row)) as [Hle|Hgt];
        [exact Hle|].
      rewrite (rows_throw (length row0) (Table.t_data el) n) in Hdata;
        [discriminate|].
      apply Exists_exists. exists row. split; [exact Hin|exact Hgt].
  - intros [Hcol Hrows].
    destruct (parseTable_returns el n Hcol Hrows) as (out & H & _).
    rewrite H. eexists. reflexivity.
Qed.

(** X10: a translated table is a rectangle: it has the rows of the
    source, each with as many cells as the first source row has (the cells
    beyond that are dropped); every cell draws one identifier, row after
    row, and the table draws the one after them, so that no two of them
    are the same. *)
Theorem parseTable_rectangle (el : Table.SourceTable) (n : nat)
    (out : Table.PPTTableElement) (n' : nat) :
  parseTable el n = Some (out, n') ->
  let cells := length (Table.t_data el) * columnsOf el in
  length (Table.e_data out) = length (Table.t_data el) /\
  Forall (fun orow => length orow = columnsOf el) (Table.e_data out) /\
  cellIds (Table.e_data out) = seq n cells /\
  Table.e_id out = n + cells /\
  n' = S (n + cells) /\
  NoDup (Table.e_id out :: cellIds (Table.e_data out)).
Proof.
  intros H cells.
  assert (is_Some (parseTable el n)) as Hsome by (rewrite H; eexists; reflexivity).
  apply parseTable_returns_iff in Hsome as [Hcol Hrows].
  destruct (parseTable_returns el n Hcol Hrows)
    as (out' & H' & Hid & Hids & Hlen & Hshape).
  cbv zeta in H'. rewrite H in H'. injection H' as <- ->.
  fold cells in Hid, Hids.
  repeat split; try assumption.
  rewrite Hid, Hids. apply NoDup_cons. split.
  - intros Hin. apply list_elem_of_In, in_seq in Hin. lia.
  - apply NoDup_ListNoDup, seq_NoDup.
Qed.

End TableShape.

Lemma parseTable_rectangle_witness :
  exists out n',
    sampleParseTable
      (tableOf [[cellOf None None; cellOf None None];
                [cellOf None None; cellOf None None; cellOf None None]]
         [100%R; 300%R]) 5 = Some (out, n') /\
    length (Table.e_data out) = 2%nat /\
    Forall (fun orow => length orow = 2%nat) (Table.e_data out) /\
    cellIds (Table.e_data out) = seq 5 4 /\
    Table.e_id out = 9%nat /\
    n' = 10%nat /\
    NoDup (Table.e_id out :: cellIds (Table.e_data out)).
Proof.
  eexists. eexists. split; [cbn; reflexivity|].
  refine (parseTable_rectangle noDom (fun _ => 0%R) (fun _ => []) 1%R
            (tableOf [[cellOf None None; cellOf None None];
                      [cellOf None None; cellOf None None; cellOf None None]]
               [100%R; 300%R]) 5 _ _ _).
  cbn; reflexivity.
Defined.

(* ================================================================== *)
(** * Properties of the text functions *)
(* ================================================================== *)

Section StringFacts.

Lemma span_app (f : N -> bool) (s : Js.jsstring) :
  fst (Js.span f s) ++ snd (Js.span f s) = s.
Proof.
  induction s as [|c r IH]; [reflexivity|].
  cbn [Js.span]. destruct (f c); [|reflexivity].
  destruct (Js.span f r) as [a b]. cbn in *. rewrite IH. reflexivity.
Qed.

Lemma span_fst_all (f : N -> bool) (s : Js.jsstring) :
  Forall (fun c => f c = true) (fst (Js.span f s)).
Proof.
  induction s as [|c r IH]; [constructor|].
  cbn [Js.span]. destruct (f c) eqn:Hc; [|constructor].
  destruct (Js.span f r) as [a b]. cbn in *. constructor; assumption.
Qed.

Lemma span_snd_head (f : N -> bool) (s : Js.jsstring) (c : N) :
  head (snd (Js.span f s)) = Some c -> f c = false.
Proof.
  induction s as [|d r IH]; [discriminate|].
  cbn [Js.span]. destruct (f d) eqn:Hd.
  - destruct (Js.span f r) as [a b]. cbn in *. exact IH.
  - cbn. intros [= <-]. exact Hd.
Qed.

Lemma span_drop (f : N -> bool) (s : Js.jsstring) :
  drop (length (fst (Js.span f s))) s = snd (Js.span f s).
Proof.
  rewrite <- (span_app f s) at 2. rewrite drop_app_length. reflexivity.
Qed.

Lemma span_snd_length (f : N -> bool) (s : Js.jsstring) :
  (length (snd (Js.span f s)) <= length s)%nat.
Proof.
  rewrite <- (span_app f s) at 2. rewrite length_app. lia.
Qed.

(** Skipping the units of a match is dropping them. *)
Lemma replaceAll_skip (m : Js.Matcher unit) (rep : Js.jsstring) (k : nat)
    (s : Js.jsstring) :
  Js.replaceAll m rep k s = Js.replaceAll m rep 0 (drop k s).
Proof.
  revert k. induction s as [|c r IH]; intros k.
  - rewrite drop_nil. destruct k; reflexivity.
  - destruct k as [|k]; [reflexivity|]. cbn [Js.replaceAll drop]. apply IH.
Qed.

Lemma replaceAll_cons (m : Js.Matcher unit) (rep : Js.jsstring) (c : N)
    (r : Js.jsstring) :
  Js.replaceAll m rep 0 (c :: r) =
  match m (c :: r) with
  | Some (S k, _) => rep ++ Js.replaceAll m rep 0 (drop k r)
  | _ => c :: Js.replaceAll m rep 0 r
  end.
Proof.
  cbn [Js.replaceAll]. destruct (m (c :: r)) as [[[|k] u]|]; try reflexivity.
  rewrite replaceAll_skip. reflexivity.
Qed.

(** A run of white space becomes one blank. *)
Lemma squeeze_cons (c : N) (r : Js.jsstring) :
  Js.replaceAll Js.reSpaces (Js.js " ") 0 (c :: r) =
  if Js.isSpace c
  then 32%N :: Js.replaceAll Js.reSpaces (Js.js " ") 0 (snd (Js.span Js.isSpace r))
  else c :: Js.replaceAll Js.reSpaces (Js.js " ") 0 r.
Proof.
  rewrite replaceAll_cons. unfold Js.reSpaces. cbn [Js.span].
  destruct (Js.isSpace c); [|reflexivity].
  destruct (Js.span Js.isSpace r) as [a b] eqn:E. cbn [fst snd length].
  replace b with (snd (Js.span Js.isSpace r)) by (rewrite E; reflexivity).
  replace a with (fst (Js.span Js.isSpace r)) by (rewrite E; reflexivity).
  rewrite span_drop. reflexivity.
Qed.

Lemma squeeze_spec (n : nat) :
  forall s, (length s <= n)%nat ->
    let out := Js.replaceAll Js.reSpaces (Js.js " ") 0 s in
    singleSpaced out /\
    (forall c, head s = Some c -> Js.isSpace c = false ->
               head out = Some c) /\
    (s = [] -> out = []).
Proof.
  induction n as [|n IH]; intros s Hlen.
  - destruct s; [|cbn in Hlen; lia]. cbn. repeat split; discriminate.
  - destruct s as [|c r]; [cbn; repeat split; discriminate|].
    cbn [length] in Hlen. cbv zeta. rewrite squeeze_cons.
    destruct (Js.isSpace c) eqn:Hc.
    + pose proof (span_snd_length Js.isSpace r) as Hl.
      destruct (IH (snd (Js.span Js.isSpace r)) ltac:(lia)) as (Hs & Hh & He).
      cbv zeta in Hs, Hh, He. split; [|split].
      * cbn [singleSpaced]. split; [|exact Hs].
        intros _. split; [reflexivity|].
        destruct (snd (Js.span Js.isSpace r)) as [|d t] eqn:E.
        -- rewrite He by reflexivity. exact I.
        -- assert (Js.isSpace d = false) as Hd.
           { apply (span_snd_head Js.isSpace r). rewrite E. reflexivity. }
           pose proof (Hh d eq_refl Hd) as Hhd.
           destruct (Js.replaceAll Js.reSpaces (Js.js " ") 0 (d :: t));
             [exact I|].
           cbn in Hhd. injection Hhd as ->. exact Hd.
      * cbn. intros d [= <-] Hd. congruence.
      * discriminate.
    + destruct (IH r ltac:(lia)) as (Hs & Hh & He). cbv zeta in Hs, Hh, He.
      split; [|split].
      * cbn [singleSpaced]. split; [|exact Hs]. intros Hc'. congruence.
      * cbn. intros d [= <-] _. reflexivity.
      * discriminate.
Qed.

Lemma singleSpaced_app (a b : Js.jsstring) :
  singleSpaced (a ++ b) -> singleSpaced a /\ singleSpaced b.
Proof.
  induction a as [|c a IH]; [cbn; auto|].
  cbn [app singleSpaced]. intros [Hc Hr]. destruct (IH Hr) as [Ha Hb].
  split; [|exact Hb]. split; [|exact Ha].
  intros Hsp. destruct (Hc Hsp) as [-> Hn]. split; [reflexivity|].
  destruct a; [exact I|exact Hn].
Qed.

Lemma last_rev {A} (l : list A) : last (rev l) = head l.
Proof. destruct l as [|x l]; [reflexivity|]. cbn. apply last_snoc. Qed.

(** [trim] keeps the middle of the text, between two runs of white
    space. *)
Lemma trim_middle (s : Js.jsstring) :
  exists a b,
    s = a ++ Js.trim s ++ b /\ trimmed (Js.trim s).
Proof.
  unfold Js.trim, Js.trimStart.
  set (s1 := snd (Js.span Js.isSpace s)).
  set (w2 := fst (Js.span Js.isSpace (rev s1))).
  set (t := snd (Js.span Js.isSpace (rev s1))).
  exists (fst (Js.span Js.isSpace s)), (rev w2).
  assert (s1 = rev t ++ rev w2) as H1.
  { rewrite <- rev_app_distr. unfold w2, t. rewrite span_app.
    symmetry. apply rev_involutive. }
  split.
  - rewrite <- H1. symmetry. apply span_app.
  - split.
    + intros c Hc. apply (span_snd_head Js.isSpace s). fold s1. rewrite H1.
      destruct (rev t); [discriminate|]. exact Hc.
    + intros c Hc. apply (span_snd_head Js.isSpace (rev s1)). fold t.
      rewrite <- last_rev. exact Hc.
Qed.

Lemma existsb_app_false {A} (p : A -> bool) (a b : list A) :
  existsb p (a ++ b) = false -> existsb p a = false /\ existsb p b = false.
Proof. rewrite existsb_app. apply orb_false_elim. Qed.

Lemma noTag_app (a b : Js.jsstring) :
  noTag (a ++ b) = true -> noTag a = true /\ noTag b = true.
Proof.
  induction a as [|c a IH]; [cbn; auto|].
  cbn [app noTag]. intros H. apply andb_prop in H as [Hc Hr].
  destruct (IH Hr) as [Ha Hb]. split; [|exact Hb].
  rewrite Ha, andb_true_r.
  destruct (c =? 60)%N; [|reflexivity]. cbn [negb orb] in *.
  apply negb_true_iff in Hc. apply existsb_app_false in Hc as [-> _].
  reflexivity.
Qed.

(** The tag expression matches at a [<] only. *)
Lemma reTag_cons (c : N) (r : Js.jsstring) :
  Js.reTag (c :: r) =
  if (c =? 60)%N then
    match snd (Js.span (fun c => negb (c =? 62)%N) r) with
    | 62%N :: _ =>
        Some (S (S (length (fst (Js.span (fun c => negb (c =? 62)%N) r)))), tt)
    | _ => None
    end
  else None.
Proof.
  destruct (N.eqb_spec c 60) as [->|Hne].
  - unfold Js.reTag.
    destruct (Js.span (fun c => negb (c =? 62)%N) r) as [inner r1].
    cbn [fst snd]. rewrite Nat.add_comm. reflexivity.
  - unfold Js.reTag.
    destruct c as [|p]; [reflexivity|].
    do 6 (try (destruct p as [p|p|]; try reflexivity)).
    congruence.
Qed.

(** What follows the units other than [>] is empty or starts with a
    [>]. *)
Lemma span_to_close (r : Js.jsstring) :
  match snd (Js.span (fun c => negb (c =? 62)%N) r) with
  | [] => existsb (N.eqb 62) r = false
  | c :: _ => c = 62%N
  end.
Proof.
  induction r as [|d r IH]; [reflexivity|].
  cbn [Js.span]. destruct (N.eqb_spec d 62) as [->|Hne]; cbn [negb].
  - reflexivity.
  - destruct (Js.span (fun c => negb (c =? 62)%N) r) as [a b].
    cbn [fst snd] in *. destruct b as [|c b]; [|exact IH].
    cbn [existsb]. rewrite IH, orb_false_r. apply N.eqb_neq. congruence.
Qed.

(** Removing the matches of an expression adds no unit. *)
Lemma removed_subseq (m : Js.Matcher unit) (p : N -> bool) (n : nat) :
  forall s, (length s <= n)%nat ->
    existsb p (Js.replaceAll m [] 0 s) = true -> existsb p s = true.
Proof.
  induction n as [|n IH]; intros s Hlen.
  - destruct s; [|cbn in Hlen; lia]. cbn. auto.
  - destruct s as [|c r]; [cbn; auto|]. cbn [length] in Hlen.
    rewrite replaceAll_cons.
    destruct (m (c :: r)) as [[[|k] u]|]; cbn [existsb app].
    + intros H. apply orb_prop in H as [->|H]; [reflexivity|].
      rewrite (IH r) by (lia || exact H). apply orb_true_r.
    + intros H. apply IH in H; [|rewrite length_drop; lia].
      apply orb_true_iff. right.
      rewrite <- (take_drop k r), existsb_app, H. apply orb_true_r.
    + intros H. apply orb_prop in H as [->|H]; [reflexivity|].
      rewrite (IH r) by (lia || exact H). apply orb_true_r.
Qed.

Lemma strip_noTag (n : nat) :
  forall s, (length s <= n)%nat -> noTag (Js.replaceAll Js.reTag [] 0 s) = true.
Proof.
  induction n as [|n IH]; intros s Hlen.
  - destruct s; [reflexivity|cbn in Hlen; lia].
  - destruct s as [|c r]; [reflexivity|]. cbn [length] in Hlen.
    rewrite replaceAll_cons, reTag_cons.
    destruct (N.eqb_spec c 60) as [->|Hne].
    + pose proof (span_to_close r) as Hclose.
      pose proof (span_drop (fun c => negb (c =? 62)%N) r) as Hdrop.
      pose proof (span_snd_length (fun c => negb (c =? 62)%N) r) as Hl.
      destruct (snd (Js.span (fun c => negb (c =? 62)%N) r)) as [|d r1].
      * cbn [noTag]. rewrite (IH r) by lia. rewrite andb_true_r. cbn.
        destruct (existsb (N.eqb 62) (Js.replaceAll Js.reTag [] 0 r)) eqn:E;
          [|reflexivity].
        apply (removed_subseq _ _ (length r)) in E; [congruence|lia].
      * subst d. cbn [app]. apply IH.
        (* behind the closing [>] *)
        replace (drop (S (length (fst (Js.span (fun c => negb (c =? 62)%N) r)))) r)
          with r1.
        -- cbn [length] in Hl. lia.
        -- rewrite <- Nat.add_1_r, <- drop_drop, Hdrop. reflexivity.
    + cbn [noTag]. rewrite (IH r) by lia.
      destruct (N.eqb_spec c 60) as [E|_]; [congruence|]. reflexivity.
Qed.

(** Squeezing the white space adds blanks only. *)
Lemma squeezed_units (p : N -> bool) (n : nat) :
  p 32%N = false ->
  forall s, (length s <= n)%nat ->
    existsb p (Js.replaceAll Js.reSpaces (Js.js " ") 0 s) = true ->
    existsb p s = true.
Proof.
  intros Hp. induction n as [|n IH]; intros s Hlen.
  - destruct s; [|cbn in Hlen; lia]. cbn. auto.
  - destruct s as [|c r]; [cbn; auto|]. cbn [length] in Hlen.
    rewrite squeeze_cons. destruct (Js.isSpace c).
    + cbn [existsb]. rewrite Hp. cbn [orb]. intros H.
      pose proof (span_snd_length Js.isSpace r) as Hl.
      apply IH in H; [|lia].
      apply orb_true_iff. right.
      rewrite <- (span_app Js.isSpace r), existsb_app, H. apply orb_true_r.
    + cbn [existsb]. intros H. apply orb_prop in H as [->|H]; [reflexivity|].
      rewrite (IH r) by (lia || exact H). apply orb_true_r.
Qed.

Lemma squeeze_noTag (n : nat) :
  forall s, (length s <= n)%nat -> noTag s = true ->
    noTag (Js.replaceAll Js.reSpaces (Js.js " ") 0 s) = true.
Proof.
  induction n as [|n IH]; intros s Hlen Hs.
  - destruct s; [reflexivity|cbn in Hlen; lia].
  - destruct s as [|c r]; [reflexivity|]. cbn [length] in Hlen.
    cbn [noTag] in Hs. apply andb_prop in Hs as [Hc Hr].
    rewrite squeeze_cons. destruct (Js.isSpace c).
    + cbn [noTag]. cbn [N.eqb Pos.eqb negb orb andb].
      pose proof (span_snd_length Js.isSpace r) as Hl.
      apply IH; [lia|].
      rewrite <- (span_app Js.isSpace r) in Hr. apply noTag_app in Hr as [_ Hr].
      exact Hr.
    + cbn [noTag]. rewrite (IH r) by (lia || exact Hr). rewrite andb_true_r.
      destruct (c =? 60)%N; [|reflexivity]. cbn [negb orb] in *.
      apply negb_true_iff in Hc. apply negb_true_iff.
      destruct (existsb (N.eqb 62) (Js.replaceAll Js.reSpaces (Js.js " ") 0 r))
        eqn:E; [|reflexivity].
      apply (squeezed_units _ (length r)) in E; [congruence|reflexivity|lia].
Qed.

Lemma noTag_test (s : Js.jsstring) :
  noTag s = true -> Js.test Js.reTag s = false.
Proof.
  induction s as [|c r IH]; [reflexivity|].
  cbn [noTag]. intros H. apply andb_prop in H as [Hc Hr].
  cbn [Js.test]. rewrite reTag_cons.
  destruct (c =? 60)%N; [|apply IH, Hr]. cbn [negb orb] in Hc.
  apply negb_true_iff in Hc.
  pose proof (span_to_close r) as Hclose.
  pose proof (span_app (fun c => negb (c =? 62)%N) r) as Happ.
  destruct (snd (Js.span (fun c => negb (c =? 62)%N) r)) as [|d r1].
  - apply IH, Hr.
  - subst d. exfalso.
    rewrite <- Happ, existsb_app in Hc. cbn [existsb] in Hc.
    rewrite N.eqb_refl, orb_true_r in Hc. discriminate.
Qed.

(** An expression that matches nowhere in a text leaves it alone. *)
Lemma replaceAll_none (m : Js.Matcher unit) (rep : Js.jsstring) (s : Js.jsstring) :
  (forall k, m (drop k s) = None) -> Js.replaceAll m rep 0 s = s.
Proof.
  induction s as [|c r IH]; intros H; [reflexivity|].
  pose proof (H 0%nat) as H0. cbn [drop] in H0.
  rewrite replaceAll_cons, H0. f_equal. apply IH.
  intros k. apply (H (S k)).
Qed.

Lemma noTag_drop (k : nat) (s : Js.jsstring) :
  noTag s = true -> noTag (drop k s) = true.
Proof.
  intros H. rewrite <- (take_drop k s) in H. apply noTag_app in H as [_ H].
  exact H.
Qed.

Lemma reTag_noTag (s : Js.jsstring) : noTag s = true -> Js.reTag s = None.
Proof.
  destruct s as [|c r]; [reflexivity|].
  cbn [noTag]. intros H. apply andb_prop in H as [Hc _].
  rewrite reTag_cons. destruct (c =? 60)%N; [|reflexivity].
  cbn [negb orb] in Hc. apply negb_true_iff in Hc.
  pose proof (span_to_close r) as Hclose.
  pose proof (span_app (fun c => negb (c =? 62)%N) r) as Happ.
  destruct (snd (Js.span (fun c => negb (c =? 62)%N) r)) as [|d r1];
    [reflexivity|].
  subst d. exfalso.
  rewrite <- Happ, existsb_app in Hc. cbn [existsb] in Hc.
  rewrite N.eqb_refl, orb_true_r in Hc. discriminate.
Qed.

Lemma lowerUnit_60 (c : N) : (60 =? Js.lowerUnit c)%N = true -> c = 60%N.
Proof.
  unfold Js.lowerUnit.
  destruct ((65 <=? c) && (c <=? 90))%N eqn:E; intros H;
    apply N.eqb_eq in H; [|congruence].
  apply andb_prop in E as [E1 E2]. apply N.leb_le in E1. lia.
Qed.

Lemma slash_suffix (r1 : Js.jsstring) (sl : nat) (r2 : Js.jsstring) :
  match r1 with
  | 47%N :: r => (1%nat, r)
  | _ => (0%nat, r1)
  end = (sl, r2) ->
  exists pre, r1 = pre ++ r2.
Proof.
  destruct r1 as [|d r]; [intros [= <- <-]; exists []; reflexivity|].
  destruct d as [|p]; [intros [= <- <-]; exists []; reflexivity|].
  do 6 (try (destruct p as [p|p|];
             try (intros [= <- <-]; exists []; reflexivity))).
  intros [= <- <-]. exists [47%N]. reflexivity.
Qed.

Lemma close_head {A} (r3 : Js.jsstring) (a : A) (x : A) :
  match r3 with
  | 62%N :: _ => Some a
  | _ => None
  end = Some x ->
  exists t, r3 = 62%N :: t.
Proof.
  destruct r3 as [|d r]; [discriminate|].
  destruct d as [|p]; [discriminate|].
  do 6 (try (destruct p as [p|p|]; try discriminate)).
  intros _. eexists. reflexivity.
Qed.

(** The expression for a line break matches a tag only. *)
Lemma reBr_tag (s : Js.jsstring) (x : nat * unit) :
  Js.reBr s = Some x ->
  exists r, s = 60%N :: r /\ existsb (N.eqb 62) r = true.
Proof.
  unfold Js.reBr.
  destruct (Js.startsWithCI (Js.js "<br") s) eqn:Hstart; [|discriminate].
  destruct s as [|c1 [|c2 [|c3 r0]]];
    try (cbn in Hstart; rewrite ?andb_false_r in Hstart; discriminate Hstart).
  cbn in Hstart. apply andb_prop in Hstart as [H1 _].
  apply lowerUnit_60 in H1. subst c1.
  cbn [drop]. rewrite drop_0. cbv zeta.
  pose proof (span_app Js.isSpace r0) as A1.
  destruct (Js.span Js.isSpace r0) as [w1 r1]. cbn [fst snd] in A1.
  destruct (match r1 with 47%N :: r => (1%nat, r) | _ => (0%nat, r1) end)
    as [sl r2] eqn:E2.
  apply slash_suffix in E2 as [pre E2].
  pose proof (span_app Js.isSpace r2) as A2.
  destruct (Js.span Js.isSpace r2) as [w2 r3]. cbn [fst snd] in A2.
  intros H. apply close_head in H as [t ->].
  eexists. split; [reflexivity|].
  rewrite <- A1, E2, <- A2. cbn [existsb].
  rewrite !existsb_app. cbn [existsb]. rewrite N.eqb_refl.
  rewrite !orb_true_r. reflexivity.
Qed.

Lemma reBr_noTag (s : Js.jsstring) : noTag s = true -> Js.reBr s = None.
Proof.
  intros Hs. destruct (Js.reBr s) as [x|] eqn:E; [|reflexivity].
  apply reBr_tag in E as (r & -> & Hr).
  cbn [noTag] in Hs. apply andb_prop in Hs as [Hc _].
  rewrite Hr in Hc. discriminate.
Qed.

Lemma squeeze_fixed (s : Js.jsstring) :
  singleSpaced s -> Js.replaceAll Js.reSpaces (Js.js " ") 0 s = s.
Proof.
  induction s as [|c r IH]; [reflexivity|].
  cbn [singleSpaced]. intros [Hc Hr]. rewrite squeeze_cons.
  destruct (Js.isSpace c).
  - destruct (Hc eq_refl) as [-> Hn]. f_equal.
    destruct r as [|d r]; [reflexivity|].
    cbn [Js.span]. rewrite Hn. cbn [snd]. apply IH, Hr.
  - f_equal. apply IH, Hr.
Qed.

Lemma trimStart_fixed (s : Js.jsstring) :
  (forall c, head s = Some c -> Js.isSpace c = false) -> Js.trimStart s = s.
Proof.
  unfold Js.trimStart. destruct s as [|c r]; [reflexivity|].
  intros H. cbn [Js.span]. rewrite (H c eq_refl). reflexivity.
Qed.

Lemma trim_fixed (s : Js.jsstring) : trimmed s -> Js.trim s = s.
Proof.
  intros [Hh Hl]. unfold Js.trim. rewrite (trimStart_fixed s Hh).
  rewrite trimStart_fixed; [apply rev_involutive|].
  intros c Hc. apply Hl. rewrite <- (rev_involutive s), last_rev. exact Hc.
Qed.

End StringFacts.

Section PlainText.

Local Open Scope Q_scope.

Lemma max_cases (x y : Q) : Template.max x y = x \/ Template.max x y = y.
Proof. unfold Template.max. destruct (Template.leb x y); auto. Qed.

Lemma max_ge (x y : Q) : x <= Template.max x y /\ y <= Template.max x y.
Proof.
  unfold Template.max, Template.leb. destruct (Qle_bool x y) eqn:E.
  - apply Qle_bool_iff in E. split; [exact E|apply Qle_refl].
  - split; [apply Qle_refl|].
    destruct (Qlt_le_dec x y) as [Hlt|Hle]; [|exact Hle].
    apply Qlt_le_weak, Qle_bool_iff in Hlt. congruence.
Qed.

Lemma fold_max_spec (l : list Q) (a : Q) :
  a <= fold_left Template.max l a /\
  Forall (fun x => x <= fold_left Template.max l a) l /\
  (fold_left Template.max l a = a \/ In (fold_left Template.max l a) l).
Proof.
  revert a. induction l as [|x l IH]; intros a.
  - cbn. split; [apply Qle_refl|]. split; [constructor|left; reflexivity].
  - cbn [fold_left]. destruct (IH (Template.max a x)) as (Hge & Hall & Hin).
    destruct (max_ge a x) as [Ha Hx]. split; [|split].
    + eapply Qle_trans; eassumption.
    + constructor; [eapply Qle_trans; eassumption|exact Hall].
    + destruct Hin as [Hin|Hin]; [|right; right; exact Hin].
      rewrite Hin. destruct (max_cases a x) as [->| ->];
        [left; reflexivity|right; left; reflexivity].
Qed.

(** X11: the font size that [getMaxFontSizePx] reads off a markup is
    never zero or negative; it is at least every size that the markup
    declares in pixels, and it is one of them or the default 16. *)
Theorem getMaxFontSizePx_bounds (html : Js.jsstring) :
  let sizes := Js.matchAll Js.reFontSizePx 0 html in
  0 < Template.getMaxFontSizePx html /\
  Forall (fun x => x <= Template.getMaxFontSizePx html) sizes /\
  (Template.getMaxFontSizePx html = 16 \/
   In (Template.getMaxFontSizePx html) sizes).
Proof.
  intros sizes. unfold Template.getMaxFontSizePx. fold sizes.
  destruct (fold_max_spec sizes 0) as (Hge & Hall & Hin).
  unfold Template.isZero.
  destruct (Qeq_bool (fold_left Template.max sizes 0) 0) eqn:E.
  - apply Qeq_bool_iff in E. split; [reflexivity|]. split; [|left; reflexivity].
    eapply Forall_impl; [exact Hall|]. cbn. intros x Hx.
    rewrite E in Hx. eapply Qle_trans; [exact Hx|]. discriminate.
  - apply Qeq_bool_neq in E. split; [|split; [exact Hall|]].
    + apply Qle_lteq in Hge as [Hlt|Heq]; [exact Hlt|].
      exfalso. apply E. symmetry. exact Heq.
    + destruct Hin as [Hin|Hin]; [|right; exact Hin].
      exfalso. apply E. rewrite Hin. reflexivity.
Qed.

Lemma htmlToPlainText_shape (html : Js.jsstring) :
  singleSpaced (Template.htmlToPlainText html) /\
  trimmed (Template.htmlToPlainText html).
Proof.
  unfold Template.htmlToPlainText.
  set (s := Js.replaceAll Js.reSpaces (Js.js " ") 0 _).
  destruct (trim_middle s) as (a & b & Hs & Ht).
  split; [|exact Ht].
  destruct (squeeze_spec (length
              (Js.replaceAll Js.reTag [] 0 (Js.replaceAll Js.reBr [10%N] 0 html)))
              _ (Nat.le_refl _)) as (Hsingle & _).
  cbv zeta in Hsingle. fold s in Hsingle.
  rewrite Hs in Hsingle.
  apply singleSpaced_app in Hsingle as [_ Hsingle].
  apply singleSpaced_app in Hsingle as [Hsingle _]. exact Hsingle.
Qed.

Lemma htmlToPlainText_noTag (html : Js.jsstring) :
  noTag (Template.htmlToPlainText html) = true.
Proof.
  unfold Template.htmlToPlainText.
  set (s0 := Js.replaceAll Js.reBr [10%N] 0 html).
  set (s1 := Js.replaceAll Js.reTag [] 0 s0).
  set (s2 := Js.replaceAll Js.reSpaces (Js.js " ") 0 s1).
  destruct (trim_middle s2) as (a & b & Hs & _).
  assert (noTag s2 = true) as H2.
  { apply (squeeze_noTag (length s1)); [lia|].
    apply (strip_noTag (length s0)). lia. }
  rewrite Hs in H2. apply noTag_app in H2 as [_ H2].
  apply noTag_app in H2 as [H2 _]. exact H2.
Qed.

(** X12: the plain text of a markup is tidy: it neither starts nor ends
    with white space, the only white space in it are single blanks, each
    followed by a character that is not white space, and it holds no
    tag: the expression for a tag, a [<] with a [>] behind it, matches
    nowhere in it. *)
Theorem htmlToPlainText_tidy (html : Js.jsstring) :
  singleSpaced (Template.htmlToPlainText html) /\
  trimmed (Template.htmlToPlainText html) /\
  Js.test Js.reTag (Template.htmlToPlainText html) = false.
Proof.
  destruct (htmlToPlainText_shape html) as [Hsingle Htrim].
  split; [exact Hsingle|]. split; [exact Htrim|].
  apply noTag_test, htmlToPlainText_noTag.
Qed.

(** X13: [htmlToPlainText] is a projection: the plain text of a plain
    text is that text itself. *)
Theorem htmlToPlainText_idempotent (html : Js.jsstring) :
  Template.htmlToPlainText (Template.htmlToPlainText html) =
  Template.htmlToPlainText html.
Proof.
  pose proof (htmlToPlainText_noTag html) as Hp.
  destruct (htmlToPlainText_shape html) as [Hsingle Htrim].
  set (p := Template.htmlToPlainText html) in *.
  unfold Template.htmlToPlainText.
  rewrite (replaceAll_none Js.reBr)
    by (intros k; apply reBr_noTag, noTag_drop, Hp).
  rewrite (replaceAll_none Js.reTag)
    by (intros k; apply reTag_noTag, noTag_drop, Hp).
  rewrite squeeze_fixed by exact Hsingle.
  apply trim_fixed, Htrim.
Qed.

End PlainText.

(* ================================================================== *)
(** * Properties of the sorts, the keywords and the tags *)
(* ================================================================== *)

Section SortFacts.

Local Open Scope Q_scope.

Lemma gtb_0 (x : Q) : Template.gtb x 0 = true <-> 0 < x.
Proof.
  unfold Template.gtb. rewrite negb_true_iff. split.
  - intros H. apply Qnot_le_lt. intros Hle.
    apply Qle_bool_iff in Hle. congruence.
  - intros H. destruct (Qle_bool x 0) eqn:E; [|reflexivity].
    apply Qle_bool_iff in E. exfalso. Lqa.lra.
Qed.

Lemma gtb_0_false (x : Q) : Template.gtb x 0 = false <-> x <= 0.
Proof.
  unfold Template.gtb. rewrite negb_false_iff. apply Qle_bool_iff.
Qed.

Lemma isZero_iff (x : Q) : Template.isZero x = true <-> x == 0.
Proof. apply Qeq_bool_iff. Qed.

Lemma orDiff_cases (d1 d2 : Q) :
  (d1 == 0 /\ Template.orDiff d1 d2 = d2) \/
  (~ d1 == 0 /\ Template.orDiff d1 d2 = d1).
Proof.
  unfold Template.orDiff. destruct (Template.isZero d1) eqn:E.
  - left. split; [apply isZero_iff, E|reflexivity].
  - right. split; [|reflexivity]. intros H. apply isZero_iff in H. congruence.
Qed.

Lemma insertBy_perm {A} (cmp : A -> A -> Q) (x : A) (l : list A) :
  Template.insertBy cmp x l ≡ₚ x :: l.
Proof.
  induction l as [|y l IH]; cbn; [reflexivity|].
  destruct (Template.gtb (cmp x y) 0); [|reflexivity].
  rewrite IH. apply Permutation_swap.
Qed.

Lemma sortBy_perm {A} (cmp : A -> A -> Q) (l : list A) :
  Template.sortBy cmp l ≡ₚ l.
Proof.
  unfold Template.sortBy. induction l as [|x l IH]; cbn; [reflexivity|].
  rewrite insertBy_perm, IH. reflexivity.
Qed.

Lemma sortBy_In {A} (cmp : A -> A -> Q) (l : list A) (x : A) :
  In x (Template.sortBy cmp l) <-> In x l.
Proof.
  rewrite <- !list_elem_of_In. rewrite (sortBy_perm cmp l). reflexivity.
Qed.

Lemma head_In {A} (l : list A) (x : A) : head l = Some x -> In x l.
Proof. destruct l; [discriminate|]. intros [= ->]. left. reflexivity. Qed.

(** The head of a sorted list comes behind no element, when the
    comparator is a strict weak order. *)
Lemma head_sortBy_least {A} (cmp : A -> A -> Q) (l : list A) (h : A) :
  (forall x y, 0 < cmp x y -> cmp y x <= 0) ->
  (forall x y z, cmp x y <= 0 -> cmp y z <= 0 -> cmp x z <= 0) ->
  head (Template.sortBy cmp l) = Some h ->
  forall y, In y l -> cmp h y <= 0.
Proof.
  intros Hasym Htrans. unfold Template.sortBy. revert h.
  induction l as [|x l IH]; intros h Hh y Hy; [contradiction|].
  cbn [foldr] in Hh.
  destruct (foldr (Template.insertBy cmp) [] l) as [|h' s] eqn:Es.
  - cbn in Hh. injection Hh as <-.
    assert (l = []) as ->.
    { apply Permutation_nil_r. rewrite <- Es. symmetry.
      apply (sortBy_perm cmp l). }
    destruct Hy as [<-|[]].
    destruct (Qlt_le_dec 0 (cmp x x)) as [Hlt|Hle]; [|exact Hle].
    apply Hasym, Hlt.
  - cbn [Template.insertBy] in Hh.
    destruct (Template.gtb (cmp x h') 0) eqn:E; cbn in Hh; injection Hh as <-.
    + apply gtb_0 in E. destruct Hy as [<-|Hy]; [apply Hasym, E|].
      apply (IH h' eq_refl), Hy.
    + apply gtb_0_false in E. destruct Hy as [<-|Hy].
      * destruct (Qlt_le_dec 0 (cmp x x)) as [Hlt|Hle]; [|exact Hle].
        apply Hasym, Hlt.
      * eapply Htrans; [exact E|]. apply (IH h' eq_refl), Hy.
Qed.

End SortFacts.

Section KeywordFacts.

Local Open Scope Q_scope.

Lemma existsb_fmap {A B} (p : B -> bool) (g : A -> B) (l : list A) :
  existsb p (map g l) = existsb (fun a => p (g a)) l.
Proof. induction l as [|a l IH]; [reflexivity|]. cbn. rewrite IH. reflexivity. Qed.

Lemma toLowerCase_nonEmpty (k : Js.jsstring) :
  Template.nonEmpty (Js.toLowerCase k) = Template.nonEmpty k.
Proof. destruct k; reflexivity. Qed.

(** X14: [findByKeywords] finds nothing exactly when no item matches a
    keyword; what it finds is the element of a matching item whose font
    is the largest among the matching items and which stands highest on
    the slide among those of that font. *)
Theorem findByKeywords_best (items : list Template.Scored)
    (keywords : list Js.jsstring) :
  match Template.findByKeywords items keywords with
  | None => Forall (fun it => matchesKeyword keywords it = false) items
  | Some r =>
      exists it,
        In it items /\ matchesKeyword keywords it = true /\
        Template.el it = r /\
        forall it',
          In it' items -> matchesKeyword keywords it' = true ->
          fontOf it' <= fontOf it /\
          (fontOf it' == fontOf it -> Template.top_ it <= Template.top_ it')
  end.
Proof.
  unfold Template.findByKeywords.
  destruct keywords as [|k0 ks]; [apply Forall_forall; reflexivity|].
  set (keywords := k0 :: ks).
  set (matched := List.filter _ items).
  assert (matched = List.filter (matchesKeyword keywords) items) as Hm.
  { unfold matched, matchesKeyword. apply filter_ext. intros it.
    rewrite existsb_fmap. reflexivity. }
  clearbody matched. subst matched.
  destruct (List.filter (matchesKeyword keywords) items) as [|m0 ms] eqn:Ef.
  - apply Forall_forall. intros it Hin. apply list_elem_of_In in Hin.
    destruct (matchesKeyword keywords it) eqn:E; [|reflexivity].
    assert (In it (List.filter (matchesKeyword keywords) items)) as H
      by (apply filter_In; split; assumption).
    rewrite Ef in H. contradiction.
  - rewrite <- Ef.
    set (cmp := fun a b : Template.Scored => _).
    assert (Hcmp : forall a b,
              cmp a b =
              Template.orDiff (fontOf b - fontOf a)
                (Template.top_ a - Template.top_ b)) by reflexivity.
    destruct (head (Template.sortBy cmp (List.filter (matchesKeyword keywords) items)))
      as [h|] eqn:Eh.
    + cbn. exists h.
      pose proof (head_In _ _ Eh) as Hin.
      apply sortBy_In, filter_In in Hin as [Hin Hmatch].
      split; [exact Hin|]. split; [exact Hmatch|]. split; [reflexivity|].
      intros it' Hin' Hmatch'.
      assert (cmp h it' <= 0) as Hle.
      { apply (head_sortBy_least cmp
                 (List.filter (matchesKeyword keywords) items) h);
          [| |exact Eh|].
        - intros x y. rewrite !Hcmp.
          destruct (orDiff_cases (fontOf y - fontOf x)
                      (Template.top_ x - Template.top_ y)) as [[E ->]|[E ->]];
          destruct (orDiff_cases (fontOf x - fontOf y)
                      (Template.top_ y - Template.top_ x)) as [[E' ->]|[E' ->]];
          intros;
          first [Lqa.lra | exfalso; apply E'; Lqa.lra | exfalso; apply E; Lqa.lra].
        - intros x y z. rewrite !Hcmp.
          destruct (orDiff_cases (fontOf y - fontOf x)
                      (Template.top_ x - Template.top_ y)) as [[E1 ->]|[E1 ->]];
          destruct (orDiff_cases (fontOf z - fontOf y)
                      (Template.top_ y - Template.top_ z)) as [[E2 ->]|[E2 ->]];
          destruct (orDiff_cases (fontOf z - fontOf x)
                      (Template.top_ x - Template.top_ z)) as [[E3 ->]|[E3 ->]];
          intros;
          first [Lqa.lra | exfalso; apply E3; Lqa.lra
                | exfalso; apply E1; Lqa.lra | exfalso; apply E2; Lqa.lra].
        - apply filter_In. split; assumption. }
      rewrite Hcmp in Hle.
      destruct (orDiff_cases (fontOf it' - fontOf h)
                  (Template.top_ h - Template.top_ it')) as [[E Hd]|[E Hd]];
        rewrite Hd in Hle.
      * split; [Lqa.lra|]. intros _. Lqa.lra.
      * split; [Lqa.lra|]. intros Heq. exfalso. apply E. Lqa.lra.
    + exfalso. 
      assert (Template.sortBy cmp (List.filter (matchesKeyword keywords) items) = [])
        as Hnil by (destruct (Template.sortBy _ _); [reflexivity|discriminate]).
      pose proof (sortBy_perm cmp (List.filter (matchesKeyword keywords) items)) as Hp.
      rewrite Hnil, Ef in Hp. apply Permutation_nil_cons in Hp. exact Hp.
Qed.

End KeywordFacts.

Section ColourFacts.

Lemma normalizePlaceholderFontColor_cases (color : Js.jsstring) :
  Template.normalizePlaceholderFontColor color = Js.js "#333333" \/
  (Template.normalizePlaceholderFontColor color = color /\
   ~ In (Js.toLowerCase (Js.trim color)) whiteNames).
Proof.
  unfold Template.normalizePlaceholderFontColor, Js.eqb.
  destruct (Js.toLowerCase (Js.trim color)) as [|c0 c'] eqn:Ec;
    [left; reflexivity|].
  case_bool_decide as E1; [left; reflexivity|]. cbn [orb].
  case_bool_decide as E2; [left; reflexivity|]. cbn [orb].
  case_bool_decide as E3; [left; reflexivity|].
  assert (~ In (c0 :: c') whiteNames) as Hnot.
  { intros [H|[H|[H|[H|[]]]]]; congruence. }
  destruct (Template.matchRgb (c0 :: c')) as [[[r g] b]|].
  - destruct ((245 <=? r)%Z && (245 <=? g)%Z && (245 <=? b)%Z);
      [left; reflexivity|right; split; [reflexivity|exact Hnot]].
  - right. split; [reflexivity|exact Hnot].
Qed.

(** X15: the colour of a placeholder is the theme colour itself or the
    dark grey #333333; it is never one of the whites that the function
    looks for, and normalising it again changes nothing. *)
Theorem normalizePlaceholderFontColor_settles (color : Js.jsstring) :
  let out := Template.normalizePlaceholderFontColor color in
  (out = Js.js "#333333" \/ out = color) /\
  ~ In (Js.toLowerCase (Js.trim out)) whiteNames /\
  Template.normalizePlaceholderFontColor out = out.
Proof.
  intros out. subst out.
  destruct (normalizePlaceholderFontColor_cases color) as [H|[H Hnot]];
    rewrite H.
  - split; [left; reflexivity|]. split; [|vm_compute; reflexivity].
    vm_compute. intros Hin. repeat destruct Hin as [Hin|Hin]; try discriminate Hin.
    exact Hin.
  - split; [right; reflexivity|]. split; [exact Hnot|exact H].
Qed.

End ColourFacts.


(* ================================================================== *)
(** * Further properties of the tagger *)
(* ================================================================== *)

Section TaggerSteps.

Variable viewportSize : Q.
Variable viewportRatio : Q.

Local Abbreviation tagCoverOrTransition :=
  (Template.tagCoverOrTransition viewportSize).
Local Abbreviation tagContents := (Template.tagContents viewportSize viewportRatio).
Local Abbreviation tagContent := (Template.tagContent viewportSize viewportRatio).
Local Abbreviation autoTag :=
  (Template.autoTagSlideTextTypes viewportSize viewportRatio).

Lemma In_orIfEmpty {A} (l l' : list A) (x : A) :
  In x (Template.orIfEmpty l l') -> In x l \/ In x l'.
Proof. destruct l; cbn; auto. Qed.

Lemma lookup_In {A} (l : list A) (k : nat) (x : A) : l !! k = Some x -> In x l.
Proof. intros H. apply list_elem_of_In. eapply list_elem_of_lookup_2, H. Qed.

(** Membership in a list made of another one by sorting and
    filtering. *)
Ltac chase H :=
  repeat first
    [ apply sortBy_In in H
    | apply filter_In in H as [H _]
    | apply In_orIfEmpty in H as [H|H] ];
  try exact H.

Lemma findByKeywords_refOf items keywords r :
  Template.findByKeywords items keywords = Some r -> refOf items r.
Proof.
  unfold Template.findByKeywords.
  destruct keywords as [|k0 ks]; [discriminate|].
  destruct (List.filter _ items) as [|m0 ms] eqn:Ef; [discriminate|].
  rewrite <- Ef.
  destruct (head _) as [h|] eqn:Eh; [|discriminate].
  cbn. intros [= <-]. apply head_In in Eh. chase Eh.
  exists h. split; [exact Eh|reflexivity].
Qed.

Lemma head_refOf rest (l : list Template.Scored) r :
  (forall s, In s l -> In s rest) ->
  Template.el <$> head l = Some r -> refOf rest r.
Proof.
  intros Hsub. destruct l as [|s l]; [discriminate|].
  cbn. intros [= <-]. exists s. split; [apply Hsub; left|]; reflexivity.
Qed.

Section Steps.

Variable rest : list Template.Scored.
Variable P : list Template.PPTElement -> Prop.
Hypothesis HP : keptByTags rest P.

Lemma tagOpt_kept t o els :
  t <> "title"%string -> (forall r, o = Some r -> refOf rest r) ->
  P els -> P (Template.tagOpt t o els).
Proof.
  intros Ht Ho Hels. destruct o as [r|]; [|exact Hels].
  apply HP; [exact Ht|apply Ho; reflexivity|exact Hels].
Qed.

Lemma fold_kept {A} (f : list Template.PPTElement -> A -> list Template.PPTElement)
    (l : list A) els :
  (forall x els, In x l -> P els -> P (f els x)) ->
  P els -> P (fold_left f l els).
Proof.
  revert els. induction l as [|x l IH]; intros els Hf Hels; [exact Hels|].
  cbn [fold_left]. apply IH.
  - intros y els' Hy. apply Hf. right. exact Hy.
  - apply Hf; [left; reflexivity|exact Hels].
Qed.

Lemma tagCoverOrTransition_kept slideType els :
  P els -> P (tagCoverOrTransition slideType rest els).
Proof.
  intros Hels. unfold Template.tagCoverOrTransition. cbv zeta.
  assert (P (Template.tagOpt "content"
               match Template.findByKeywords rest Template.subtitleWords with
               | Some r => Some r
               | None =>
                   Template.el <$>
                   head (Template.sortBy
                           (fun a b =>
                              Template.orDiff (Template.area b - Template.area a)
                                (Template.top_ a - Template.top_ b)) rest)
               end els)) as H1.
  { apply tagOpt_kept; [discriminate| |exact Hels].
    intros r. destruct (Template.findByKeywords rest Template.subtitleWords)
      as [r'|] eqn:Ek.
    - intros [= <-]. eapply findByKeywords_refOf, Ek.
    - apply head_refOf. intros s Hs. chase Hs. }
  case_bool_decide; [|exact H1].
  apply tagOpt_kept; [discriminate| |exact H1].
  intros r. apply head_refOf. intros s Hs. chase Hs.
Qed.

Lemma contentsRegion_In s :
  In s (Template.contentsRegion viewportSize viewportRatio rest) -> In s rest.
Proof. unfold Template.contentsRegion. intros H. chase H. Qed.

Lemma tagContents_kept els : P els -> P (tagContents rest els).
Proof.
  intros Hels. unfold Template.tagContents.
  destruct (Template.contentsRegion viewportSize viewportRatio rest)
    as [|r0 region] eqn:Er; [exact Hels|].
  clear Er r0 region. cbv zeta.
  destruct (_ <? 3)%nat; [exact Hels|].
  destruct (_ <? 3)%nat; [exact Hels|].
  apply fold_kept.
  - intros it els' Hit Hels'.
    apply tagOpt_kept; [discriminate| |exact Hels'].
    intros r. apply head_refOf. intros s Hs. chase Hs.
  - apply fold_kept; [|exact Hels].
    intros s els' Hs Hels'. apply HP; [discriminate| |exact Hels'].
    exists s. split; [|reflexivity].
    chase Hs.
Qed.

Lemma tagContent_kept els : P els -> P (tagContent rest els).
Proof.
  intros Hels. unfold Template.tagContent. cbv zeta.
  assert (forall s, In s (Template.orIfEmpty
            (List.filter (Template.solid viewportSize viewportRatio)
               (List.filter
                  (fun s => Template.geb (Template.top_ s)
                     (Template.slideHeight viewportSize viewportRatio * 0.16))
                  rest))
            (List.filter (Template.solid viewportSize viewportRatio) rest)) ->
          In s rest) as Hregion
    by (intros s Hs; chase Hs).
  destruct (Template.orIfEmpty _ _) as [|r0 region]; [exact Hels|].
  assert (forall t l,
            t <> "title"%string ->
            (forall s, In s l -> In s rest) ->
            P (fold_left (fun els s => Template.tag t (Template.el s) els) l els))
    as H1.
  { intros t l Ht Hl. apply fold_kept; [|exact Hels].
    intros s els' Hs Hels'. apply HP; [exact Ht| |exact Hels'].
    exists s. split; [apply Hl, Hs|reflexivity]. }
  destruct (head _) as [cc|] eqn:Ecc.
  - apply head_In in Ecc. chase Ecc. apply Hregion in Ecc.
    apply fold_kept.
    + intros i els' _ Hels'.
      destruct (_ !! (i * 2)%nat) as [a|] eqn:Ea; [|exact Hels'].
      destruct (_ !! (i * 2 + 1)%nat) as [b|] eqn:Eb; [|exact Hels'].
      apply lookup_In in Ea, Eb. chase Ea. chase Eb.
      apply Hregion in Ea, Eb.
      destruct (Template.leb _ _);
        (apply HP; [discriminate|eexists; split; [|reflexivity]; eassumption|]);
        (apply HP; [discriminate|eexists; split; [|reflexivity]; eassumption|]);
        exact Hels'.
    + apply HP; [discriminate|exists cc; split; [exact Ecc|reflexivity]|].
      apply H1; [discriminate|]. intros s Hs. chase Hs. apply Hregion, Hs.
  - apply H1; [discriminate|]. intros s Hs. chase Hs. apply Hregion, Hs.
Qed.

End Steps.

End TaggerSteps.

Section TaggerFacts.

Variable viewportSize : Q.
Variable viewportRatio : Q.

Local Abbreviation autoTag :=
  (Template.autoTagSlideTextTypes viewportSize viewportRatio).
Local Abbreviation titleElOf := (Template.titleElOf viewportSize viewportRatio).
Local Abbreviation restOf := (Template.restOf viewportSize viewportRatio).

(** The list of elements after the candidates lost their tags (lines
    992-995). *)
Local Abbreviation cleared slide :=
  (fold_left (fun els r => alter Template.clearTextType (Template.r_at r) els)
     (Template.getTextCandidates slide) (Template.s_elements slide)).

Lemma clear_set t e :
  Template.clearTextType (Template.setTextType t e) = Template.clearTextType e.
Proof.
  unfold Template.clearTextType, Template.setTextType, Template.isType.
  destruct e as [ty ? ? ? ? ? ? ? ? ? ? tt ? tx]; cbn.
  destruct ty; cbn; try reflexivity; destruct tx; reflexivity.
Qed.

Lemma candidate_set t e :
  Template.isTextCandidate e = true ->
  Template.textTypeOf (Template.setTextType t e) = Some t.
Proof.
  unfold Template.isTextCandidate, Template.setTextType, Template.textTypeOf,
    Template.isType.
  destruct e as [ty ? ? ? ? ? ? ? ? ? ? tt ? tx]; cbn.
  destruct ty; cbn; try discriminate; try reflexivity.
  destruct tx; [reflexivity|discriminate].
Qed.

Lemma candidate_clear e :
  Template.isTextCandidate (Template.clearTextType e) = Template.isTextCandidate e.
Proof.
  unfold Template.isTextCandidate, Template.clearTextType, Template.isType.
  destruct e as [ty ? ? ? ? ? ? ? ? ? ? tt ? tx]; cbn.
  destruct ty; cbn; try reflexivity; destruct tx; reflexivity.
Qed.

Lemma clear_not_candidate e :
  Template.isTextCandidate e = false -> Template.clearTextType e = e.
Proof.
  unfold Template.isTextCandidate, Template.clearTextType, Template.isType.
  destruct e as [ty ? ? ? ? ? ? ? ? ? ? tt ? tx]; cbn.
  destruct ty; cbn; try reflexivity; try discriminate.
  destruct tx; [discriminate|reflexivity].
Qed.

Lemma set_not_title t e :
  t <> "title"%string ->
  Template.textTypeOf e <> Some "title"%string ->
  Template.textTypeOf (Template.setTextType t e) <> Some "title"%string.
Proof.
  intros Ht He H. apply textTypeOf_setTextType in H as [H|H]; [|exact (He H)].
  apply Ht. symmetry. exact H.
Qed.

Lemma map_clear_alter f i (els : list Template.PPTElement) :
  (forall e, Template.clearTextType (f e) = Template.clearTextType e) ->
  map Template.clearTextType (alter f i els) = map Template.clearTextType els.
Proof.
  intros Hf. revert i. induction els as [|e els IH]; intros i; [reflexivity|].
  destruct i as [|i]; cbn.
  - rewrite Hf. reflexivity.
  - f_equal. apply IH.
Qed.

Lemma fold_clear_map (rs : list Template.Ref) els :
  map Template.clearTextType
    (fold_left (fun els r => alter Template.clearTextType (Template.r_at r) els)
       rs els) =
  map Template.clearTextType els.
Proof.
  revert els. induction rs as [|r rs IH]; intros els; [reflexivity|].
  cbn [fold_left]. rewrite IH. apply map_clear_alter, clearTextType_idem.
Qed.

Lemma orIfEmpty_nonEmpty {A} (l l' : list A) :
  l' <> [] -> Template.orIfEmpty l l' <> [].
Proof. destruct l; [intros H; exact H|discriminate]. Qed.

Lemma titleElOf_Some scored slideType :
  scored <> [] ->
  exists r, titleElOf scored slideType = Some r /\ refOf scored r.
Proof.
  intros Hne. unfold Template.titleElOf. cbv zeta.
  destruct (Template.findByKeywords _ _) as [r|] eqn:Ek.
  - exists r. split; [reflexivity|].
    apply findByKeywords_refOf in Ek as (s & Hs & <-).
    exists s. split; [|reflexivity].
    apply In_orIfEmpty in Hs as [Hs|Hs]; [|exact Hs].
    apply filter_In in Hs as [Hs _]. exact Hs.
  - destruct (Template.orIfEmpty (List.filter _ (Template.orIfEmpty _ scored)) _)
      as [|s pool] eqn:Ep.
    + exfalso. revert Ep. apply orIfEmpty_nonEmpty, orIfEmpty_nonEmpty, Hne.
    + exists (Template.el s). split; [reflexivity|].
      exists s. split; [|reflexivity].
      assert (In s (s :: pool)) as Hs by (left; reflexivity).
      rewrite <- Ep in Hs.
      repeat first
        [ apply filter_In in Hs as [Hs _]
        | apply In_orIfEmpty in Hs as [Hs|Hs] ]; exact Hs.
Qed.

Lemma scoredOf_candidate slide r :
  refOf (Template.scoredOf slide) r -> In r (Template.getTextCandidates slide).
Proof.
  intros (s & Hs & <-). unfold Template.scoredOf in Hs.
  apply sortBy_In, in_map_iff in Hs as (r & <- & Hr). exact Hr.
Qed.

Lemma scoredOf_nonEmpty slide :
  Template.getTextCandidates slide <> [] -> Template.scoredOf slide <> [].
Proof.
  intros Hne Hs. apply Hne.
  pose proof (sortBy_perm
    (fun a b => (Template.score b - Template.score a)%Q)
    (map (fun r =>
            let html := Template.getHtmlText (Template.r_obj r) in
            let font := Template.getMaxFontSizePx html in
            let area :=
              (Template.e_width (Template.r_obj r)
               * Template.e_height (Template.r_obj r))%Q in
            let score :=
              (font * 100000 - Template.e_top (Template.r_obj r) * 10
               + area / 100)%Q in
            {| Template.el := r; Template.font := font; Template.area := area;
               Template.score := score;
               Template.plain := Template.htmlToPlainText html |})
       (Template.getTextCandidates slide))) as Hp.
  change (Template.sortBy _ _) with (Template.scoredOf slide) in Hp.
  rewrite Hs in Hp. apply Permutation_nil in Hp.
  destruct (Template.getTextCandidates slide); [reflexivity|discriminate].
Qed.

Lemma candidate_at slide r :
  In r (Template.getTextCandidates slide) ->
  Template.s_elements slide !! Template.r_at r = Some (Template.r_obj r) /\
  Template.isTextCandidate (Template.r_obj r) = true.
Proof.
  unfold Template.getTextCandidates. intros Hr.
  apply filter_In in Hr as [Hr Hc]. split; [|exact Hc].
  apply list_elem_of_In, elem_of_lookup_imap_1 in Hr as (i & y & -> & Hy).
  exact Hy.
Qed.

(** What the tagger computes on a slide with a text candidate: the
    tags that follow the title are set on the rest. *)
Lemma autoTag_kept slide slideType (P : list Template.PPTElement -> Prop) :
  Template.getTextCandidates slide <> [] ->
  keptByTags
    (restOf (Template.scoredOf slide)
       (titleElOf (Template.scoredOf slide) slideType)) P ->
  P (Template.tagOpt "title" (titleElOf (Template.scoredOf slide) slideType)
       (cleared slide)) ->
  P (Template.s_elements (autoTag slide slideType)).
Proof.
  intros Hne HP H0. unfold Template.autoTagSlideTextTypes. cbv zeta.
  destruct (Template.getTextCandidates slide) as [|c cs] eqn:Ec; [contradiction|].
  cbn [Template.s_elements Template.withElements].
  destruct slideType.
  - apply tagCoverOrTransition_kept; assumption.
  - apply tagContents_kept; assumption.
  - apply tagCoverOrTransition_kept; assumption.
  - apply tagContent_kept; assumption.
  - exact H0.
Qed.

Lemma kept_clear rest els0 :
  keptByTags rest
    (fun els => map Template.clearTextType els = map Template.clearTextType els0).
Proof.
  intros t r els _ _ H. unfold Template.tag.
  rewrite map_clear_alter; [exact H|]. intros e. apply clear_set.
Qed.

Lemma autoTag_clear slide slideType :
  map Template.clearTextType (Template.s_elements (autoTag slide slideType)) =
  map Template.clearTextType (Template.s_elements slide).
Proof.
  destruct (Template.getTextCandidates slide) as [|c cs] eqn:Ec.
  - unfold Template.autoTagSlideTextTypes. rewrite Ec. reflexivity.
  - apply autoTag_kept.
    + rewrite Ec. discriminate.
    + apply kept_clear.
    + destruct (titleElOf _ _) as [r|]; cbn [Template.tagOpt].
      * unfold Template.tag. rewrite map_clear_alter by apply clear_set.
        apply fold_clear_map.
      * apply fold_clear_map.
Qed.

Lemma kept_titleAt scored r :
  keptByTags (restOf scored (Some r)) (titleAt (Template.r_at r)).
Proof.
  intros t r' els Ht (s & Hs & <-) [Hlen Hone].
  unfold Template.restOf in Hs.
  apply filter_In in Hs as [Hs _]. apply filter_In in Hs as [_ Hs].
  unfold Template.isNot, Template.sameRef in Hs.
  apply negb_true_iff, Nat.eqb_neq in Hs.
  unfold Template.tag. split; [rewrite length_alter; exact Hlen|].
  intros k e. rewrite list_lookup_alter.
  destruct (decide (Template.r_at (Template.el s) = k)) as [<-|Hk].
  - destruct (els !! Template.r_at (Template.el s)) as [e0|] eqn:E0;
      [|discriminate].
    cbn. intros [= <-]. split; [|intros E; contradiction].
    intros H. exfalso. revert H. apply set_not_title; [exact Ht|].
    intros H. apply (Hone _ _ E0) in H. contradiction.
  - apply Hone.
Qed.

Lemma fold_alter_length (f : Template.PPTElement -> Template.PPTElement)
    (rs : list Template.Ref) els :
  length (fold_left (fun els r => alter f (Template.r_at r) els) rs els) =
  length els.
Proof.
  revert els. induction rs as [|r rs IH]; intros els; [reflexivity|].
  cbn [fold_left]. rewrite IH. apply length_alter.
Qed.

Lemma title_set slide r :
  In r (Template.getTextCandidates slide) ->
  titleAt (Template.r_at r) (Template.tag "title" r (cleared slide)).
Proof.
  intros Hr. apply candidate_at in Hr as [Hat Hc].
  unfold Template.tag. split.
  - rewrite length_alter, fold_alter_length. eapply lookup_lt_Some, Hat.
  - intros k e. rewrite list_lookup_alter.
    pose proof (cleared_no_tag slide) as Hno.
    destruct (decide (Template.r_at r = k)) as [<-|Hk].
    + destruct (cleared slide !! Template.r_at r) as [e0|] eqn:E0; [|discriminate].
      cbn. intros [= <-]. split; [reflexivity|]. intros _.
      apply candidate_set.
      pose proof (fold_clear_map (Template.getTextCandidates slide)
                    (Template.s_elements slide)) as Hm.
      apply (f_equal (fun l => l !! Template.r_at r)) in Hm.
      change (map ?f ?l) with (f <$> l) in Hm.
      rewrite !list_lookup_fmap, E0, Hat in Hm. cbn in Hm.
      injection Hm as Hm.
      rewrite <- candidate_clear, Hm, candidate_clear. exact Hc.
    + intros He. split; [|intros ->; contradiction].
      intros Ht. rewrite Forall_lookup in Hno. rewrite (Hno _ _ He) in Ht.
      discriminate.
Qed.

Lemma filter_none {A} (p : A -> bool) (l : list A) :
  (forall k e, l !! k = Some e -> p e = false) -> List.filter p l = [].
Proof.
  induction l as [|x l IH]; intros H; [reflexivity|].
  cbn. rewrite (H 0%nat x eq_refl). apply IH.
  intros k e Hk. apply (H (S k)). exact Hk.
Qed.

Lemma filter_one {A} (p : A -> bool) (l : list A) (i : nat) :
  (i < length l)%nat ->
  (forall k e, l !! k = Some e -> (p e = true <-> k = i)) ->
  length (List.filter p l) = 1%nat.
Proof.
  revert i. induction l as [|x l IH]; intros i Hi H; [cbn in Hi; lia|].
  destruct i as [|i]; cbn.
  - rewrite (proj2 (H 0%nat x eq_refl) eq_refl). cbn. rewrite filter_none; [reflexivity|].
    intros k e Hk. apply not_true_is_false. intros Hp.
    apply (H (S k) e Hk) in Hp. discriminate.
  - destruct (p x) eqn:Ex.
    + apply (H 0%nat x eq_refl) in Ex. discriminate.
    + apply (IH i); [cbn in Hi; lia|].
      intros k e Hk. rewrite (H (S k) e Hk). lia.
Qed.

Lemma titleAt_count i els : titleAt i els -> length (tagged "title" els) = 1%nat.
Proof.
  intros [Hi H]. apply (filter_one _ _ i Hi).
  intros k e Hk. rewrite bool_decide_eq_true. apply H, Hk.
Qed.

Lemma hasTag_tagged els t : hasTag els t = negb (length (tagged t els) =? 0)%nat.
Proof.
  unfold hasTag, tagged. induction els as [|e els IH]; [reflexivity|].
  cbn. destruct (bool_decide _); [reflexivity|exact IH].
Qed.

(** The tagger leaves one title on a slide with a text candidate, and
    none on any other slide. *)
Lemma autoTag_titles slide slideType :
  length (tagged "title" (Template.s_elements (autoTag slide slideType))) =
  match Template.getTextCandidates slide with [] => 0 | _ => 1 end%nat.
Proof.
  destruct (Template.getTextCandidates slide) as [|c cs] eqn:Ec.
  - unfold Template.autoTagSlideTextTypes. rewrite Ec.
    pose proof (not_candidates_no_tag slide "title" Ec) as H.
    rewrite hasTag_tagged in H. apply negb_false_iff, Nat.eqb_eq in H. exact H.
  - assert (Template.getTextCandidates slide <> []) as Hne
      by (rewrite Ec; discriminate).
    destruct (titleElOf_Some (Template.scoredOf slide) slideType
                (scoredOf_nonEmpty slide Hne)) as (r & Hr & Hin).
    apply (titleAt_count (Template.r_at r)).
    apply autoTag_kept; [exact Hne| |]; rewrite Hr.
    + apply kept_titleAt.
    + apply title_set, scoredOf_candidate, Hin.
Qed.

End TaggerFacts.

(* ================================================================== *)
(** * Further properties of the placeholders *)
(* ================================================================== *)

Section PlaceholderRuns.

Variable viewportSize : Q.
Variable viewportRatio : Q.
Variable fontName : Js.jsstring.
Variable fontColor : Js.jsstring.

Local Abbreviation boxOf := (Template.boxOf fontName fontColor).
Local Abbreviation ensurePlaceholders :=
  (Template.ensurePlaceholders viewportSize viewportRatio fontName fontColor).

Ltac add_box :=
  rewrite ?addUnlessTagged_eq; rewrite addUnless_eq; cbv beta iota;
  rewrite ?withElements_app.

Ltac add_row :=
  intros; unfold Template.gbind, Template.nanoid;
  rewrite !addUnless_eq, ?withElements_app; f_equal.

Lemma tagged_rowsFrom {A} (g : A -> nat -> list Template.PPTElement) d l n t :
  (forall a m, tagged t (g a m) = []) -> tagged t (rowsFrom g d l n) = [].
Proof.
  intros Hg. revert n. induction l as [|a l IH]; intros n; [reflexivity|].
  cbn [rowsFrom]. rewrite tagged_app, Hg, IH. reflexivity.
Qed.

Lemma tagged_box t config id :
  tagged t [boxOf config id] =
  if String.eqb (Template.cfg_textType config) t then [boxOf config id] else [].
Proof.
  unfold tagged. cbn [List.filter].
  change (Template.textTypeOf (boxOf config id))
    with (Some (Template.cfg_textType config)).
  destruct (String.eqb_spec (Template.cfg_textType config) t) as [->|Hne].
  - rewrite bool_decide_eq_true_2; reflexivity.
  - rewrite bool_decide_eq_false_2; [reflexivity|]. intros [= H]. exact (Hne H).
Qed.

Ltac split_ifs :=
  repeat match goal with
  | |- context [if ?b then _ else _] => destruct b
  end.

Ltac eval_eqb :=
  repeat match goal with
  | |- context [String.eqb ?a ?b] =>
      let v := eval vm_compute in (String.eqb a b) in
      change (String.eqb a b) with v
  end;
  cbv beta iota.

Ltac count_boxes :=
  cbn [fst Template.s_elements Template.withElements Template.cfg_textType];
  rewrite ?tagged_app, ?length_app;
  split_ifs;
  rewrite ?tagged_rowsFrom
    by (intros; split_ifs; rewrite ?tagged_app, ?tagged_box; eval_eqb;
        reflexivity);
  rewrite ?tagged_box; eval_eqb; cbn [length tagged List.filter]; lia.

Lemma ensure_titles slide slideType n :
  length (tagged "title"
            (Template.s_elements (fst (ensurePlaceholders slide slideType n)))) =
  (length (tagged "title" (Template.s_elements slide))
   + if hasTag (Template.s_elements slide) "title" then 0 else 1)%nat.
Proof.
  unfold Template.ensurePlaceholders. cbv zeta. destruct slideType.
  - unfold Template.gbind. add_box. add_box. count_boxes.
  - unfold Template.gbind at 1.
    set (hi := Template.hasTextType slide "item").
    set (hn := Template.hasTextType slide "itemNumber").
    erewrite forEach_if_appends; cycle 1.
    { add_row.
      instantiate (1 := (1 + (if hn then 0 else 1) + (if hi then 0 else 1))%nat).
      lia. }
    add_box. clearbody hi hn.
    cbn [fst Template.s_elements Template.withElements Template.cfg_textType].
    rewrite !hasTag_app, rows_lack by (intros; destruct hn, hi; reflexivity).
    rewrite orb_false_r. count_boxes.
  - unfold Template.gbind. add_box. add_box. add_box. count_boxes.
  - unfold Template.gbind at 1. add_box. unfold Template.gbind at 1. add_box.
    match goal with
    | |- context [Template.hasTextType ?s "item"] =>
        set (hi := Template.hasTextType s "item")
    end.
    match goal with
    | |- context [Template.hasTextType ?s "itemTitle"] =>
        set (hit := Template.hasTextType s "itemTitle")
    end.
    match goal with
    | |- context [Template.hasTextType ?s "itemNumber"] =>
        set (hn := Template.hasTextType s "itemNumber")
    end.
    clearbody hi hit hn.
    erewrite forEach_if_appends; cycle 1.
    { add_row.
      instantiate (1 := (1 + (if hn then 0 else 1) + (if hit then 0 else 1)
                         + (if hi then 0 else 1))%nat). lia. }
    rewrite withElements_app. count_boxes.
  - add_box. count_boxes.
Qed.

Lemma hasTag_box t config id :
  hasTag [boxOf config id] t = String.eqb (Template.cfg_textType config) t.
Proof.
  rewrite hasTag_tagged, tagged_box.
  destruct (String.eqb _ _); reflexivity.
Qed.

Lemma hasTag_nil t : hasTag [] t = false.
Proof. reflexivity. Qed.

Lemma hasTag_unless (b : bool) t config id :
  hasTag (if b then [] else [boxOf config id]) t =
  negb b && String.eqb (Template.cfg_textType config) t.
Proof. destruct b; [reflexivity|apply hasTag_box]. Qed.

Lemma hasTag_if (b : bool) (l : list Template.PPTElement) t :
  hasTag (if b then l else []) t = b && hasTag l t.
Proof. destruct b; reflexivity. Qed.

(** The tags of a slide after a run as a formula of the tags before
    it: the rows that a loop appends come in with their first row, which
    shows the tags of all of them. *)
Ltac by_tags slide :=
  cbn [fst Template.s_elements Template.withElements Template.cfg_textType];
  rewrite ?hasTextType_hasTag;
  cbn [fst Template.s_elements Template.withElements Template.cfg_textType];
  rewrite ?hasTag_app;
  rewrite ?(rows_lack _ _ _ _ _ "title") by (intros; split_ifs; reflexivity);
  try change (seq 0 10) with (0 :: seq 1 9)%nat;
  try change (seq 0 4) with (0 :: seq 1 3)%nat;
  cbn [rowsFrom];
  repeat match goal with
  | |- context [rowsFrom ?g ?d ?l ?n] => generalize (rowsFrom g d l n); intro
  end;
  rewrite ?hasTag_if, ?hasTag_app, ?hasTag_unless, ?hasTag_nil;
  eval_eqb;
  repeat match goal with
  | |- context [hasTag (Template.s_elements slide) ?t] =>
      destruct (hasTag (Template.s_elements slide) t)
  end;
  cbn [negb orb andb].

(** After a run every tag that the synthesizer tests is on the slide. *)
Lemma ensure_tested slide slideType n :
  Forall
    (fun t =>
       hasTag (Template.s_elements (fst (ensurePlaceholders slide slideType n))) t
       = true)
    (testedTags slideType).
Proof.
  unfold Template.ensurePlaceholders. cbv zeta. destruct slideType.
  - unfold Template.gbind. add_box. add_box.
    repeat constructor; by_tags slide; reflexivity.
  - unfold Template.gbind at 1.
    set (hi := Template.hasTextType slide "item").
    set (hn := Template.hasTextType slide "itemNumber").
    erewrite forEach_if_appends; cycle 1.
    { add_row.
      instantiate (1 := (1 + (if hn then 0 else 1) + (if hi then 0 else 1))%nat).
      lia. }
    add_box. subst hi hn.
    repeat constructor; by_tags slide; reflexivity.
  - unfold Template.gbind. add_box. add_box. add_box.
    repeat constructor; by_tags slide; reflexivity.
  - unfold Template.gbind at 1. add_box. unfold Template.gbind at 1. add_box.
    match goal with
    | |- context [Template.hasTextType ?s "item"] =>
        set (hi := Template.hasTextType s "item")
    end.
    match goal with
    | |- context [Template.hasTextType ?s "itemTitle"] =>
        set (hit := Template.hasTextType s "itemTitle")
    end.
    match goal with
    | |- context [Template.hasTextType ?s "itemNumber"] =>
        set (hn := Template.hasTextType s "itemNumber")
    end.
    erewrite forEach_if_appends; cycle 1.
    { add_row.
      instantiate (1 := (1 + (if hn then 0 else 1) + (if hit then 0 else 1)
                         + (if hi then 0 else 1))%nat). lia. }
    rewrite withElements_app. subst hi hit hn.
    repeat constructor; by_tags slide; reflexivity.
  - add_box. repeat constructor; by_tags slide; reflexivity.
Qed.

(** On a slide that carries every tested tag a run adds nothing and
    draws no identifier. *)
Lemma ensure_settled slide slideType n :
  Forall (fun t => hasTag (Template.s_elements slide) t = true)
    (testedTags slideType) ->
  ensurePlaceholders slide slideType n = (slide, n).
Proof.
  intros H. unfold Template.ensurePlaceholders. cbv zeta.
  destruct slideType; cbn [testedTags] in H;
    repeat match goal with
    | H : Forall _ (_ :: _) |- _ => apply Forall_cons in H as [? H]
    end;
    clear H;
    unfold Template.gbind, Template.addUnlessTagged, Template.addUnless,
      Template.gret;
    cbn [Template.cfg_textType];
    repeat (rewrite ?hasTextType_hasTag;
            match goal with
            | Hx : hasTag _ _ = true |- _ => rewrite !Hx
            end;
            cbv beta iota zeta; cbn [negb orb]);
    reflexivity.
Qed.

End PlaceholderRuns.

Section TemplateSlideFacts.

Variable viewportSize : Q.
Variable viewportRatio : Q.
Variable fontName : Js.jsstring.
Variable fontColor : Js.jsstring.

Local Abbreviation autoTag :=
  (Template.autoTagSlideTextTypes viewportSize viewportRatio).
Local Abbreviation ensurePlaceholders :=
  (Template.ensurePlaceholders viewportSize viewportRatio fontName fontColor).
Local Abbreviation templateOf :=
  (Template.templateOf viewportSize viewportRatio fontName fontColor).

(** X16: the tagger changes nothing but tags. Whatever the role, the
    slide keeps its identifier, background, remark and type, its
    elements are those of the input up to their tags, and an element
    that is no text candidate (neither a text nor a shape with a text)
    is left as it is. *)
Theorem autoTag_changes_tags_only (slide : Template.Slide)
    (slideType : Template.SlideType) :
  let out := autoTag slide slideType in
  (Template.s_id out, Template.s_background out, Template.s_remark out,
   Template.s_type out) =
  (Template.s_id slide, Template.s_background slide, Template.s_remark slide,
   Template.s_type slide) /\
  map Template.clearTextType (Template.s_elements out) =
  map Template.clearTextType (Template.s_elements slide) /\
  forall k e,
    Template.s_elements slide !! k = Some e ->
    Template.isTextCandidate e = false ->
    Template.s_elements out !! k = Some e.
Proof.
  cbv zeta. split; [|split].
  - unfold Template.autoTagSlideTextTypes.
    destruct (Template.getTextCandidates slide); reflexivity.
  - apply autoTag_clear.
  - intros k e Hk He.
    pose proof (autoTag_clear viewportSize viewportRatio slide slideType) as Hm.
    apply (f_equal (fun l => l !! k)) in Hm.
    change (map ?f ?l) with (f <$> l) in Hm.
    rewrite !list_lookup_fmap, Hk in Hm. cbn in Hm.
    destruct (Template.s_elements (autoTag slide slideType) !! k) as [e'|];
      [|discriminate].
    cbn in Hm. injection Hm as Hm. f_equal.
    rewrite (clear_not_candidate e He) in Hm.
    rewrite <- Hm. symmetry. apply clear_not_candidate.
    rewrite <- candidate_clear, Hm. exact He.
Qed.

(** X17: every template slide carries exactly one title. When the
    source has a text candidate the tagger tags one of its elements as
    the title and no other tag it sets later replaces or repeats it;
    when the source has none, the tagger tags nothing and the
    synthesizer appends the one title box. *)
Theorem template_slide_one_title (source : Template.Slide)
    (slideType : Template.SlideType) (n : nat) :
  length
    (tagged "title" (Template.s_elements (fst (templateOf source slideType n))))
  = 1%nat /\
  (hasTag
     (Template.s_elements (taggedSlide viewportSize viewportRatio source slideType))
     "title" = true <->
   Template.getTextCandidates source <> []).
Proof.
  unfold Template.templateOf. cbv zeta. fold (taggedSlide viewportSize viewportRatio source slideType).
  rewrite ensure_titles, hasTag_tagged.
  unfold taggedSlide. rewrite autoTag_titles.
  change (Template.getTextCandidates
            (Template.withType (Template.cloneSlide source) slideType))
    with (Template.getTextCandidates source).
  destruct (Template.getTextCandidates source) as [|c cs]; cbn.
  - split; [reflexivity|]. split; [discriminate|]. intros H. contradiction.
  - split; [reflexivity|]. split; [discriminate|reflexivity].
Qed.

(** X18: the synthesizer settles in one run. After a run the slide
    carries every tag that the synthesizer tests for the role, so a
    second run on the result appends no box and draws no identifier. *)
Theorem ensurePlaceholders_idempotent (slide : Template.Slide)
    (slideType : Template.SlideType) (n m : nat) :
  let once := fst (ensurePlaceholders slide slideType n) in
  Forall (fun t => hasTag (Template.s_elements once) t = true)
    (testedTags slideType) /\
  ensurePlaceholders once slideType m = (once, m).
Proof.
  cbv zeta.
  pose proof (ensure_tested viewportSize viewportRatio fontName fontColor
                slide slideType n) as H.
  split; [exact H|]. apply ensure_settled, H.
Qed.

End TemplateSlideFacts.

(* ================================================================== *)
(** * Further properties of the scores and of the role assignment *)
(* ================================================================== *)

Section ScoreBounds.

Variable viewportSize : Q.
Variable viewportRatio : Q.

Local Abbreviation score := (Template.scoreSlideAs viewportSize viewportRatio).
Local Abbreviation stats := (Template.getSlideTextStats viewportSize viewportRatio).

(** The end score reaches the threshold of 80 exactly with a keyword. *)
Lemma end_score_keyword (slide : Template.Slide) :
  if hasEndWord viewportSize viewportRatio slide
  then (120 <= score slide Template.end_)%Z
  else (score slide Template.end_ <= 30)%Z.
Proof.
  unfold hasEndWord, Template.scoreSlideAs. cbv zeta.
  destruct (existsb _ Template.endWords);
    destruct (length _ <=? 3)%nat; destruct (Template.geb _ 36);
    cbn [Template.bonus]; lia.
Qed.

(** The scores of a slide without usable text. *)
Lemma blank_scores (slide : Template.Slide) :
  noUsableText viewportSize viewportRatio slide ->
  score slide Template.end_ = 20%Z /\
  score slide Template.cover = 20%Z /\
  score slide Template.contents = 0%Z /\
  score slide Template.transition = 30%Z /\
  score slide Template.content = 0%Z.
Proof.
  unfold noUsableText. intros Hu.
  destruct (stats_of_usable viewportSize viewportRatio slide) as (Hl & Hm & Hn).
  cbv zeta in Hl, Hm, Hn. rewrite Hu in Hl, Hm, Hn.
  cbn [map Js.join fold_left length] in Hl, Hm, Hn.
  assert (Template.listLikeCount (stats slide) = 0%nat) as Hc by lia.
  unfold Template.scoreSlideAs. cbv zeta. rewrite Hl, Hm, Hc, Hu.
  repeat split; vm_compute; reflexivity.
Qed.

End ScoreBounds.

Section PickFacts.

Variable viewportSize : Q.
Variable viewportRatio : Q.

Local Abbreviation score := (Template.scoreSlideAs viewportSize viewportRatio).
Local Abbreviation pickBestIndex :=
  (Template.pickBestIndex viewportSize viewportRatio).
Local Abbreviation assignRoles := (Template.assignRoles viewportSize viewportRatio).

Lemma slideAt_In ss i s : slideAt ss i = Some s -> In s ss.
Proof.
  intros H. apply slideAt_Some in H as [_ H].
  apply list_elem_of_In. eapply list_elem_of_lookup_2, H.
Qed.

Lemma In_slideAt ss s : In s ss -> exists i, slideAt ss i = Some s.
Proof.
  intros H. apply list_elem_of_In, list_elem_of_lookup_1 in H as [i Hi].
  exists (Z.of_nat i). apply slideAt_Some. split; [lia|].
  rewrite Nat2Z.id. exact Hi.
Qed.

Lemma first_unclaimed ss : ss <> [] -> unclaimedAt ss ∅ 0.
Proof.
  intros Hne. split; [|apply not_elem_of_empty].
  destruct ss as [|s ss]; [contradiction|]. exists s. reflexivity.
Qed.

Lemma defaultAt_last ss :
  ss <> [] -> defaultAt ss (Z.of_nat (length ss) - 1) = (Z.of_nat (length ss) - 1)%Z.
Proof.
  intros Hne. unfold defaultAt.
  destruct ss; [contradiction|]. cbn [length]. lia.
Qed.

(** The index that [assignRoles] gives to the end role is the first
    pick. *)
Lemma endIndex_pick ss :
  Template.endIndex (assignRoles ss) =
  fst (pickBestIndex ss Template.end_ (Z.of_nat (length ss) - 1) 80 ∅).
Proof.
  unfold Template.assignRoles.
  destruct (Template.pickBestIndex _ _ _ Template.end_ _ _ _) as [i1 u1].
  destruct (Template.pickBestIndex _ _ _ Template.cover _ _ _) as [i2 u2].
  destruct (Template.pickBestIndex _ _ _ Template.contents _ _ _) as [i3 u3].
  destruct (Template.pickBestIndex _ _ _ Template.transition _ _ _) as [i4 u4].
  reflexivity.
Qed.

(** X19: the end slide of the template is made of a slide whose usable
    text holds one of the end words (thanks, the end, ...) whenever the
    deck has such a slide, and of the last slide of the deck otherwise:
    for this role nothing but the keyword lifts a score to the
    threshold. *)
Theorem end_slide_by_keyword (ss : list Template.Slide) :
  ss <> [] ->
  let i := Template.endIndex (assignRoles ss) in
  if existsb (hasEndWord viewportSize viewportRatio) ss
  then exists s,
         slideAt ss i = Some s /\ hasEndWord viewportSize viewportRatio s = true
  else i = (Z.of_nat (length ss) - 1)%Z.
Proof.
  intros Hne i. subst i. rewrite endIndex_pick.
  pose proof (pickBestIndex_spec viewportSize viewportRatio ss Template.end_
                (Z.of_nat (length ss) - 1) 80 ∅) as Hpick.
  destruct (pickBestIndex ss Template.end_ (Z.of_nat (length ss) - 1) 80 ∅)
    as [idx u1].
  cbn [fst snd] in *.
  assert (Hhigh : forall s sb,
            slideAt ss idx = Some s -> score s Template.end_ = sb ->
            (80 <= sb)%Z -> hasEndWord viewportSize viewportRatio s = true).
  { intros s sb _ Hs Hsb.
    pose proof (end_score_keyword viewportSize viewportRatio s) as H.
    destruct (hasEndWord viewportSize viewportRatio s); [reflexivity|lia]. }
  destruct (existsb (hasEndWord viewportSize viewportRatio) ss) eqn:Hex.
  - apply existsb_exists in Hex as (s & Hin & Hword).
    apply In_slideAt in Hin as [j Hj].
    assert (unclaimedAt ss ∅ j) as Hun
      by (split; [eexists; exact Hj|apply not_elem_of_empty]).
    assert (scoreAt viewportSize viewportRatio ss Template.end_ j
            = Some (score s Template.end_)) as Hsj
      by (unfold scoreAt; rewrite Hj; reflexivity).
    pose proof (end_score_keyword viewportSize viewportRatio s) as Hs.
    rewrite Hword in Hs.
    destruct Hpick as [[(sb & Hbest & Hth & _)|(Hlow & _)]|(Hnone & _)].
    + destruct Hbest as (_ & Hsc & _). unfold scoreAt in Hsc.
      destruct (slideAt ss idx) as [s'|] eqn:Hs'; [|discriminate].
      cbn in Hsc. injection Hsc as Hsc.
      exists s'. split; [reflexivity|]. eapply Hhigh; eauto.
    + specialize (Hlow j _ Hun Hsj). lia.
    + destruct (Hnone j Hun).
  - destruct Hpick as [[(sb & Hbest & Hth & _)|(_ & Hfb)]|(Hnone & _)].
    + exfalso. destruct Hbest as (_ & Hsc & _). unfold scoreAt in Hsc.
      destruct (slideAt ss idx) as [s'|] eqn:Hs'; [|discriminate].
      cbn in Hsc. injection Hsc as Hsc.
      assert (hasEndWord viewportSize viewportRatio s' = true) as Hw
        by (eapply Hhigh; eauto).
      assert (existsb (hasEndWord viewportSize viewportRatio) ss = true) as E.
      { apply existsb_exists. exists s'. split; [|exact Hw].
        eapply slideAt_In, Hs'. }
      congruence.
    + destruct Hfb as [(_ & -> & _)|(Hin & _)].
      * apply defaultAt_last, Hne.
      * apply elem_of_empty in Hin. contradiction.
    + destruct (Hnone 0%Z (first_unclaimed ss Hne)).
Qed.

(** A pick whose candidates all stay under the threshold takes the
    positional default when that one is free. *)
Lemma pick_default ss type fallbackIndex threshold used :
  (forall j sj,
     unclaimedAt ss used j ->
     scoreAt viewportSize viewportRatio ss type j = Some sj ->
     (sj < threshold)%Z) ->
  defaultAt ss fallbackIndex ∉ used ->
  pickBestIndex ss type fallbackIndex threshold used =
  (defaultAt ss fallbackIndex, {[ defaultAt ss fallbackIndex ]} ∪ used).
Proof.
  intros Hlow Hfree.
  pose proof (pickBestIndex_spec viewportSize viewportRatio ss type
                fallbackIndex threshold used) as Hpick.
  destruct (pickBestIndex ss type fallbackIndex threshold used) as [idx u].
  cbn [fst snd] in Hpick.
  destruct Hpick as [[(sb & Hbest & Hth & _)|(_ & Hfb)]|(_ & Hin & _)].
  - destruct Hbest as (Hun & Hsc & _). specialize (Hlow _ _ Hun Hsc). lia.
  - destruct Hfb as [(_ & -> & ->)|(Hin & _)]; [reflexivity|contradiction].
  - contradiction.
Qed.

(** X20: a deck of four or more slides none of which holds usable text
    (slides of pictures, say) is assigned by position: no score reaches a
    threshold, the last slide ends the deck, and the first three slides
    are cover, contents and transition. *)
Theorem blank_deck_by_position (ss : list Template.Slide) :
  (4 <= length ss)%nat ->
  Forall (noUsableText viewportSize viewportRatio) ss ->
  assignRoles ss = positional (length ss).
Proof.
  intros Hlen Hblank.
  assert (Hscores : forall type j sj threshold,
            scoreAt viewportSize viewportRatio ss type j = Some sj ->
            type <> Template.content -> (50 <= threshold)%Z ->
            (sj < threshold)%Z).
  { intros type j sj threshold Hsc Hty Hth. unfold scoreAt in Hsc.
    destruct (slideAt ss j) as [s|] eqn:Hs; [|discriminate].
    cbn in Hsc. injection Hsc as <-.
    apply slideAt_In in Hs. rewrite List.Forall_forall in Hblank.
    destruct (blank_scores viewportSize viewportRatio s (Hblank s Hs))
      as (He & Hc & Hk & Ht & _).
    destruct type; rewrite ?He, ?Hc, ?Hk, ?Ht; try lia. contradiction. }
  assert (Hd : forall k, (0 <= k < Z.of_nat (length ss))%Z -> defaultAt ss k = k)
    by (intros k Hk; unfold defaultAt; lia).
  unfold Template.assignRoles, positional.
  rewrite pick_default;
    [|intros j sj _ Hsc; eapply Hscores; [exact Hsc|discriminate|lia]
     |apply not_elem_of_empty].
  rewrite (Hd (Z.of_nat (length ss) - 1)%Z) by lia.
  rewrite pick_default;
    [|intros j sj _ Hsc; eapply Hscores; [exact Hsc|discriminate|lia]
     |rewrite (Hd 0%Z) by lia;
      rewrite elem_of_union, elem_of_singleton, elem_of_empty; lia].
  rewrite (Hd 0%Z) by lia.
  rewrite pick_default;
    [|intros j sj _ Hsc; eapply Hscores; [exact Hsc|discriminate|lia]
     |rewrite (Hd 1%Z) by lia;
      rewrite !elem_of_union, !elem_of_singleton, elem_of_empty; lia].
  rewrite (Hd 1%Z) by lia.
  rewrite pick_default;
    [|intros j sj _ Hsc; eapply Hscores; [exact Hsc|discriminate|lia]
     |rewrite (Hd 2%Z) by lia;
      rewrite !elem_of_union, !elem_of_singleton, elem_of_empty; lia].
  rewrite (Hd 2%Z) by lia.
  reflexivity.
Qed.

End PickFacts.

Lemma end_slide_by_keyword_witness :
  let ss := [welcomeSlide; closingSlide; agendaSlide] in
  let i := Template.endIndex (Template.assignRoles 1000 0.5625 ss) in
  existsb (hasEndWord 1000 0.5625) ss = true /\
  exists s, slideAt ss i = Some s /\ hasEndWord 1000 0.5625 s = true.
Proof.
  intros ss i.
  assert (Hne : ss <> []) by discriminate.
  assert (Hex : existsb (hasEndWord 1000 0.5625) ss = true)
    by (vm_compute; reflexivity).
  split; [exact Hex|].
  pose proof (end_slide_by_keyword 1000 0.5625 ss Hne) as H.
  cbv zeta in H. rewrite Hex in H. exact H.
Defined.

Lemma blank_deck_by_position_witness :
  let ss := [pictureSlide 1; pictureSlide 3; pictureSlide 5; pictureSlide 7;
             pictureSlide 9] in
  (4 <= length ss)%nat /\
  Forall (noUsableText 1000 0.5625) ss /\
  Template.assignRoles 1000 0.5625 ss = positional 5.
Proof.
  intros ss.
  assert (Hlen : (4 <= length ss)%nat) by (cbn; lia).
  assert (Hblank : Forall (noUsableText 1000 0.5625) ss)
    by (repeat constructor).
  split; [exact Hlen|]. split; [exact Hblank|].
  exact (blank_deck_by_position 1000 0.5625 ss Hlen Hblank).
Defined.

(** Five numbers below four are not all different. *)
Lemma five_in_four (n j c k t e : Z) :
  (n <= 4)%Z ->
  (0 <= j < n)%Z -> (0 <= c < n)%Z -> (0 <= k < n)%Z -> (0 <= t < n)%Z ->
  (0 <= e < n)%Z ->
  j <> c -> j <> k -> j <> t -> j <> e ->
  c <> k -> c <> t -> c <> e -> k <> t -> k <> e -> t <> e -> False.
Proof.
  intros Hn Bj Bc Bk Bt Be.
  assert (Hj : (j = 0 \/ j = 1 \/ j = 2 \/ j = 3)%Z) by lia.
  assert (Hc : (c = 0 \/ c = 1 \/ c = 2 \/ c = 3)%Z) by lia.
  assert (Hk : (k = 0 \/ k = 1 \/ k = 2 \/ k = 3)%Z) by lia.
  assert (Ht : (t = 0 \/ t = 1 \/ t = 2 \/ t = 3)%Z) by lia.
  assert (He : (e = 0 \/ e = 1 \/ e = 2 \/ e = 3)%Z) by lia.
  clear Hn Bj Bc Bk Bt Be. intros.
  destruct Hj as [->|[->|[->| ->]]], Hc as [->|[->|[->| ->]]]; try congruence;
    destruct Hk as [->|[->|[->| ->]]]; try congruence;
    destruct Ht as [->|[->|[->| ->]]]; try congruence;
    destruct He as [->|[->|[->| ->]]]; congruence.
Qed.

Section DeckFacts.

Variable viewportSize : Q.
Variable viewportRatio : Q.

Local Abbreviation pickBestIndex :=
  (Template.pickBestIndex viewportSize viewportRatio).
Local Abbreviation assignRoles := (Template.assignRoles viewportSize viewportRatio).
Local Abbreviation claimed a :=
  [Template.coverIndex a; Template.contentsIndex a;
   Template.transitionIndex a; Template.endIndex a].

(** A pick claims a slide that no role has claimed before, or no slide
    is left, and then it claims nothing. *)
Lemma amendedPick_step ss type fallbackIndex threshold
    (used : gset Z) idx (used' : gset Z) :
  amendedPick viewportSize viewportRatio ss type fallbackIndex threshold
    used idx used' ->
((idx ∉ used) /\ used' = {[ idx ]} ∪ used) \/
  ((forall j, ~ unclaimedAt ss used j) /\ idx ∈ used /\ used' = used).
Proof.
  intros [[(sb & Hb & _ & ->)|(_ & [(Hn & -> & ->)|(_ & Hf & ->)])]
         |(Hnone & Hin & -> & ->)].
  - left. destruct Hb as ((_ & Hn) & _). split; [exact Hn|reflexivity].
  - left. split; [exact Hn|reflexivity].
  - left. destruct Hf as ((_ & Hn) & _). split; [exact Hn|reflexivity].
  - right. split; [exact Hnone|]. split; [exact Hin|reflexivity].
Qed.

(** X21: on a deck that is not empty [pickBestIndex] returns the index
    of a slide of the deck; the set of claimed slides grows by that index
    at most, and as long as a slide is unclaimed the index is a new one,
    so that no two roles get the same slide. *)
Theorem pickBestIndex_bounds (ss : list Template.Slide)
    (type : Template.SlideType) (fallbackIndex threshold : Z) (used : gset Z) :
  ss <> [] ->
  let r := pickBestIndex ss type fallbackIndex threshold used in
  (0 <= fst r < Z.of_nat (length ss))%Z /\
  used ⊆ snd r /\ snd r ⊆ {[ fst r ]} ∪ used /\
  ((exists j, unclaimedAt ss used j) ->
   (fst r ∉ used) /\ snd r = {[ fst r ]} ∪ used).
Proof.
  intros Hne r. subst r.
  pose proof (pickBestIndex_spec viewportSize viewportRatio ss type
                fallbackIndex threshold used) as Hpick.
  pose proof (amendedPick_valid viewportSize viewportRatio ss type
                fallbackIndex threshold used _ _ Hne Hpick) as [s Hs].
  apply slideAt_Some in Hs as [H0 Hs]. apply lookup_lt_Some in Hs.
  split; [lia|].
  destruct (amendedPick_step _ _ _ _ _ _ _ Hpick) as [[Hn ->]|(Hnone & Hin & ->)].
  - split; [apply union_subseteq_r|]. split; [reflexivity|].
    intros _. split; [exact Hn|reflexivity].
  - split; [reflexivity|]. split; [apply union_subseteq_r|].
    intros [j Hj]. destruct (Hnone j Hj).
Qed.

Lemma claimedPick_new ss type fallbackIndex threshold
    (used : gset Z) idx (used' : gset Z) :
  claimedPick viewportSize viewportRatio ss type fallbackIndex threshold
    used idx used' ->
  (idx ∉ used) /\ used' = {[ idx ]} ∪ used.
Proof.
  intros [(sb & Hb & _ & ->)|(_ & [(Hn & -> & ->)|(_ & Hf & ->)])].
  - destruct Hb as ((_ & Hn) & _). split; [exact Hn|reflexivity].
  - split; [exact Hn|reflexivity].
  - destruct Hf as ((_ & Hn) & _). split; [exact Hn|reflexivity].
Qed.

Ltac split_notin :=
  repeat match goal with
  | H : _ ∉ _ ∪ _ |- _ => apply not_elem_of_union in H as [? ?]
  | H : _ ∉ {[ _ ]} |- _ => apply not_elem_of_singleton in H
  end.

(** On a deck of four or more slides the four roles get four slides. *)
Lemma roles_distinct (ss : list Template.Slide) :
  (4 <= length ss)%nat -> NoDup (claimed (assignRoles ss)).
Proof.
  intros Hlen.
  destruct (assignRoles_four_slides viewportSize viewportRatio ss Hlen)
    as (u1 & u2 & u3 & u4 & H1 & H2 & H3 & H4).
  apply claimedPick_new in H1 as [_ ->].
  apply claimedPick_new in H2 as [N2 ->].
  apply claimedPick_new in H3 as [N3 ->].
  apply claimedPick_new in H4 as [N4 _].
  set (a := assignRoles ss) in *.
  split_notin.
  repeat (apply NoDup_cons; split);
    rewrite ?not_elem_of_cons; try apply NoDup_nil_2;
    repeat split; try apply not_elem_of_nil; congruence.
Qed.

(** On a deck of four or fewer slides every slide gets a role. *)
Lemma slideAt_bounds ss i :
  is_Some (slideAt ss i) -> (0 <= i < Z.of_nat (length ss))%Z.
Proof.
  intros [s H]. apply slideAt_Some in H as [H0 H].
  apply lookup_lt_Some in H. lia.
Qed.

Lemma roles_cover (ss : list Template.Slide) (j : Z) :
  ss <> [] -> (length ss <= 4)%nat ->
  is_Some (slideAt ss j) -> j ∈ claimed (assignRoles ss).
Proof.
  intros Hne Hlen Hj.
  destruct (decide (j ∈ claimed (assignRoles ss))) as [Hin|Hout]; [exact Hin|].
  exfalso.
  destruct (assignRoles_valid viewportSize viewportRatio ss Hne)
    as (Vc & Vk & Vt & Ve).
  destruct (assignRoles_amended viewportSize viewportRatio ss)
    as (u1 & u2 & u3 & u4 & H1 & H2 & H3 & H4).
  set (a := assignRoles ss) in *.
  assert (Hn : (Z.of_nat (length ss) <= 4)%Z) by lia.
  pose proof (slideAt_bounds _ _ Hj) as Bj.
  apply slideAt_bounds in Vc, Vk, Vt, Ve.
  rewrite !not_elem_of_cons in Hout.
  destruct Hout as (Jc & Jk & Jt & Je & _).
  assert (forall u : gset Z, j ∉ u -> unclaimedAt ss u j) as Hun
    by (intros u Hu; split; assumption).
  apply amendedPick_step in H1 as [[N1 ->]|(Hnone & _)];
    [|destruct (Hnone j (Hun _ (not_elem_of_empty j)))].
  assert (j ∉ ({[Template.endIndex a]} ∪ ∅ : gset Z)) as J1
    by (rewrite not_elem_of_union, not_elem_of_singleton;
        split; [exact Je|apply not_elem_of_empty]).
  apply amendedPick_step in H2 as [[N2 ->]|(Hnone & _)];
    [|destruct (Hnone j (Hun _ J1))].
  assert (j ∉ ({[Template.coverIndex a]} ∪ ({[Template.endIndex a]} ∪ ∅) : gset Z))
    as J2
    by (rewrite not_elem_of_union, not_elem_of_singleton; split; assumption).
  apply amendedPick_step in H3 as [[N3 ->]|(Hnone & _)];
    [|destruct (Hnone j (Hun _ J2))].
  assert (j ∉ ({[Template.contentsIndex a]}
               ∪ ({[Template.coverIndex a]} ∪ ({[Template.endIndex a]} ∪ ∅))
               : gset Z)) as J3
    by (rewrite not_elem_of_union, not_elem_of_singleton; split; assumption).
  apply amendedPick_step in H4 as [[N4 _]|(Hnone & _)];
    [|destruct (Hnone j (Hun _ J3))].
  clear J1 J2 J3 Hun. split_notin.
  apply (five_in_four (Z.of_nat (length ss)) j (Template.coverIndex a)
           (Template.contentsIndex a) (Template.transitionIndex a)
           (Template.endIndex a)); assumption || congruence.
Qed.

Lemma filter_fst_length {A B} (f : A -> bool) (g : A * B -> bool)
    (l : list (A * B)) :
  (forall p, g p = f (fst p)) ->
  length (List.filter g l) = length (List.filter f (map fst l)).
Proof.
  intros Hg. induction l as [|p l IH]; [reflexivity|].
  cbn [List.filter map]. rewrite Hg. destruct (f (fst p)); cbn [length]; lia.
Qed.

(** The number of slides that no role has claimed. *)
Lemma unclaimedSlides_length (ss : list Template.Slide) (a : Template.Assignment) :
  length (unclaimedSlides ss a) =
  length (List.filter (fun i => negb (bool_decide (i ∈ claimed a)))
            (map Z.of_nat (seq 0 (length ss)))).
Proof.
  unfold unclaimedSlides. rewrite length_map, <- indices_seq.
  apply filter_fst_length. intros [i s]. reflexivity.
Qed.

Lemma indices_NoDup (n : nat) : List.NoDup (map Z.of_nat (seq 0 n)).
Proof.
  apply NoDup_ListNoDup. apply (NoDup_fmap_2 Z.of_nat).
  apply NoDup_ListNoDup, seq_NoDup.
Qed.

Lemma count_rest (l c : list Z) :
  List.NoDup l -> NoDup c -> (forall x, x ∈ c -> In x l) ->
  length (List.filter (fun i => negb (bool_decide (i ∈ c))) l) =
  (length l - length c)%nat.
Proof.
  intros Hl Hc Hsub.
  pose proof (List.filter_length (fun i => bool_decide (i ∈ c)) l) as Hlen.
  assert (List.filter (fun i => bool_decide (i ∈ c)) l ≡ₚ c) as Hp.
  { apply NoDup_Permutation.
    - apply NoDup_ListNoDup, List.NoDup_filter, Hl.
    - exact Hc.
    - intros x. rewrite list_elem_of_In, filter_In, bool_decide_eq_true.
      split; [tauto|]. intros Hx. split; [apply Hsub, Hx|exact Hx]. }
  apply Permutation_length in Hp. lia.
Qed.

Lemma count_none (l c : list Z) :
  (forall x, In x l -> x ∈ c) ->
  List.filter (fun i => negb (bool_decide (i ∈ c))) l = [].
Proof.
  intros Hsub. induction l as [|x l IH]; [reflexivity|].
  cbn [List.filter]. rewrite bool_decide_eq_true_2 by (apply Hsub; left; reflexivity).
  cbn [negb]. apply IH. intros y Hy. apply Hsub. right. exact Hy.
Qed.

Lemma In_indices (n : nat) (x : Z) :
  In x (map Z.of_nat (seq 0 n)) <-> (0 <= x < Z.of_nat n)%Z.
Proof.
  rewrite in_map_iff. split.
  - intros (i & <- & Hi). apply in_seq in Hi. lia.
  - intros Hx. exists (Z.to_nat x). split; [lia|]. apply in_seq. lia.
Qed.

(** The slides left for the content role: all but four on a deck of
    four or more slides, none on a smaller one. *)
Lemma unclaimedSlides_count (ss : list Template.Slide) :
  ss <> [] ->
  length (unclaimedSlides ss (assignRoles ss)) = (length ss - 4)%nat.
Proof.
  intros Hne. rewrite unclaimedSlides_length.
  destruct (assignRoles_valid viewportSize viewportRatio ss Hne)
    as (Vc & Vk & Vt & Ve).
  apply slideAt_bounds in Vc, Vk, Vt, Ve.
  destruct (Nat.le_gt_cases 4 (length ss)) as [Hge|Hlt].
  - rewrite count_rest.
    + rewrite length_map, length_seq. reflexivity.
    + apply indices_NoDup.
    + apply roles_distinct, Hge.
    + intros x Hx. apply In_indices.
      repeat (apply elem_of_cons in Hx as [->|Hx]; [assumption|]).
      apply elem_of_nil in Hx. contradiction.
  - rewrite count_none; [cbn; lia|].
    intros x Hx. apply In_indices in Hx.
    apply roles_cover; [exact Hne|lia|].
    destruct (lookup_lt_is_Some_2 ss (Z.to_nat x)) as [s Hs]; [lia|].
    exists s. apply slideAt_Some. split; [lia|exact Hs].
Qed.

End DeckFacts.

Lemma pickBestIndex_bounds_witness :
  let ss := [welcomeSlide; closingSlide; agendaSlide] in
  let r := Template.pickBestIndex 1000 0.5625 ss Template.cover 0 60 {[ 1%Z ]} in
  (ss <> []) /\
  (0 <= fst r < Z.of_nat (length ss))%Z /\
  (({[ 1%Z ]} : gset Z) ⊆ snd r) /\ (snd r ⊆ {[ fst r ]} ∪ {[ 1%Z ]}) /\
  ((exists j, unclaimedAt ss {[ 1%Z ]} j) ->
   (fst r ∉ ({[ 1%Z ]} : gset Z)) /\ snd r = {[ fst r ]} ∪ {[ 1%Z ]}).
Proof.
  intros ss r.
  assert (Hne : ss <> []) by discriminate.
  split; [exact Hne|].
  exact (pickBestIndex_bounds 1000 0.5625 ss Template.cover 0 60 {[ 1%Z ]} Hne).
Defined.

Section DeckSize.

Variable viewportSize : Q.
Variable viewportRatio : Q.
Variable fontName : Js.jsstring.
Variable fontColor : Js.jsstring.

Local Abbreviation templateOf :=
  (Template.templateOf viewportSize viewportRatio fontName fontColor).
Local Abbreviation assignRoles := (Template.assignRoles viewportSize viewportRatio).

(** The deck read off its description: the four single roles around the
    content slides. *)
Lemma claimedDeck_parts ss a n deck :
  claimedDeck viewportSize viewportRatio fontName fontColor ss a n deck ->
  exists coverSrc contentsSrc transitionSrc endSrc n1 n2 n3 n4,
    slideAt ss (Template.coverIndex a) = Some coverSrc /\
    slideAt ss (Template.contentsIndex a) = Some contentsSrc /\
    slideAt ss (Template.transitionIndex a) = Some transitionSrc /\
    slideAt ss (Template.endIndex a) = Some endSrc /\
    let contentSources :=
      match unclaimedSlides ss a with
      | [] => [coverSrc]
      | l => l
      end in
    deck =
      [fst (templateOf coverSrc Template.cover n);
       fst (templateOf contentsSrc Template.contents n1);
       fst (templateOf transitionSrc Template.transition n2)]
      ++ fst (contentTemplates viewportSize viewportRatio fontName fontColor
                contentSources n4)
      ++ [fst (templateOf endSrc Template.end_ n3)].
Proof.
  unfold claimedDeck.
  intros (cs & ks & ts & es & Hc & Hk & Ht & He & Hd).
  cbv zeta in Hd.
  destruct (Template.templateOf _ _ _ _ cs Template.cover n) as [s1 n1] eqn:E1.
  destruct (Template.templateOf _ _ _ _ ks Template.contents n1) as [s2 n2] eqn:E2.
  destruct (Template.templateOf _ _ _ _ ts Template.transition n2) as [s3 n3] eqn:E3.
  destruct (Template.templateOf _ _ _ _ es Template.end_ n3) as [s4 n4] eqn:E4.
  destruct (contentTemplates _ _ _ _ _ n4) as [cslides n5] eqn:E5.
  destruct Hd as (Hd & _).
  exists cs, ks, ts, es, n1, n2, n3, n4.
  repeat (split; [assumption|]).
  cbv zeta. rewrite E1, E2, E3, E4, E5. exact Hd.
Qed.

Lemma sourceSlidesOf_length slides n0 :
  length (fst (Template.sourceSlidesOf slides n0)) = Nat.max 1 (length slides).
Proof. destruct slides as [|s [|s' l]]; reflexivity. Qed.

(** A template always has at least five slides: as many as the deck
    when that has five or more, and five for every smaller deck. *)
Lemma templateSlides_size (slides : list Template.Slide) (n0 : nat) :
  exists t,
    Template.templateSlides viewportSize viewportRatio fontName fontColor
      slides n0 = Some t /\
    length (Template.t_slides t) = Nat.max 5 (length slides).
Proof.
  destruct (templateSlides_spec viewportSize viewportRatio fontName fontColor
              slides n0) as (t & new & Hrun & _ & Hdeck).
  exists t. split; [exact Hrun|].
  pose proof (sourceSlidesOf_nonempty slides n0) as Hne.
  pose proof (sourceSlidesOf_length slides n0) as Hlen.
  set (ss := fst (Template.sourceSlidesOf slides n0)) in *.
  apply claimedDeck_parts in Hdeck
    as (cs & ks & ts & es & n1 & n2 & n3 & n4 & _ & _ & _ & _ & ->).
  pose proof (unclaimedSlides_count viewportSize viewportRatio ss Hne) as Hcount.
  rewrite !length_app, contentTemplates_length. cbn [length].
  destruct (unclaimedSlides ss (assignRoles ss)) as [|u us]; cbn [length] in *; lia.
Qed.

Lemma autoTag_origin slide slideType :
  origin
    (Template.autoTagSlideTextTypes viewportSize viewportRatio slide slideType) =
  origin slide.
Proof.
  unfold Template.autoTagSlideTextTypes.
  destruct (Template.getTextCandidates slide); reflexivity.
Qed.

(** A template slide keeps identifier, background and remark of its
    source. *)
Lemma templateOf_origin source slideType n :
  origin (fst (templateOf source slideType n)) = origin source.
Proof.
  unfold Template.templateOf. cbv zeta.
  destruct (ensure_placed viewportSize viewportRatio fontName fontColor
              (Template.autoTagSlideTextTypes viewportSize viewportRatio
                 (Template.withType (Template.cloneSlide source) slideType)
                 slideType)
              slideType n) as (app & Hout & _).
  rewrite Hout.
  transitivity
    (origin
       (Template.autoTagSlideTextTypes viewportSize viewportRatio
          (Template.withType (Template.cloneSlide source) slideType)
          slideType)); [reflexivity|].
  rewrite autoTag_origin. reflexivity.
Qed.

Lemma contentTemplates_origin sources n :
  map origin
    (fst (contentTemplates viewportSize viewportRatio fontName fontColor
            sources n)) = map origin sources.
Proof.
  revert n. induction sources as [|s r IH]; intros n; [reflexivity|].
  cbn [contentTemplates].
  pose proof (templateOf_origin s Template.content n) as Ht.
  destruct (Template.templateOf _ _ _ _ s Template.content n) as [o n1].
  specialize (IH n1).
  destruct (contentTemplates _ _ _ _ r n1) as [os n2].
  cbn [fst map] in *. rewrite Ht, IH. reflexivity.
Qed.

Lemma filter_split {A} (f : A -> bool) (l : list A) :
  l ≡ₚ List.filter f l ++ List.filter (fun x => negb (f x)) l.
Proof.
  induction l as [|x l IH]; [reflexivity|].
  cbn [List.filter]. destruct (f x); cbn [negb app].
  - constructor. exact IH.
  - rewrite <- Permutation_middle. constructor. exact IH.
Qed.

Lemma indexed_elem (ss : list Template.Slide) (i : Z) (s : Template.Slide) :
  (i, s) ∈ Template.indexed ss <-> slideAt ss i = Some s.
Proof.
  unfold Template.indexed. rewrite slideAt_Some, list_elem_of_lookup. split.
  - intros (k & Hk). rewrite list_lookup_imap in Hk.
    destruct (ss !! k) as [s'|] eqn:Es; [|discriminate].
    cbn in Hk. injection Hk as <- <-. split; [lia|].
    rewrite Nat2Z.id. exact Es.
  - intros [H0 Hs]. exists (Z.to_nat i). rewrite list_lookup_imap, Hs. cbn.
    rewrite Z2Nat.id by exact H0. reflexivity.
Qed.

Lemma indexed_NoDup (ss : list Template.Slide) : NoDup (Template.indexed ss).
Proof.
  apply NoDup_alt. intros i j [k s] Hi Hj. unfold Template.indexed in *.
  rewrite list_lookup_imap in Hi, Hj.
  destruct (ss !! i) as [si|]; [|discriminate].
  destruct (ss !! j) as [sj|]; [|discriminate].
  cbn in Hi, Hj. injection Hi as Hi _. injection Hj as Hj _. lia.
Qed.

(** X22: on a deck of five or more slides every slide is used for
    exactly one template slide: the template slides keep identifier,
    background and remark of the slides they are made of, and these are,
    up to the order, those of the deck. *)
Theorem template_uses_each_slide_once (slides : list Template.Slide) (n0 : nat) :
  (5 <= length slides)%nat ->
  exists t,
    Template.templateSlides viewportSize viewportRatio fontName fontColor
      slides n0 = Some t /\
    map origin (Template.t_slides t) ≡ₚ map origin slides.
Proof.
  intros Hfive.
  destruct (templateSlides_spec viewportSize viewportRatio fontName fontColor
              slides n0) as (t & new & Hrun & _ & Hdeck).
  exists t. split; [exact Hrun|].
  assert (fst (Template.sourceSlidesOf slides n0) = slides) as Hss
    by (destruct slides; [cbn in Hfive; lia|reflexivity]).
  rewrite Hss in Hdeck. clear Hss.
  assert (slides <> []) as Hne by (destruct slides; [cbn in Hfive; lia|discriminate]).
  apply claimedDeck_parts in Hdeck
    as (cs & ks & ts & es & n1 & n2 & n3 & n4 & Hc & Hk & Ht & He & ->).
  set (a := assignRoles slides) in *.
  pose proof (unclaimedSlides_count viewportSize viewportRatio slides Hne) as Hcount.
  fold a in Hcount.
  destruct (unclaimedSlides slides a) as [|u us] eqn:Eu;
    [cbn [length] in Hcount; lia|].
  rewrite <- Eu. clear Hcount Eu u us.
  rewrite !map_app, contentTemplates_origin. cbn [map].
  rewrite !templateOf_origin.
  (* the four single roles and the rest make up the deck *)
  set (inRole := fun p : Z * Template.Slide =>
         bool_decide
           (fst p ∈ [Template.coverIndex a; Template.contentsIndex a;
                     Template.transitionIndex a; Template.endIndex a])).
  assert (unclaimedSlides slides a =
          map snd (List.filter (fun p => negb (inRole p)) (Template.indexed slides)))
    as ->.
  { unfold unclaimedSlides. f_equal. apply filter_ext. intros [i s]. reflexivity. }
  assert (List.filter inRole (Template.indexed slides) ≡ₚ
          [(Template.coverIndex a, cs); (Template.contentsIndex a, ks);
           (Template.transitionIndex a, ts); (Template.endIndex a, es)]) as Hroles.
  { apply NoDup_Permutation.
    - apply NoDup_ListNoDup, List.NoDup_filter, NoDup_ListNoDup, indexed_NoDup.
    - pose proof (roles_distinct viewportSize viewportRatio slides ltac:(lia)) as Hnd.
      fold a in Hnd.
      apply (NoDup_fmap_1 fst). exact Hnd.
    - intros [i s]. rewrite list_elem_of_In, filter_In, <- list_elem_of_In.
      rewrite indexed_elem. unfold inRole. rewrite bool_decide_eq_true.
      cbn [fst]. rewrite !elem_of_cons, elem_of_nil.
      split.
      + intros [Hs [->|[->|[->|[->|[]]]]]];
          [rewrite Hc in Hs|rewrite Hk in Hs|rewrite Ht in Hs|rewrite He in Hs];
          injection Hs as <-; tauto.
      + intros [E|[E|[E|[E|E]]]];
          try (apply elem_of_nil in E; contradiction);
          injection E as -> ->; tauto. }
  assert (map origin slides ≡ₚ
          map origin (map snd (List.filter inRole (Template.indexed slides)))
          ++ map origin
               (map snd (List.filter (fun p => negb (inRole p))
                           (Template.indexed slides)))) as Hall.
  { rewrite <- map_app, <- map_app.
    rewrite <- (filter_split inRole (Template.indexed slides)).
    assert (map snd (Template.indexed slides) = slides) as ->; [|reflexivity].
    unfold Template.indexed. apply list_eq. intros k.
    rewrite list_lookup_fmap, list_lookup_imap.
    destruct (slides !! k); reflexivity. }
  rewrite Hall, Hroles. cbn [map snd app].
  rewrite (Permutation_app_comm _ [origin es]). cbn [app].
  do 3 constructor. reflexivity.
Qed.

End DeckSize.

Section EntryFacts.

Context {File Document Store : Type}.

Variable parse : File -> option Document.
Variable convert : Document -> list Template.Slide.
Variable viewportSize : Q.
Variable viewportRatio : Q.
Variable fontName : Js.jsstring.
Variable fontColor : Js.jsstring.

(** X23: for a file that the parser reads, and with the slides that
    the conversion makes of it, the template stage of
    [parsePPTXTemplate] cannot fail, whatever these slides are: the call
    returns a template of as many slides as the file has, and of five
    slides for a file with fewer (with none, too), and it leaves the
    editor as it is. *)
Theorem parsePPTXTemplate_resolves (file : File) (files : list File)
    (json : Document) (ed : Entry.Editor (File := File) (Store := Store)) :
  parse file = Some json ->
  exists slides,
    Entry.parsePPTXTemplate parse convert viewportSize viewportRatio fontName
      fontColor (file :: files) ed = (Entry.Returned slides, ed) /\
    length slides = Nat.max 5 (length (convert json)).
Proof.
  intros Hparse. unfold Entry.parsePPTXTemplate. rewrite Hparse.
  destruct (templateSlides_size viewportSize viewportRatio fontName fontColor
              (convert json) (Entry.supply ed)) as (t & Ht & Hlen).
  rewrite Ht. exists (Template.t_slides t). split; [reflexivity|exact Hlen].
Qed.

End EntryFacts.

Lemma parsePPTXTemplate_resolves_witness :
  let parse := fun file : nat => if (file =? 0)%nat then None else Some file in
  let convert := fun n : nat => map pictureSlide (seq 0 n) in
  let ed :=
    {| Entry.exporting := false; Entry.store := tt; Entry.reading := [];
       Entry.supply := 100 |} in
  parse 3%nat = Some 3%nat /\
  exists slides,
    Entry.parsePPTXTemplate parse convert 1000 0.5625 (Js.js "Arial")
      (Js.js "#333") [3%nat] ed = (Entry.Returned slides, ed) /\
    length slides = Nat.max 5 (length (convert 3%nat)).
Proof.
  intros parse convert ed.
  assert (Hparse : parse 3%nat = Some 3%nat) by reflexivity.
  split; [exact Hparse|].
  exact (parsePPTXTemplate_resolves parse convert 1000 0.5625 (Js.js "Arial")
           (Js.js "#333") 3%nat [] 3%nat ed Hparse).
Defined.

Lemma template_uses_each_slide_once_witness :
  let slides := [pictureSlide 1; pictureSlide 3; pictureSlide 5; pictureSlide 7;
                 pictureSlide 9] in
  (5 <= length slides)%nat /\
  exists t,
    Template.templateSlides 1000 0.5625 (Js.js "Arial") (Js.js "#333") slides 100
      = Some t /\
    map origin (Template.t_slides t) ≡ₚ map origin slides.
Proof.
  intros slides.
  assert (Hfive : (5 <= length slides)%nat) by (cbn; lia).
  split; [exact Hfive|].
  exact (template_uses_each_slide_once 1000 0.5625 (Js.js "Arial") (Js.js "#333")
           slides 100 Hfive).
Defined.

(* ================================================================== *)
(** * Properties of the markup and shape conversion *)
(* ================================================================== *)

Section ConvertFacts.

Local Open Scope R_scope.

Variable parseFloat : Js.jsstring -> R.
Variable parseInt : Js.jsstring -> R.
Variable toFixed1 : R -> Js.jsstring.
Variable shapeList : list Convert.ShapePoolItem.
Variable SHAPE_PATH_FORMULAS : Js.jsstring -> option Convert.PathFormula.
Variable getSvgPathRange : Js.jsstring -> R * R.
Variable defaultFontName : Js.jsstring.
Variable defaultFontColor : Js.jsstring.

Local Abbreviation convertFontSizePtToPx :=
  (Convert.convertFontSizePtToPx parseFloat toFixed1).
Local Abbreviation fitViewBox := (Convert.fitViewBox getSvgPathRange).
Local Abbreviation parseShape :=
  (Convert.parseShape parseFloat parseInt toFixed1 shapeList SHAPE_PATH_FORMULAS
     getSvgPathRange defaultFontName defaultFontColor).

Lemma includes_start (k s : Js.jsstring) :
  Js.startsWith k s = true -> Js.includes s k = true.
Proof. intros H. destruct s; cbn [Js.includes]; rewrite H; reflexivity. Qed.

Lemma includes_app_r (a b k : Js.jsstring) :
  Js.includes b k = true -> Js.includes (a ++ b) k = true.
Proof.
  intros H. induction a as [|c a IH]; [exact H|].
  cbn [app Js.includes]. rewrite IH. apply orb_true_r.
Qed.

Lemma includes_drop (n : nat) (s k : Js.jsstring) :
  Js.includes (drop n s) k = true -> Js.includes s k = true.
Proof.
  intros H. rewrite <- (take_drop n s). apply includes_app_r, H.
Qed.

Lemma span_split (f : N -> bool) (s : Js.jsstring) :
  s = fst (Js.span f s) ++ snd (Js.span f s).
Proof.
  induction s as [|c r IH]; [reflexivity|].
  cbn [Js.span]. destruct (f c); [|reflexivity].
  destruct (Js.span f r) as [a b]. cbn [fst snd app] in *. f_equal. exact IH.
Qed.

(** A match of the font size expression holds the unit. *)
Lemma reFontSizePt_pt (s : Js.jsstring) (r : nat * Js.jsstring) :
  Convert.reFontSizePt s = Some r -> Js.includes s (Js.js "pt") = true.
Proof.
  unfold Convert.reFontSizePt.
  destruct (Js.startsWith (Js.js "font-size:") s); [|discriminate].
  cbv zeta.
  pose proof (span_split Js.isSpace (drop 10 s)) as H1.
  destruct (Js.span Js.isSpace (drop 10 s)) as [w r1]. cbn [fst snd] in H1.
  pose proof (span_split Convert.isDigitOrDot r1) as H2.
  destruct (Js.span Convert.isDigitOrDot r1) as [p1 r2]. cbn [fst snd] in H2.
  destruct p1 as [|d p1]; [discriminate|].
  destruct (Js.startsWith (Js.js "pt") r2) eqn:Hpt; [|discriminate].
  intros _. apply (includes_drop 10). rewrite H1. apply includes_app_r.
  rewrite H2. apply includes_app_r, includes_start, Hpt.
Qed.

Lemma replaceAllWith_none {A} (m : Js.Matcher A) (rep : A -> Js.jsstring)
    (s : Js.jsstring) :
  (forall k, m (drop k s) = None) -> Convert.replaceAllWith m rep 0 s = s.
Proof.
  induction s as [|c r IH]; intros H; [reflexivity|].
  pose proof (H 0%nat) as H0. cbn [drop] in H0.
  cbn [Convert.replaceAllWith]. rewrite H0. f_equal. apply IH.
  intros k. apply (H (S k)).
Qed.

(** X24: markup that does not hold the unit [pt] anywhere, such as
    markup whose font sizes are in pixels, comes out of
    [convertFontSizePtToPx] as it is, whatever the ratio. *)
Theorem convertFontSizePtToPx_keeps_other_units (html : Js.jsstring) (ratio : R) :
  Js.includes html (Js.js "pt") = false ->
  convertFontSizePtToPx html ratio = html.
Proof.
  intros Hno. unfold Convert.convertFontSizePtToPx.
  apply replaceAllWith_none. intros k.
  destruct (Convert.reFontSizePt (drop k html)) as [r|] eqn:E; [|reflexivity].
  apply reFontSizePt_pt, includes_drop in E. rewrite Hno in E. discriminate.
Qed.

Local Abbreviation cleanPath p := (Js.replaceAll Convert.reNaN (Js.js "0") 0 p).

Lemma cleanPath_cons (c : N) (r : Js.jsstring) :
  cleanPath (c :: r) =
  if Js.startsWith (Js.js "NaN") (c :: r)
  then 48%N :: cleanPath (drop 2 r) else c :: cleanPath r.
Proof.
  rewrite replaceAll_cons. unfold Convert.reNaN.
  destruct (Js.startsWith (Js.js "NaN") (c :: r)); reflexivity.
Qed.

Lemma startsWith_NaN (s : Js.jsstring) :
  Js.startsWith (Js.js "NaN") s = true <->
  exists r, s = 78%N :: 97%N :: 78%N :: r.
Proof.
  change (Js.js "NaN") with [78%N; 97%N; 78%N]. split.
  - destruct s as [|x [|y [|z r]]]; cbn [Js.startsWith];
      rewrite ?andb_false_r; try discriminate.
    intros H. apply andb_prop in H as [Hx H]. apply andb_prop in H as [Hy H].
    apply andb_prop in H as [Hz _].
    apply N.eqb_eq in Hx, Hy, Hz. subst. exists r. reflexivity.
  - intros [r ->]. reflexivity.
Qed.

(** A unit of the cleaned path other than the zero that replaces a NaN
    is a unit of the path, at which no NaN starts. *)
Lemma cleanPath_head (s t : Js.jsstring) (x : N) :
  cleanPath s = x :: t -> x <> 48%N ->
  exists r, s = x :: r /\ t = cleanPath r.
Proof.
  destruct s as [|c r]; [discriminate|].
  rewrite cleanPath_cons.
  destruct (Js.startsWith (Js.js "NaN") (c :: r)).
  - intros [= <- _] Hx. contradiction.
  - intros [= <- <-] _. exists r. split; reflexivity.
Qed.

Lemma cleanPath_clean_upto (n : nat) (s : Js.jsstring) :
  (length s <= n)%nat -> Js.includes (cleanPath s) (Js.js "NaN") = false.
Proof.
  revert s. induction n as [|n IH]; intros s Hn.
  - destruct s; [reflexivity|cbn in Hn; lia].
  - destruct s as [|c r]; [reflexivity|]. cbn [length] in Hn.
    rewrite cleanPath_cons.
    destruct (Js.startsWith (Js.js "NaN") (c :: r)) eqn:Hs.
    + cbn [Js.includes]. rewrite IH by (rewrite length_drop; lia).
      rewrite orb_false_r. reflexivity.
    + cbn [Js.includes]. rewrite IH by lia. rewrite orb_false_r.
      apply not_true_is_false. intros H.
      apply startsWith_NaN in H as [t [= -> Ht]].
      apply cleanPath_head in Ht as (r1 & -> & Ht); [|discriminate].
      symmetry in Ht.
      apply cleanPath_head in Ht as (r2 & -> & _); [|discriminate].
      discriminate Hs.
Qed.

Lemma cleanPath_clean (s : Js.jsstring) :
  Js.includes (cleanPath s) (Js.js "NaN") = false.
Proof. apply (cleanPath_clean_upto (length s)). lia. Qed.

Lemma eqb_true (a b : Js.jsstring) : Js.eqb a b = true <-> a = b.
Proof. unfold Js.eqb. apply bool_decide_eq_true. Qed.

Local Abbreviation shapePath :=
  (Convert.shapePath shapeList SHAPE_PATH_FORMULAS getSvgPathRange).
Local Abbreviation customPath := (Convert.customPath getSvgPathRange).

(** What the custom branch makes of a path. *)
Lemma customPath_spec (el : Convert.SourceShape) (ow oh : R)
    (element e : Convert.PPTShapeElement) :
  Convert.shapType el = Js.js "custom" ->
  customPath el ow oh element = Some e ->
  exists p, Convert.path el = Some p /\
    Convert.e_viewBox e = fitViewBox (Convert.e_path e) ow oh /\
    Js.includes (Convert.e_path e) (Js.js "NaN") = false /\
    if Js.includes p (Js.js "NaN")
    then Convert.e_path e = cleanPath p /\
         Convert.e_width e <> 0 /\ Convert.e_height e <> 0 /\
         Convert.e_special e = Convert.e_special element
    else Convert.e_path e = p /\ Convert.e_special e = true /\
         Convert.e_width e = Convert.e_width element /\
         Convert.e_height e = Convert.e_height element.
Proof.
  intros Hcustom. unfold Convert.customPath.
  rewrite (proj2 (eqb_true _ _) Hcustom).
  destruct (Convert.path el) as [p|]; [|discriminate].
  cbv zeta. intros H. apply (inj Some) in H. subst e.
  exists p. split; [reflexivity|].
  destruct (Js.includes p (Js.js "NaN")) eqn:Hp.
  - cbn [Convert.e_viewBox Convert.e_path Convert.withViewBox Convert.withPath].
    split; [reflexivity|]. split; [apply cleanPath_clean|].
    destruct (Req_dec_T (Convert.e_width element) 0) as [Ew|Ew];
      cbn [Convert.e_height Convert.e_width Convert.withSize];
      destruct (Req_dec_T (Convert.e_height element) 0) as [Eh|Eh];
      cbn; repeat split; try assumption; lra.
  - cbn. split; [reflexivity|]. split; [exact Hp|]. repeat split.
Qed.

(** The branches before the custom one keep the size of the literal
    and do not mark the element. *)
Lemma shapePath_spec (el : Convert.SourceShape) (ow oh : R)
    (element e : Convert.PPTShapeElement) :
  shapePath el ow oh element = Some e ->
  Convert.e_width e = Convert.e_width element /\
  Convert.e_height e = Convert.e_height element /\
  Convert.e_special e = Convert.e_special element.
Proof.
  unfold Convert.shapePath. cbv zeta.
  destruct (List.find _ shapeList) as [shape|].
  - destruct (Convert.sp_pathFormula shape) as [name|].
    + destruct (SHAPE_PATH_FORMULAS name) as [[d f|f]|]; [| |discriminate];
        intros [= <-]; repeat split.
    + intros [= <-]. repeat split.
  - destruct (Convert.path el) as [p|]; [|intros [= <-]; repeat split].
    destruct (negb (Js.eqb p []) && negb (Js.includes p (Js.js "NaN")));
      intros [= <-]; repeat split.
Qed.


End ConvertFacts.

Lemma convertFontSizePtToPx_keeps_other_units_witness :
  Js.includes (Js.js "<span style='font-size: 12px'>a</span>") (Js.js "pt")
    = false /\
  Convert.convertFontSizePtToPx (fun _ => 0%R) (fun _ => [])
    (Js.js "<span style='font-size: 12px'>a</span>") (4 / 3)%R
  = Js.js "<span style='font-size: 12px'>a</span>".
Proof.
  assert (H : Js.includes (Js.js "<span style='font-size: 12px'>a</span>")
                (Js.js "pt") = false) by reflexivity.
  split; [exact H|].
  exact (convertFontSizePtToPx_keeps_other_units (fun _ => 0%R) (fun _ => [])
           _ (4 / 3)%R H).
Defined.

